(** * The getBlockTemplate RPC of the node (server/rpc/handle_get_block_template.go)

    A shallow embedding of the handler and of the work state it keeps between
    invocations, followed by the properties of the block template service
    that are checked against it.

    Conventions.  Go strings are [string] (a sequence of bytes), [[]byte] is
    [list byte], every Go integer is a [Z], a Go map is a [gmap] and a
    [map[K]struct{}] a [gset].  A channel is the address it was allocated at.
    A nil pointer or nil slice is [None].  External collaborators (the DAG,
    the mining generator, the mempool, the managers, the clock, the random
    source) are the fields of [Env]; the packages the handler imports but that
    are not part of this file are the classes [DagHash] and [Wire]. *)

From Stdlib Require Import ZArith String Ascii Strings.Byte DecimalString DecimalPos HexadecimalString List Permutation Sorted.
From stdpp Require Import base option gmap strings list sorting.

Local Open Scope string_scope.
Local Open Scope Z_scope.
Set Warnings "-clear-no-such-hyp".

(** ** Errors *)

(** Modelled from the spec: package blockdag is not under src/.  Its
    ErrorCode has the codes [dagErrToGBTErrString] names, and
    [ErrCodeOther] stands for every other code of the enumeration. *)
Inductive ErrorCode : Type :=
| ErrDuplicateBlock | ErrBlockMassTooHigh | ErrBlockVersionTooOld
| ErrTimeTooOld | ErrTimeTooNew | ErrDifficultyTooLow | ErrUnexpectedDifficulty
| ErrHighHash | ErrBadMerkleRoot | ErrFinalityPointTimeTooOld
| ErrNoTransactions | ErrNoTxInputs | ErrTxMassTooHigh | ErrBadTxOutValue
| ErrDuplicateTxInputs | ErrBadTxInput | ErrMissingTxOut | ErrUnfinalizedTx
| ErrDuplicateTx | ErrOverwriteTx | ErrImmatureSpend | ErrSpendTooHigh
| ErrBadFees | ErrTooManySigOps | ErrFirstTxNotCoinbase | ErrMultipleCoinbases
| ErrBadCoinbasePayloadLen | ErrScriptMalformed | ErrScriptValidation
| ErrParentBlockUnknown | ErrInvalidAncestorBlock | ErrParentBlockNotCurrentTips
| ErrCodeOther (n : nat).

#[global] Instance ErrorCode_eq_dec : EqDecision ErrorCode.
Proof. solve_decision. Defined.

(** Modelled from the spec: a Go [error] value as the collaborators return
    it: a blockdag.RuleError (a code and the description that is its
    text), a plain error (errors.New, errors.Errorf), or an error wrapped
    with a message (errors.Wrap). *)
Inductive error : Type :=
| RuleError (code : ErrorCode) (Description : string)
| errorString (text : string)
| withMessage (msg : string) (cause : error).

(** err.Error() *)
Fixpoint Error (err : error) : string :=
  match err with
  | RuleError _ Description => Description
  | errorString text => text
  | withMessage msg cause => msg +:+ ": " +:+ Error cause
  end.

(** errors.As(err, &ruleErr): the first RuleError on the chain of [err]. *)
Fixpoint errors_As_RuleError (err : error) : option (ErrorCode * string) :=
  match err with
  | RuleError code Description => Some (code, Description)
  | errorString _ => None
  | withMessage _ cause => errors_As_RuleError cause
  end.

(** Modelled from the spec: package rpcmodel is not under src/.  These are
    the codes of RPCErrorCode this handler uses. *)
Inductive RPCErrorCode : Type :=
| ErrRPCInvalidParameter | ErrRPCClientNotConnected | ErrRPCType
| ErrRPCDeserialization | ErrRPCVerify | ErrRPCOutOfRange | ErrRPCInternal.

#[global] Instance RPCErrorCode_eq_dec : EqDecision RPCErrorCode.
Proof. solve_decision. Defined.

(** The [error] a handler returns: an *rpcmodel.RPCError, ErrClientQuit, or
    an error of a collaborator returned as it is. *)
Inductive handlerError : Type :=
| RPCError (Code : RPCErrorCode) (Message : string)
| ErrClientQuit
| propagated (err : error).

(** Modelled from the spec: internalRPCError is declared elsewhere in package
    rpc; it logs its arguments and returns the RPC error of kind Internal
    with the given text. *)
Definition internalRPCError (errStr context : string) : handlerError :=
  RPCError ErrRPCInternal errStr.

(** What a function of the handler ends with: a value, a returned error, or
    a run-time panic. *)
Inductive result (A : Type) : Type :=
| Ok (a : A)
| Fail (err : handlerError)
| Panic (msg : string).
Arguments Ok {A} a.
Arguments Fail {A} err.
Arguments Panic {A} msg.

(** ** Strings, numbers and bytes (strings, strconv, fmt, encoding/hex) *)

(** strings.Split(s, sep) for a one-byte separator: the fields between the
    occurrences of [sep]; there is always at least one field. *)
Fixpoint strings_Split (s : string) (sep : ascii) : list string :=
  match s with
  | EmptyString => [EmptyString]
  | String c r =>
      if Ascii.eqb c sep then EmptyString :: strings_Split r sep
      else match strings_Split r sep with
           | f :: fs => String c f :: fs
           | [] => [String c EmptyString]
           end
  end.

Definition len (s : string) : Z := Z.of_nat (String.length s).

(** s[lo:hi] for 0 <= lo <= hi <= len(s). *)
Definition slice (s : string) (lo hi : nat) : string := substring lo (hi - lo) s.

(** The verb %d of fmt.Sprintf and strconv.FormatInt(_, 10). *)
Definition fmt_d (n : Z) : string := DecimalString.NilZero.string_of_int (Z.to_int n).

Definition digitValue (c : ascii) : option Z :=
  let n := Z.of_N (N_of_ascii c) in
  if (48 <=? n) && (n <=? 57) then Some (n - 48) else None.

Fixpoint parseDigits (acc : Z) (s : string) : option Z :=
  match s with
  | EmptyString => Some acc
  | String c r => match digitValue c with
                  | Some d => parseDigits (10 * acc + d) r
                  | None => None
                  end
  end.

Definition int64_min : Z := - 2 ^ 63.
Definition int64_max : Z := 2 ^ 63 - 1.

Definition numError (fn s why : string) : error :=
  errorString ("strconv." +:+ fn +:+ ": parsing " +:+ String "034" (s +:+ String "034" (": " +:+ why))).

(** strconv.ParseInt(s, 10, 64): an optional sign, then one or more decimal
    digits; a value outside of int64 is a range error. *)
Definition strconv_ParseInt (s : string) : error + Z :=
  let '(neg, body) :=
    match s with
    | String "+" r => (false, r)
    | String "-" r => (true, r)
    | _ => (false, s)
    end in
  match body with
  | EmptyString => inl (numError "ParseInt" s "invalid syntax")
  | _ =>
      match parseDigits 0 body with
      | None => inl (numError "ParseInt" s "invalid syntax")
      | Some un =>
          let n := if neg then - un else un in
          if (int64_min <=? n) && (n <=? int64_max) then inr n
          else inl (numError "ParseInt" s "value out of range")
      end
  end.

Definition hexDigit (n : N) : ascii :=
  ascii_of_N (if (n <? 10)%N then 48 + n else 87 + n)%N.

(** hex.EncodeToString *)
Fixpoint hex_EncodeToString (src : list Byte.byte) : string :=
  match src with
  | [] => EmptyString
  | b :: r =>
      let n := Byte.to_N b in
      String (hexDigit (n / 16)%N) (String (hexDigit (n mod 16)%N) (hex_EncodeToString r))
  end.

Definition fromHexChar (c : ascii) : option N :=
  let n := N_of_ascii c in
  if (48 <=? n)%N && (n <=? 57)%N then Some (n - 48)%N
  else if (97 <=? n)%N && (n <=? 102)%N then Some (n - 87)%N
  else if (65 <=? n)%N && (n <=? 70)%N then Some (n - 55)%N
  else None.

(** hex.DecodeString: two hexadecimal digits per byte; [None] stands for
    its error (an invalid byte or an odd length). *)
Fixpoint hex_DecodeString (s : string) : option (list Byte.byte) :=
  match s with
  | EmptyString => Some []
  | String _ EmptyString => None
  | String a (String b r) =>
      match fromHexChar a, fromHexChar b, hex_DecodeString r with
      | Some h, Some l, Some bs =>
          match Byte.of_N (16 * h + l) with
          | Some x => Some (x :: bs)
          | None => None
          end
      | _, _, _ => None
      end
  end.

(** Lower-case hexadecimal digits of a natural number: the verb %x and
    strconv.FormatInt(_, 16) on a number that is not negative. *)
Definition hexN (n : N) : string := HexadecimalString.NilZero.string_of_uint (N.to_hex_uint n).

Definition strconv_FormatInt16 (n : Z) : string :=
  if n <? 0 then "-" +:+ hexN (Z.to_N (- n)) else hexN (Z.to_N n).

Fixpoint zeros (n : nat) : string :=
  match n with O => EmptyString | S k => String "0" (zeros k) end.

(** fmt.Sprintf("%064x", n) for a big integer: the sign, then zeros up to a
    width of 64, then the digits. *)
Definition fmt_064x (n : Z) : string :=
  let digits := hexN (Z.to_N (Z.abs n)) in
  let sign := if n <? 0 then "-" else "" in
  sign +:+ zeros (64 - String.length sign - String.length digits) +:+ digits.

(** ** Time (util/mstime) *)

(** Modelled from the spec: util/mstime is not under src/.  A [Time] is an
    instant with millisecond precision, here the number of milliseconds since
    the Unix epoch; the zero value of the type is Go's zero instant, January
    1 of year 1, which IsZero recognises. *)
Definition Time : Type := Z.
Definition zeroTime : Time := - 62135596800000.
Definition IsZero (t : Time) : bool := t =? zeroTime.
Definition UnixSeconds (t : Time) : Z := t / 1000.
Definition UnixMilliseconds (t : Time) : Z := t.
(** t.Add(d), with the duration [d] in milliseconds. *)
Definition Add (t : Time) (d : Z) : Time := t + d.
(** t.After(u) *)
Definition After (t u : Time) : bool := u <? t.

Definition Millisecond : Z := 1.
Definition Second : Z := 1000.

(** ** Hashes (util/daghash) *)

(** What the handler uses of a daghash.Hash, a fixed array of HashSize
    bytes: its equality, its hexadecimal string and the parser of that
    string. *)
Class DagHash : Type := {
  Hash : Type;
  Hash_eq_dec :: EqDecision Hash;
  Hash_countable :: Countable Hash;
  HashString : Hash -> string;
  NewHashFromStr : string -> error + Hash;
}.

(** Modelled from the spec: daghash.HashSize is not under src/; the fixed
    width of a hash, 32 bytes. *)
Definition HashSize : nat := 32.

Section Hashes.
Context `{DagHash}.

(** Modelled from the spec: daghash.JoinHashesStrings is not under src/;
    the fingerprint of a tip set is the concatenation of the strings of
    its hashes, with [separator] between two of them. *)
Fixpoint JoinHashesStrings (hashes : list Hash) (separator : string) : string :=
  match hashes with
  | [] => EmptyString
  | [h] => HashString h
  | h :: r => HashString h +:+ separator +:+ JoinHashesStrings r separator
  end.

(** Modelled from the spec: daghash.AreEqual is not under src/; two
    sequences of hashes are equal when they have the same hashes in the
    same order. *)
Definition AreEqual (hashes1 hashes2 : list Hash) : bool :=
  bool_decide (hashes1 = hashes2).

(** Modelled from the spec: daghash.Strings is not under src/; the
    strings of the hashes, in order. *)
Definition Strings (hashes : list Hash) : list string := map HashString hashes.
End Hashes.

(** ** Transactions, blocks and templates (wire, mining, util) *)

(** Modelled from the spec: the packages wire, mining, util and rpcmodel
    are not under src/.  The records below have the fields the handler
    reads and writes, under the names it uses. *)

Section WireTypes.
Context `{DagHash}.

(** wire.Outpoint and wire.TxIn: the handler reads the transaction id of
    the previous outpoint only. *)
Record Outpoint : Type := { OutpointTxID : Hash; OutpointIndex : Z }.
Record TxIn : Type := { PreviousOutpoint : Outpoint }.
End WireTypes.

(** What the handler uses of a wire.MsgTx and of a util.Address. *)
Class Wire `{DagHash} : Type := {
  MsgTx : Type;
  (** tx.TxID() *)
  TxID : MsgTx -> Hash;
  (** tx.TxIn *)
  MsgTx_TxIn : MsgTx -> list TxIn;
  (** tx.Serialize into a fresh buffer: the bytes written, or the error *)
  Serialize : MsgTx -> error + list Byte.byte;
  Address : Type;
  (** the String method of the address, which the verb %s prints *)
  AddressString : Address -> string;
}.

Section Model.
Context `{Wire}.

Record BlockHeader : Type := {
  Version : Z;
  ParentHashes : list Hash;
  HashMerkleRoot : Hash;
  AcceptedIDMerkleRoot : Hash;
  UTXOCommitment : Hash;
  Timestamp : Time;
  Bits : Z;
  Nonce : Z;
}.

Record MsgBlock : Type := {
  Header : BlockHeader;
  Transactions : list MsgTx;
}.

(** mining.BlockTemplate *)
Record BlockTemplate : Type := {
  Block : MsgBlock;
  TxMasses : list Z;
  Fees : list Z;
  Height : Z;
}.

(** rpcmodel.TemplateRequest and rpcmodel.GetBlockTemplateCmd *)
Record TemplateRequest : Type := {
  Mode : string;
  LongPollID : string;
  PayAddress : string;
  Data : string;
}.

Record GetBlockTemplateCmd : Type := { Request : option TemplateRequest }.

(** rpcmodel.GetBlockTemplateResultTx *)
Record GetBlockTemplateResultTx : Type := {
  TxData : string;
  ID : string;
  Depends : list Z;
  Mass : Z;
  Fee : Z;
}.

(** rpcmodel.GetBlockTemplateResult *)
Record GetBlockTemplateResult : Type := {
  ResultBits : string;
  CurTime : Z;
  ResultHeight : Z;
  ResultParentHashes : list string;
  MassLimit : Z;
  ResultTransactions : list GetBlockTemplateResultTx;
  ResultHashMerkleRoot : string;
  ResultAcceptedIDMerkleRoot : string;
  ResultUTXOCommitment : string;
  ResultVersion : Z;
  ResultLongPollID : string;
  Target : string;
  MinTime : Z;
  MaxTime : Z;
  Mutable : list string;
  NonceRange : string;
  Capabilities : list string;
  ResultIsSynced : bool;
}.

(** The [interface{}] a handler returns. *)
Inductive value : Type :=
| VNil
| VBool (b : bool)
| VString (s : string)
| VResult (r : GetBlockTemplateResult).

(** ** Constants *)

Definition gbtNonceRange : string := "000000000000ffffffffffff".
Definition gbtRegenerateSeconds : Z := 60.
Definition gbtMutableFields : list string :=
  ["time"; "transactions/add"; "parentblock"; "coinbase/append"].
Definition gbtCapabilities : list string := ["proposal"].

(** ** The work state *)

(** A [chan struct{}] is the address of the channel. *)
Definition chan : Type := positive.

(** gbtWorkState, without its mutex: every function below runs with the
    state locked, as one step. *)
Record gbtWorkState : Type := {
  lastTxUpdate : Time;
  lastGenerated : Time;
  tipHashes : option (list Hash);
  minTimestamp : Time;
  template : option BlockTemplate;
  notifyMap : gmap string (gmap Z chan);
  payAddress : option Address;
}.

Definition newGbtWorkState : gbtWorkState :=
  {| lastTxUpdate := zeroTime; lastGenerated := zeroTime; tipHashes := None;
     minTimestamp := zeroTime; template := None; notifyMap := ∅;
     payAddress := None |}.

(** What a call sees of the rest of the server and of the runtime. *)
Record Env : Type := {
  (** config.ActiveConfig() *)
  RegressionTest : bool;
  Simnet : bool;
  (** s.cfg.ConnMgr.ConnectedCount() *)
  ConnectedCount : Z;
  (** util.DecodeAddress(_, s.cfg.DAGParams.Prefix) *)
  DecodeAddress : string -> error + Address;
  (** generator.TxSource().LastUpdated() *)
  LastUpdated : Time;
  (** generator.NewBlockTemplate and generator.UpdateBlockTime *)
  NewBlockTemplate : Address -> Z -> error + BlockTemplate;
  UpdateBlockTime : MsgBlock -> MsgBlock;
  (** s.cfg.DAG *)
  TipHashes : list Hash;
  NextBlockMinimumTime : Time;
  Now : Time;
  TimestampDeviationTolerance : Z;
  CheckConnectBlockTemplate : MsgBlock -> option error;
  (** s.cfg.SyncMgr.IsSynced() *)
  IsSynced : bool;
  (** random.Uint64() *)
  random_Uint64 : error + Z;
  (** msgBlock.Deserialize, util.CompactToBig, wire.MaxMassPerBlock and
      the verb %s of fmt.Sprintf on a time *)
  Deserialize : list Byte.byte -> error + MsgBlock;
  CompactToBig : Z -> Z;
  MaxMassPerBlock : Z;
  TimeString : Time -> string;
  (** the verb %q of fmt.Sprintf on a string *)
  fmt_q : string -> string;
  (** mstime.Now(): the n-th reading of the wall clock *)
  clock : nat -> Time;
  (** the order in which the n-th range statement over a map visits the
      entries of the map: Go leaves it unspecified *)
  rangeOrder : nat -> forall A : Type, list A -> list A;
}.

(** Every order of iteration is a permutation of the entries. *)
Definition rangeOrder_ok (env : Env) : Prop :=
  forall n A (l : list A), rangeOrder env n A l ≡ₚ l.

(** The memory a call works on: the work state, the channels that were
    closed, the next free channel address and the number of clock
    readings and of range statements so far. *)
Record Machine : Type := {
  state : gbtWorkState;
  closed : gset chan;
  nextChan : chan;
  clockTicks : nat;
  rangeTicks : nat;
}.

Definition newMachine : Machine :=
  {| state := newGbtWorkState; closed := ∅; nextChan := 1%positive;
     clockTicks := 0; rangeTicks := 0 |}.

Definition setState (f : gbtWorkState -> gbtWorkState) (m : Machine) : Machine :=
  {| state := f (state m); closed := closed m; nextChan := nextChan m;
     clockTicks := clockTicks m; rangeTicks := rangeTicks m |}.

Definition setNotifyMap (f : gmap string (gmap Z chan) -> gmap string (gmap Z chan))
    (st : gbtWorkState) : gbtWorkState :=
  {| lastTxUpdate := lastTxUpdate st; lastGenerated := lastGenerated st;
     tipHashes := tipHashes st; minTimestamp := minTimestamp st;
     template := template st; notifyMap := f (notifyMap st);
     payAddress := payAddress st |}.

Definition setTipHashes (t : option (list Hash)) (st : gbtWorkState) : gbtWorkState :=
  {| lastTxUpdate := lastTxUpdate st; lastGenerated := lastGenerated st;
     tipHashes := t; minTimestamp := minTimestamp st;
     template := template st; notifyMap := notifyMap st;
     payAddress := payAddress st |}.

Definition setTemplate (t : option BlockTemplate) (st : gbtWorkState) : gbtWorkState :=
  {| lastTxUpdate := lastTxUpdate st; lastGenerated := lastGenerated st;
     tipHashes := tipHashes st; minTimestamp := minTimestamp st;
     template := t; notifyMap := notifyMap st;
     payAddress := payAddress st |}.

(** ** The monad of the handler: state, returned errors and panics *)

Definition M (A : Type) : Type := Machine -> Machine * result A.

#[global] Instance M_ret : MRet M := fun A a m => (m, Ok a).
#[global] Instance M_bind : MBind M := fun A B k c m =>
  match c m with
  | (m', Ok a) => k a m'
  | (m', Fail err) => (m', Fail err)
  | (m', Panic msg) => (m', Panic msg)
  end.

Definition fail {A} (err : handlerError) : M A := fun m => (m, Fail err).
Definition panic {A} (msg : string) : M A := fun m => (m, Panic msg).
Definition get : M gbtWorkState := fun m => (m, Ok (state m)).
Definition modify (f : gbtWorkState -> gbtWorkState) : M unit :=
  fun m => (setState f m, Ok tt).

Fixpoint forM_ {A} (l : list A) (body : A -> M unit) : M unit :=
  match l with
  | [] => mret tt
  | x :: r => body x;; forM_ r body
  end.

(** builderScript, for the result of builder.Script(): an error is
    converted to a panic. *)
Definition builderScript (script : error + list Byte.byte) : M (list Byte.byte) :=
  match script with
  | inl err => panic (Error err)
  | inr script => mret script
  end.

Definition nilPointer : string := "invalid memory address or nil pointer dereference".

Variable env : Env.

(** mstime.Now() *)
Definition mstime_Now : M Time := fun m =>
  ({| state := state m; closed := closed m; nextChan := nextChan m;
      clockTicks := S (clockTicks m); rangeTicks := rangeTicks m |},
   Ok (clock env (clockTicks m))).

(** The entries a range statement visits, in the order of this run. *)
Definition range {A} (entries : list A) : M (list A) := fun m =>
  ({| state := state m; closed := closed m; nextChan := nextChan m;
      clockTicks := clockTicks m; rangeTicks := S (rangeTicks m) |},
   Ok (rangeOrder env (rangeTicks m) A entries)).

(** make(chan struct{}) *)
Definition makeChan : M chan := fun m =>
  ({| state := state m; closed := closed m; nextChan := Pos.succ (nextChan m);
      clockTicks := clockTicks m; rangeTicks := rangeTicks m |},
   Ok (nextChan m)).

(** close(c): closing a closed channel panics. *)
Definition close (c : chan) : M unit := fun m =>
  if decide (c ∈ closed m) then (m, Panic "close of closed channel")
  else ({| state := state m; closed := {[c]} ∪ closed m; nextChan := nextChan m;
           clockTicks := clockTicks m; rangeTicks := rangeTicks m |}, Ok tt).

(** ** The notification registry *)

(** The inner maps of [notifyMap] are shared objects in Go: the local
    variable [channels] and the entry of the outer map are one map.  Here a
    change of the inner map is written back to the entry with [alter]. *)
Definition notifyLongPollers (tipHashes : list Hash) (lastGenerated : Time) : M unit :=
  let tipHashesStr := JoinHashesStrings tipHashes "" in
  st ← get;
  entries ← range (map_to_list (notifyMap st));
  forM_ entries (fun '(hashesStr, channels) =>
    if negb (String.eqb hashesStr tipHashesStr) then
      cs ← range (map_to_list channels);
      forM_ cs (fun '(_, c) => close c);;
      modify (setNotifyMap (delete hashesStr))
    else mret tt);;
  if IsZero lastGenerated then mret tt
  else
    st ← get;
    match notifyMap st !! tipHashesStr with
    | None => mret tt
    | Some channels =>
        let lastGeneratedUnix := UnixSeconds lastGenerated in
        cs ← range (map_to_list channels);
        forM_ cs (fun '(lastGen, c) =>
          if lastGen <? lastGeneratedUnix then
            close c;;
            modify (setNotifyMap (alter (delete lastGen) tipHashesStr))
          else mret tt);;
        (* len(channels): the shared inner map, after the deletions *)
        st ← get;
        let channels := default ∅ (notifyMap st !! tipHashesStr) in
        if Z.of_nat (size channels) =? 0
        then modify (setNotifyMap (delete tipHashesStr))
        else mret tt
    end.

(** NotifyBlockAdded: the spawned function, which runs with the state
    locked. *)
Definition NotifyBlockAdded (tipHashes : list Hash) : M unit :=
  st ← get;
  notifyLongPollers tipHashes (lastTxUpdate st).

(** NotifyMempoolTx: the spawned function, which runs with the state
    locked. *)
Definition NotifyMempoolTx (lastUpdated : Time) : M unit :=
  st ← get;
  match tipHashes st with
  | None => mret tt
  | Some tips =>
      if IsZero (lastGenerated st) then mret tt
      else
        now ← mstime_Now;
        if After now (Add (lastGenerated st) (Second * gbtRegenerateSeconds))
        then notifyLongPollers tips lastUpdated
        else mret tt
  end.

Definition templateUpdateChan (tipHashes : list Hash) (lastGenerated : Z) : M chan :=
  let tipHashesStr := JoinHashesStrings tipHashes "" in
  st ← get;
  channels ← match notifyMap st !! tipHashesStr with
             | Some channels => mret channels
             | None =>
                 modify (setNotifyMap (insert tipHashesStr ∅));;
                 mret (∅ : gmap Z chan)
             end;
  match channels !! lastGenerated with
  | Some c => mret c
  | None =>
      c ← makeChan;
      modify (setNotifyMap (alter (insert lastGenerated c) tipHashesStr));;
      mret c
  end.

(** ** The long-poll ID *)

(** The verb %s on a util.Address: its String method, and the text fmt
    prints for a nil interface value. *)
Definition fmt_s_Address (a : option Address) : string :=
  match a with
  | Some a => AddressString a
  | None => "%!s(<nil>)"
  end.

Definition encodeLongPollID (parentHashes : list Hash) (miningAddress : option Address)
    (lastGenerated : Time) : string :=
  JoinHashesStrings parentHashes "" +:+ "-" +:+ fmt_s_Address miningAddress
    +:+ "-" +:+ fmt_d (UnixSeconds lastGenerated).

(** The loop of decodeLongPollID over parentHashesStr, HashSize bytes at a
    time from index [i]; [fuel] bounds the number of iterations. *)
Fixpoint decodeParentHashes (fuel : nat) (parentHashesStr : string) (i : nat)
    (parentHashes : list Hash) : error + list Hash :=
  match fuel with
  | O => inr parentHashes
  | S fuel =>
      if (i <? String.length parentHashesStr)%nat then
        match NewHashFromStr (slice parentHashesStr i (i + HashSize)) with
        | inl err => inl (errorString ("decodeLongPollID: NewHashFromStr: " +:+ Error err))
        | inr hash => decodeParentHashes fuel parentHashesStr (i + HashSize) (parentHashes ++ [hash])
        end
      else inr parentHashes
  end.

Definition decodeLongPollID (longPollID : string) : error + (list Hash * Z) :=
  let fields := strings_Split longPollID "-" in
  match fields with
  | [parentHashesStr; timestampStr] =>
      if negb (String.length parentHashesStr mod HashSize =? 0)%nat then
        inl (errorString "decodeLongPollID: invalid parent hashes format")
      else
        match decodeParentHashes (String.length parentHashesStr) parentHashesStr 0 [] with
        | inl err => inl err
        | inr parentHashes =>
            match strconv_ParseInt timestampStr with
            | inl err =>
                inl (errorString ("decodeLongPollID: Cannot parse timestamp " +:+
                                  timestampStr +:+ ": " +:+ Error err))
            | inr lastGenerated => inr (parentHashes, lastGenerated)
            end
        end
  | _ => inl (errorString "decodeLongPollID: invalid number of fields")
  end.

(** ** The rejection strings of a proposal *)

Definition dagErrToGBTErrString (err : error) : string :=
  match errors_As_RuleError err with
  | None => "rejected: " +:+ Error err
  | Some (code, _) =>
      match code with
      | ErrDuplicateBlock => "duplicate"
      | ErrBlockMassTooHigh => "bad-blk-mass"
      | ErrBlockVersionTooOld => "bad-version"
      | ErrTimeTooOld => "time-too-old"
      | ErrTimeTooNew => "time-too-new"
      | ErrDifficultyTooLow => "bad-diffbits"
      | ErrUnexpectedDifficulty => "bad-diffbits"
      | ErrHighHash => "high-hash"
      | ErrBadMerkleRoot => "bad-txnmrklroot"
      | ErrFinalityPointTimeTooOld => "finality-point-time-too-old"
      | ErrNoTransactions => "bad-txns-none"
      | ErrNoTxInputs => "bad-txns-noinputs"
      | ErrTxMassTooHigh => "bad-txns-mass"
      | ErrBadTxOutValue => "bad-txns-outputvalue"
      | ErrDuplicateTxInputs => "bad-txns-dupinputs"
      | ErrBadTxInput => "bad-txns-badinput"
      | ErrMissingTxOut => "bad-txns-missinginput"
      | ErrUnfinalizedTx => "bad-txns-unfinalizedtx"
      | ErrDuplicateTx => "bad-txns-duplicate"
      | ErrOverwriteTx => "bad-txns-overwrite"
      | ErrImmatureSpend => "bad-txns-maturity"
      | ErrSpendTooHigh => "bad-txns-highspend"
      | ErrBadFees => "bad-txns-fees"
      | ErrTooManySigOps => "high-sigops"
      | ErrFirstTxNotCoinbase => "bad-txns-nocoinbase"
      | ErrMultipleCoinbases => "bad-txns-multicoinbase"
      | ErrBadCoinbasePayloadLen => "bad-cb-length"
      | ErrScriptMalformed => "bad-script-malformed"
      | ErrScriptValidation => "bad-script-validate"
      | ErrParentBlockUnknown => "parent-blk-not-found"
      | ErrInvalidAncestorBlock => "bad-parentblk"
      | ErrParentBlockNotCurrentTips => "inconclusive-not-best-parentblk"
      | ErrCodeOther _ => "rejected: " +:+ Error err
      end
  end.
(** ** The template cache *)

(** state.payAddress.String(): a method call on a nil interface panics. *)
Definition Address_String (a : option Address) : M string :=
  match a with
  | Some a => mret (AddressString a)
  | None => panic nilPointer
  end.

(** The condition of the if statement of updateBlockTemplate, its
    operands evaluated from left to right and only as far as needed. *)
Definition needsNewTemplate (st : gbtWorkState) (tips : list Hash) (payAddr : Address)
    (lastTxUpdate' : Time) : M bool :=
  match template st with
  | None => mret true
  | Some _ =>
      match tipHashes st with
      | None => mret true
      | Some stateTips =>
          if negb (AreEqual stateTips tips) then mret true
          else
            stateAddr ← Address_String (payAddress st);
            if negb (String.eqb stateAddr (AddressString payAddr)) then mret true
            else if bool_decide (lastTxUpdate st ≠ lastTxUpdate') then
              now ← mstime_Now;
              mret (After now (Add (lastGenerated st) (Second * gbtRegenerateSeconds)))
            else mret false
      end
  end.

(** The assignments that commit a new template. *)
Definition commitTemplate (blkTemplate : BlockTemplate) (now lastTxUpdate' : Time)
    (tips : list Hash) (minTimestamp' : Time) (payAddr : Address)
    (st : gbtWorkState) : gbtWorkState :=
  {| template := Some blkTemplate; lastGenerated := now;
     lastTxUpdate := lastTxUpdate'; tipHashes := Some tips;
     minTimestamp := minTimestamp'; payAddress := Some payAddr;
     notifyMap := notifyMap st |}.

Definition setNonce (n : Z) (b : MsgBlock) : MsgBlock :=
  let h := Header b in
  {| Header := {| Version := Version h; ParentHashes := ParentHashes h;
                  HashMerkleRoot := HashMerkleRoot h;
                  AcceptedIDMerkleRoot := AcceptedIDMerkleRoot h;
                  UTXOCommitment := UTXOCommitment h; Timestamp := Timestamp h;
                  Bits := Bits h; Nonce := n |};
     Transactions := Transactions b |}.

Definition setBlock (b : MsgBlock) (t : BlockTemplate) : BlockTemplate :=
  {| Block := b; TxMasses := TxMasses t; Fees := Fees t; Height := Height t |}.

(** The first branch of the if statement of updateBlockTemplate: a new
    template is built and committed, and the long pollers are notified.
    The target difficulty is computed for the log only and is left out,
    as are the log calls. *)
Definition regenerateTemplate (payAddr : Address) (tips : list Hash)
    (lastTxUpdate' : Time) : M unit :=
  modify (setTipHashes None);;
  extraNonce ← match random_Uint64 env with
               | inl err => fail (internalRPCError
                   ("Failed to randomize extra nonce: " +:+ Error err) "")
               | inr n => mret n
               end;
  blkTemplate ← match NewBlockTemplate env payAddr extraNonce with
                | inl err => fail (internalRPCError
                    ("Failed to create new block template: " +:+ Error err) "")
                | inr t => mret t
                end;
  let minTimestamp' := NextBlockMinimumTime env in
  now ← mstime_Now;
  modify (commitTemplate blkTemplate now lastTxUpdate' tips minTimestamp' payAddr);;
  notifyLongPollers tips lastTxUpdate'.

(** The else branch: the template of the state and its block are
    pointers, so the refresh writes the block of the stored template. *)
Definition refreshTemplate (template : option BlockTemplate) : M unit :=
  match template with
  | None => panic nilPointer
  | Some t =>
      let msgBlock := UpdateBlockTime env (Block t) in
      modify (setTemplate (Some (setBlock (setNonce 0 msgBlock) t)))
  end.

Definition updateBlockTemplate (payAddr : Address) : M unit :=
  lastTxUpdate' ← (if IsZero (LastUpdated env) then mstime_Now
                   else mret (LastUpdated env));
  let tips := TipHashes env in
  st ← get;
  regenerate ← needsNewTemplate st tips payAddr lastTxUpdate';
  if regenerate : bool then regenerateTemplate payAddr tips lastTxUpdate'
  else refreshTemplate (template st).

(** ** The reply *)

(** a[i] of a slice: an index out of range panics. *)
Definition index {A} (a : list A) (i : nat) : M A :=
  match a !! i with
  | Some x => mret x
  | None => panic "index out of range"
  end.

(** The inner loop of blockTemplateResult over the inputs of a
    transaction: the indices of the transactions they spend that are in
    txIndex. *)
Definition dependsMapOf (txIndex : gmap Hash Z) (txIns : list TxIn) : gset Z :=
  foldl (fun dependsMap txIn =>
           match txIndex !! OutpointTxID (PreviousOutpoint txIn) with
           | Some idx => {[idx]} ∪ dependsMap
           | None => dependsMap
           end) ∅ txIns.

(** The loop of blockTemplateResult over msgBlock.Transactions, from the
    transaction of index [i] on. *)
Fixpoint resultTransactions (t : BlockTemplate) (txs : list MsgTx) (i : nat)
    (txIndex : gmap Hash Z) (transactions : list GetBlockTemplateResultTx)
    : M (list GetBlockTemplateResultTx) :=
  match txs with
  | [] => mret transactions
  | tx :: rest =>
      let txID := TxID tx in
      let txIndex := <[txID := Z.of_nat i]> txIndex in
      let dependsMap := dependsMapOf txIndex (MsgTx_TxIn tx) in
      depends ← range (elements dependsMap);
      match Serialize tx with
      | inl err => fail (internalRPCError (Error err) "Failed to serialize transaction")
      | inr txBuf =>
          mass ← index (TxMasses t) i;
          fee ← index (Fees t) i;
          let resultTx := {| TxData := hex_EncodeToString txBuf;
                             ID := HashString txID;
                             Depends := depends;
                             Mass := mass;
                             Fee := fee |} in
          resultTransactions t rest (S i) txIndex (transactions ++ [resultTx])
      end
  end.

Definition blockTemplateResult : M GetBlockTemplateResult :=
  st ← get;
  match template st with
  | None => panic nilPointer
  | Some t =>
      let msgBlock := Block t in
      let header := Header msgBlock in
      let adjustedTime := Now env in
      let maxTime := Add adjustedTime (Millisecond * TimestampDeviationTolerance env) in
      if After (Timestamp header) maxTime then
        fail (RPCError ErrRPCOutOfRange
                ("The template time is after the maximum allowed time for a block - template time "
                 +:+ TimeString env adjustedTime +:+ ", maximum time " +:+ TimeString env maxTime))
      else
        let numTx := length (Transactions msgBlock) in
        (* make([]rpcmodel.GetBlockTemplateResultTx, 0, numTx-1) *)
        if (numTx =? 0)%nat then panic "makeslice: cap out of range"
        else
          transactions ← resultTransactions t (Transactions msgBlock) 0 ∅ [];
          let targetDifficulty := fmt_064x (CompactToBig env (Bits header)) in
          let longPollID :=
            encodeLongPollID (default [] (tipHashes st)) (payAddress st) (lastGenerated st) in
          let isSynced := IsSynced env in
          mret {| ResultBits := strconv_FormatInt16 (Bits header);
                  CurTime := UnixMilliseconds (Timestamp header);
                  ResultHeight := Height t;
                  ResultParentHashes := Strings (ParentHashes header);
                  MassLimit := MaxMassPerBlock env;
                  ResultTransactions := transactions;
                  ResultHashMerkleRoot := HashString (HashMerkleRoot header);
                  ResultAcceptedIDMerkleRoot := HashString (AcceptedIDMerkleRoot header);
                  ResultUTXOCommitment := HashString (UTXOCommitment header);
                  ResultVersion := Version header;
                  ResultLongPollID := longPollID;
                  Target := targetDifficulty;
                  MinTime := UnixMilliseconds (minTimestamp st);
                  MaxTime := UnixMilliseconds maxTime;
                  Mutable := gbtMutableFields;
                  NonceRange := gbtNonceRange;
                  Capabilities := gbtCapabilities;
                  ResultIsSynced := isSynced |}
  end.
(** ** The handlers *)

(** The pair (interface{}, error) a handler returns. *)
Definition reply : Type := value * option handlerError.

(** A call that returns an error returns it next to a nil value. *)
Definition returned (c : M value) : M reply := fun m =>
  match c m with
  | (m', Ok v) => (m', Ok (v, None))
  | (m', Fail err) => (m', Ok (VNil, Some err))
  | (m', Panic msg) => (m', Panic msg)
  end.

Definition blockTemplateOrLongPollChan (longPollID : string) (payAddr : Address)
    : M (option GetBlockTemplateResult * option chan) :=
  updateBlockTemplate payAddr;;
  match decodeLongPollID longPollID with
  | inl _ =>
      result ← blockTemplateResult;
      mret (Some result, None)
  | inr (parentHashes, lastGenerated') =>
      st ← get;
      match template st with
      | None => panic nilPointer
      | Some t =>
          let areHashesEqual := AreEqual (ParentHashes (Header (Block t))) parentHashes in
          if negb areHashesEqual
             || negb (lastGenerated' =? UnixSeconds (lastGenerated st)) then
            result ← blockTemplateResult;
            mret (Some result, None)
          else
            longPollChan ← templateUpdateChan parentHashes lastGenerated';
            mret (None, Some longPollChan)
      end
  end.

(** A long-poll request either has its reply, or waits in the select
    statement for [longPollChan] or for the close of the client. *)
Inductive longPoll : Type :=
| Replied (r : reply)
| Waiting (longPollChan : option chan) (payAddr : Address).

(** handleGetBlockTemplateLongPoll up to its select statement. *)
Definition handleGetBlockTemplateLongPoll (longPollID : string) (payAddr : Address)
    : M longPoll := fun m =>
  match blockTemplateOrLongPollChan longPollID payAddr m with
  | (m', Fail err) => (m', Ok (Replied (VNil, Some err)))
  | (m', Panic msg) => (m', Panic msg)
  | (m', Ok (Some result, _)) => (m', Ok (Replied (VResult result, None)))
  | (m', Ok (None, longPollChan)) => (m', Ok (Waiting longPollChan payAddr))
  end.

(** The case of the select statement that ends the wait. *)
Inductive wakeup : Type := closeChanFired | longPollChanFired.

(** handleGetBlockTemplateLongPoll from its select statement on. *)
Definition handleGetBlockTemplateLongPoll_wake (payAddr : Address) (w : wakeup) : M reply :=
  match w with
  | closeChanFired => mret (VNil, Some ErrClientQuit)
  | longPollChanFired =>
      returned (updateBlockTemplate payAddr;;
                result ← blockTemplateResult;
                mret (VResult result))
  end.

Definition handleGetBlockTemplateRequest (request : option TemplateRequest) : M longPoll :=
  if negb (RegressionTest env || Simnet env) && (ConnectedCount env =? 0) then
    mret (Replied (VNil, Some (RPCError ErrRPCClientNotConnected "Kaspa is not connected")))
  else
    match request with
    | None => panic nilPointer
    | Some request =>
        match DecodeAddress env (PayAddress request) with
        | inl err => mret (Replied (VNil, Some (propagated err)))
        | inr payAddr =>
            if negb (String.eqb (LongPollID request) "") then
              handleGetBlockTemplateLongPoll (LongPollID request) payAddr
            else
              r ← returned (updateBlockTemplate payAddr;;
                            result ← blockTemplateResult;
                            mret (VResult result));
              mret (Replied r)
        end
    end.

(** handleGetBlockTemplateProposal: it takes the server for its DAG only. *)
Definition handleGetBlockTemplateProposal (request : TemplateRequest) : reply :=
  let hexData := Data request in
  if String.eqb hexData "" then
    (VBool false,
     Some (RPCError ErrRPCType
        "Data must contain the hex-encoded serialized block that is being proposed"))
  else
    let hexData := if negb (String.length hexData mod 2 =? 0)%nat
                   then "0" +:+ hexData else hexData in
    match hex_DecodeString hexData with
    | None =>
        (VBool false,
         Some (RPCError ErrRPCDeserialization
            ("Data must be hexadecimal string (not " +:+ fmt_q env hexData +:+ ")")))
    | Some dataBytes =>
        match Deserialize env dataBytes with
        | inl err =>
            (VNil, Some (RPCError ErrRPCDeserialization
                           ("Block decode failed: " +:+ Error err)))
        | inr msgBlock =>
            let expectedParentHashes := TipHashes env in
            let parentHashes := ParentHashes (Header msgBlock) in
            if negb (AreEqual expectedParentHashes parentHashes) then
              (VString "bad-parentblk", None)
            else
              match CheckConnectBlockTemplate env msgBlock with
              | Some err =>
                  match errors_As_RuleError err with
                  | None =>
                      let errStr := "Failed to process block proposal: " +:+ Error err in
                      (VNil, Some (RPCError ErrRPCVerify errStr))
                  | Some _ => (VString (dagErrToGBTErrString err), None)
                  end
              | None => (VNil, None)
              end
        end
    end.

Definition handleGetBlockTemplate (cmd : GetBlockTemplateCmd) : M longPoll :=
  let request := Request cmd in
  let mode := match request with
              | Some r => if negb (String.eqb (Mode r) "") then Mode r else "template"
              | None => "template"
              end in
  if String.eqb mode "template" then handleGetBlockTemplateRequest request
  else if String.eqb mode "proposal" then
    match request with
    | Some r => mret (Replied (handleGetBlockTemplateProposal r))
    | None => panic nilPointer
    end
  else mret (Replied (VNil, Some (RPCError ErrRPCInvalidParameter "Invalid mode"))).
End Model.

Arguments Replied {_ _} r.
Arguments Waiting {_ _} longPollChan payAddr.

(** ** The rejection strings of the protocol *)

(** The closed set of fixed strings of a rejected proposal. *)
Definition gbtRejectionStrings : list string :=
  ["duplicate"; "bad-blk-mass"; "bad-version"; "time-too-old"; "time-too-new";
   "bad-diffbits"; "high-hash"; "bad-txnmrklroot"; "finality-point-time-too-old";
   "bad-txns-none"; "bad-txns-noinputs"; "bad-txns-mass"; "bad-txns-outputvalue";
   "bad-txns-dupinputs"; "bad-txns-badinput"; "bad-txns-missinginput";
   "bad-txns-unfinalizedtx"; "bad-txns-duplicate"; "bad-txns-overwrite";
   "bad-txns-maturity"; "bad-txns-highspend"; "bad-txns-fees"; "high-sigops";
   "bad-txns-nocoinbase"; "bad-txns-multicoinbase"; "bad-cb-length";
   "bad-script-malformed"; "bad-script-validate"; "parent-blk-not-found";
   "bad-parentblk"; "inconclusive-not-best-parentblk"].

(** The rule-error codes of the enumeration, each with its string. *)
Definition gbtRejectionTable : list (ErrorCode * string) :=
  [(ErrDuplicateBlock, "duplicate"); (ErrBlockMassTooHigh, "bad-blk-mass");
   (ErrBlockVersionTooOld, "bad-version"); (ErrTimeTooOld, "time-too-old");
   (ErrTimeTooNew, "time-too-new"); (ErrDifficultyTooLow, "bad-diffbits");
   (ErrUnexpectedDifficulty, "bad-diffbits"); (ErrHighHash, "high-hash");
   (ErrBadMerkleRoot, "bad-txnmrklroot");
   (ErrFinalityPointTimeTooOld, "finality-point-time-too-old");
   (ErrNoTransactions, "bad-txns-none"); (ErrNoTxInputs, "bad-txns-noinputs");
   (ErrTxMassTooHigh, "bad-txns-mass"); (ErrBadTxOutValue, "bad-txns-outputvalue");
   (ErrDuplicateTxInputs, "bad-txns-dupinputs"); (ErrBadTxInput, "bad-txns-badinput");
   (ErrMissingTxOut, "bad-txns-missinginput"); (ErrUnfinalizedTx, "bad-txns-unfinalizedtx");
   (ErrDuplicateTx, "bad-txns-duplicate"); (ErrOverwriteTx, "bad-txns-overwrite");
   (ErrImmatureSpend, "bad-txns-maturity"); (ErrSpendTooHigh, "bad-txns-highspend");
   (ErrBadFees, "bad-txns-fees"); (ErrTooManySigOps, "high-sigops");
   (ErrFirstTxNotCoinbase, "bad-txns-nocoinbase");
   (ErrMultipleCoinbases, "bad-txns-multicoinbase");
   (ErrBadCoinbasePayloadLen, "bad-cb-length"); (ErrScriptMalformed, "bad-script-malformed");
   (ErrScriptValidation, "bad-script-validate"); (ErrParentBlockUnknown, "parent-blk-not-found");
   (ErrInvalidAncestorBlock, "bad-parentblk");
   (ErrParentBlockNotCurrentTips, "inconclusive-not-best-parentblk")].

(** [s] begins with [p]. *)
Definition HasPrefix (s p : string) : Prop := exists r, s = p +:+ r.

(** [err] is a rule error of the code [code] and the description [d]: a
    blockdag.RuleError, or an error that wraps one with a message. *)
Inductive isRuleError : error -> ErrorCode -> string -> Prop :=
| isRuleError_here code d : isRuleError (RuleError code d) code d
| isRuleError_wrapped msg cause code d :
    isRuleError cause code d -> isRuleError (withMessage msg cause) code d.

(** [err] is not a rule error: a plain error, or an error that wraps one
    with a message. *)
Inductive notRuleError : error -> Prop :=
| notRuleError_plain text : notRuleError (errorString text)
| notRuleError_wrapped msg cause :
    notRuleError cause -> notRuleError (withMessage msg cause).

(** ** A small network to run the handler on *)

Module Sample.
(** Hashes written as their strings; a string of at most 64 hexadecimal
    digits parses to the hash it is the short form of. *)
Definition isHex (s : string) : bool :=
  forallb (fun c => bool_decide (is_Some (fromHexChar c))) (list_ascii_of_string s).

Definition parseHash (s : string) : error + string :=
  if (String.length s <=? 64)%nat && isHex s
  then inr (zeros (64 - String.length s) +:+ s)
  else inl (errorString "max hash string length is 64 bytes").

#[export] Instance hashes : DagHash :=
  {| Hash := string; HashString := fun h => h; NewHashFromStr := parseHash |}.

(** A transaction given by its id, the ids its inputs spend, and its
    serialized bytes. *)
Record tx : Type := { txid : string; spends : list string; raw : list Byte.byte }.

Definition txIn (prev : string) : TxIn :=
  {| PreviousOutpoint := {| OutpointTxID := prev; OutpointIndex := 0 |} |}.

#[export] Instance wire : Wire :=
  {| MsgTx := tx; TxID := txid; MsgTx_TxIn := fun t => map txIn (spends t);
     Serialize := fun t => inr (raw t);
     Address := string; AddressString := fun a => a |}.

Definition hashA : string := "00000000000000000000000000000000000000000000000000000000000000aa".
Definition hashB : string := "00000000000000000000000000000000000000000000000000000000000000bb".
Definition addr : string := "kaspa:qqtesttesttest".

Definition coinbase : tx := {| txid := "c0"; spends := []; raw := [x00] |}.
Definition tx1 : tx := {| txid := "a1"; spends := ["f0"]; raw := [x01] |}.
Definition tx2 : tx := {| txid := "a2"; spends := ["f1"]; raw := [x02] |}.
Definition tx3 : tx := {| txid := "a3"; spends := ["a1"; "a2"; "a1"]; raw := [x03] |}.

Definition header (tips : list string) (ts : Time) : BlockHeader :=
  {| Version := 1; ParentHashes := tips; HashMerkleRoot := hashA;
     AcceptedIDMerkleRoot := hashA; UTXOCommitment := hashA;
     Timestamp := ts; Bits := 0x207fffff; Nonce := 7 |}.

Definition block (tips : list string) (ts : Time) (txs : list tx) : MsgBlock :=
  {| Header := header tips ts; Transactions := txs |}.

Definition blockTemplate (tips : list string) (ts : Time) (txs : list tx) : BlockTemplate :=
  {| Block := block tips ts txs;
     TxMasses := map (fun _ => 100) txs; Fees := map (fun _ => 1) txs;
     Height := 10 |}.

(** 2020-09-13 12:26:40 UTC, in milliseconds. *)
Definition t0 : Time := 1600000000000.

(** A node with one peer whose DAG has the tip [hashA], whose mempool was
    last updated at [mempool], whose clock reads [now] and whose range
    statements visit the entries in the order [order]. *)
Definition node (mempool now : Time) (order : forall A : Type, list A -> list A)
    (check : option error) : Env :=
  {| RegressionTest := false; Simnet := false; ConnectedCount := 1;
     DecodeAddress := fun s => inr s;
     LastUpdated := mempool;
     NewBlockTemplate := fun _ _ => inr (blockTemplate [hashA] now [coinbase; tx1; tx2; tx3]);
     UpdateBlockTime := fun b => block (ParentHashes (Header b)) now (Transactions b);
     TipHashes := [hashA];
     NextBlockMinimumTime := now - 1000;
     Now := now;
     TimestampDeviationTolerance := 132000;
     CheckConnectBlockTemplate := fun _ => check;
     IsSynced := true;
     random_Uint64 := inr 42;
     Deserialize := fun bs =>
       match bs with
       | [] => inl (errorString "unexpected EOF")
       | b :: _ => inr (block [if Byte.eqb b x00 then hashA else hashB] now [coinbase])
       end;
     CompactToBig := fun _ => 2 ^ 255 - 1;
     MaxMassPerBlock := 10000000;
     TimeString := fun t => fmt_d t;
     fmt_q := fun s => String "034" (s +:+ String "034" "");
     clock := fun _ => now;
     rangeOrder := fun _ => order |}.

Definition inOrder : forall A : Type, list A -> list A := fun _ l => l.
Definition reversed : forall A : Type, list A -> list A := fun _ l => rev l.

(** The work state after a template was committed at [generated] for the
    mempool state of [txUpdate]. *)
Definition committed (txUpdate generated : Time) (txs : list tx)
    (notify : gmap string (gmap Z chan)) : gbtWorkState :=
  {| lastTxUpdate := txUpdate; lastGenerated := generated;
     tipHashes := Some [hashA]; minTimestamp := generated - 1000;
     template := Some (blockTemplate [hashA] generated txs);
     notifyMap := notify; payAddress := Some addr |}.

Definition machine (st : gbtWorkState) (next : chan) : Machine :=
  {| state := st; closed := ∅; nextChan := next; clockTicks := 0; rangeTicks := 0 |}.

(** A cached template with the coinbase and one transaction, generated
    at [t0]. *)
Definition cached : Machine := machine (committed t0 t0 [coinbase; tx1] ∅) 1%positive.

(** The same with the transactions [tx1], [tx2] and [tx3], which spends
    the two others. *)
Definition cached4 : Machine := machine (committed t0 t0 [coinbase; tx1; tx2; tx3] ∅) 1%positive.

(** One second after [t0]. *)
Definition soon : Env := node t0 (t0 + 1000) inOrder None.

(** Exactly sixty seconds after [t0], the mempool updated in between. *)
Definition at60s : Env := node (t0 + 5) (t0 + 60 * 1000) inOrder None.

(** A registry with two signals under the fingerprint of [hashA], of
    the seconds 1599999000 and 1600000000, and one under the
    fingerprint of [hashB]. *)
Definition registry : gmap string (gmap Z chan) :=
  <[hashA := <[1599999000 := 1%positive]> {[1600000000 := 2%positive]}]>
    {[hashB := {[1599999000 := 3%positive]}]}.

Definition waiting : Machine := machine (committed t0 t0 [coinbase; tx1] registry) 4%positive.

(** A proposal of the block of one byte 00, whose parent is the tip. *)
Definition proposal (data : string) : TemplateRequest :=
  {| Mode := "proposal"; LongPollID := ""; PayAddress := ""; Data := data |}.

Definition highHash : Env :=
  node t0 (t0 + 1000) inOrder (Some (RuleError ErrHighHash "block hash is too high")).

(** The ID the server minted for the cached template. *)
Definition mintedID : string := encodeLongPollID [hashA] (Some addr) t0.

(** The new machine after a subscription. *)
Definition subscribed : Machine := (templateUpdateChan [hashA] 1600000000 newMachine).1.

(** The fields Depends of a reply, in the order of its transactions. *)
Definition dependsOf (out : Machine * result GetBlockTemplateResult)
    : option (list (list Z)) :=
  match out.2 with
  | Ok r => Some (map Depends (ResultTransactions r))
  | _ => None
  end.

(** A call returned a value. *)
Definition isOk {A} (out : Machine * result A) : bool :=
  match out.2 with
  | Ok _ => true
  | _ => false
  end.

(** An ID of the layout the decoder documents: the string of [hashA] and
    the seconds of [t0]. *)
Definition legacyID : string := hashA +:+ "-1600000000".

(** The text of HashSize characters that parses to [hashA], and the ID
    of two fields that names [hashA] and the seconds of [t0]. *)
Definition shortA : string := zeros 30 +:+ "aa".
Definition currentID : string := shortA +:+ "-1600000000".

(** A node whose adjusted time is long before [t0]. *)
Definition late : Env := node t0 (t0 - 200000) inOrder None.

(** Sixty-one seconds after [t0], the mempool updated in between. *)
Definition later : Env := node (t0 + 5) (t0 + 61 * 1000) inOrder None.

(** The node [e] with another generator of templates. *)
Definition withGenerator (generator : string -> Z -> error + BlockTemplate) (e : Env) : Env :=
  {| RegressionTest := RegressionTest e; Simnet := Simnet e;
     ConnectedCount := ConnectedCount e; DecodeAddress := DecodeAddress e;
     LastUpdated := LastUpdated e; NewBlockTemplate := generator;
     UpdateBlockTime := UpdateBlockTime e; TipHashes := TipHashes e;
     NextBlockMinimumTime := NextBlockMinimumTime e; Now := Now e;
     TimestampDeviationTolerance := TimestampDeviationTolerance e;
     CheckConnectBlockTemplate := CheckConnectBlockTemplate e;
     IsSynced := IsSynced e; random_Uint64 := random_Uint64 e;
     Deserialize := Deserialize e; CompactToBig := CompactToBig e;
     MaxMassPerBlock := MaxMassPerBlock e; TimeString := TimeString e;
     fmt_q := fmt_q e; clock := clock e; rangeOrder := rangeOrder e |}.

(** A node whose generator fails. *)
Definition broken : Env :=
  withGenerator (fun _ _ => inl (errorString "no coinbase address")) soon.

(** The cached template after a refresh. *)
Definition refreshed : Machine := (updateBlockTemplate soon addr cached).1.

(** A call returned an error. *)
Definition failed {A} (out : Machine * result A) : bool :=
  match out.2 with
  | Fail _ => true
  | _ => false
  end.

(** The node [e] with [peers] peers and the decoder of addresses
    [decode]. *)
Definition withPeers (peers : Z) (decode : string -> error + string) (e : Env) : Env :=
  {| RegressionTest := RegressionTest e; Simnet := Simnet e;
     ConnectedCount := peers; DecodeAddress := decode;
     LastUpdated := LastUpdated e; NewBlockTemplate := NewBlockTemplate e;
     UpdateBlockTime := UpdateBlockTime e; TipHashes := TipHashes e;
     NextBlockMinimumTime := NextBlockMinimumTime e; Now := Now e;
     TimestampDeviationTolerance := TimestampDeviationTolerance e;
     CheckConnectBlockTemplate := CheckConnectBlockTemplate e;
     IsSynced := IsSynced e; random_Uint64 := random_Uint64 e;
     Deserialize := Deserialize e; CompactToBig := CompactToBig e;
     MaxMassPerBlock := MaxMassPerBlock e; TimeString := TimeString e;
     fmt_q := fmt_q e; clock := clock e; rangeOrder := rangeOrder e |}.

(** A node without a peer, and a node that decodes no address. *)
Definition offline : Env := withPeers 0 (DecodeAddress soon) soon.
Definition strict : Env :=
  withPeers 1 (fun _ => inl (errorString "decoded address is of unknown format")) soon.

(** A request of the mode [mode] for the pay address [addr]. *)
Definition request (mode : string) : TemplateRequest :=
  {| Mode := mode; LongPollID := ""; PayAddress := addr; Data := "" |}.
(** The new machine after a template request for [addr]. *)
Definition served : Machine :=
  (handleGetBlockTemplate soon {| Request := Some (request "template") |} newMachine).1.
End Sample.

(** ** The vocabulary of the properties *)

(** The number of bytes of [s] that are [sep]. *)
Fixpoint countByte (s : string) (sep : ascii) : nat :=
  match s with
  | EmptyString => 0
  | String c r => (if Ascii.eqb c sep then 1 else 0) + countByte r sep
  end.

Section Vocabulary.
Context `{Wire}.

(** The entry of index [j] of the reply describes the transaction of
    index [j] of the template: its bytes, its id, its mass and fee, and in
    [Depends], without repetition, indices up to [j] of transactions that
    an input of the transaction spends. *)
Definition describes (t : BlockTemplate) (j : nat) (rtx : GetBlockTemplateResultTx) : Prop :=
  exists tx txBuf,
    Transactions (Block t) !! j = Some tx
    /\ Serialize tx = inr txBuf
    /\ TxData rtx = hex_EncodeToString txBuf
    /\ ID rtx = HashString (TxID tx)
    /\ TxMasses t !! j = Some (Mass rtx)
    /\ Fees t !! j = Some (Fee rtx)
    /\ NoDup (Depends rtx)
    /\ forall d, d ∈ Depends rtx ->
         exists k txk txIn,
           d = Z.of_nat k /\ (k <= j)%nat
           /\ Transactions (Block t) !! k = Some txk
           /\ txIn ∈ MsgTx_TxIn tx
           /\ OutpointTxID (PreviousOutpoint txIn) = TxID txk.

(** txIndex maps an id to the index of a transaction with that id, among
    the first [i] of the template. *)
Definition txIndex_upto (t : BlockTemplate) (i : nat) (txIndex : gmap Hash Z) : Prop :=
  forall id idx, txIndex !! id = Some idx ->
    exists k txk, idx = Z.of_nat k /\ (k < i)%nat
                  /\ Transactions (Block t) !! k = Some txk /\ TxID txk = id.

(** The machine after [n] more readings of the clock. *)
Definition tick (n : nat) (m : Machine) : Machine :=
  {| state := state m; closed := closed m; nextChan := nextChan m;
     clockTicks := n + clockTicks m; rangeTicks := rangeTicks m |}.

(** The condition under which updateBlockTemplate builds a new template,
    for the last update [mempool] of the transaction source (the reading
    of the clock in its place when it is the zero time) and the reading
    [now] of the clock. *)
Definition regenerationDue (st : gbtWorkState) (tips : list Hash) (payAddr : Address)
    (mempool now : Time) : Prop :=
  template st = None
  \/ tipHashes st = None
  \/ tipHashes st <> Some tips
  \/ AddressString <$> payAddress st <> Some (AddressString payAddr)
  \/ (lastTxUpdate st <> mempool
      /\ lastGenerated st + gbtRegenerateSeconds * Second < now).

(** The steps of a template request without a long-poll ID: the
    template is updated and the reply is assembled. *)
Definition currentTemplate (env : Env) (payAddr : Address) : M longPoll :=
  r ← returned (updateBlockTemplate env payAddr;;
                result ← blockTemplateResult env;
                mret (VResult result));
  mret (Replied r).

(** The machine [m] with another notify map, set of closed channels and
    count of range statements. *)
Definition notified (nm : gmap string (gmap Z chan)) (cl : gset chan) (rt : nat)
    (m : Machine) : Machine :=
  {| state := setNotifyMap (fun _ => nm) (state m); closed := cl;
     nextChan := nextChan m; clockTicks := clockTicks m; rangeTicks := rt |}.

(** [c] is registered in [nm] under a fingerprint other than [cur]. *)
Definition staleSignal (nm : gmap string (gmap Z chan)) (cur : string) (c : chan) : Prop :=
  exists fp inner ts, fp <> cur /\ nm !! fp = Some inner /\ inner !! ts = Some c.

(** [c] is registered in [nm] under [cur] with a timestamp before [sec]. *)
Definition oldSignal (nm : gmap string (gmap Z chan)) (cur : string) (sec : Z)
    (c : chan) : Prop :=
  exists inner ts, nm !! cur = Some inner /\ inner !! ts = Some c /\ ts < sec.

(** No channel of the notify map is closed, and no channel is registered
    twice: templateUpdateChan makes a channel for every key it adds. *)
Definition signalsOpen (m : Machine) : Prop :=
  forall fp inner ts c,
    notifyMap (state m) !! fp = Some inner -> inner !! ts = Some c -> c ∉ closed m.

Definition signalsDistinct (nm : gmap string (gmap Z chan)) : Prop :=
  forall fp1 inner1 ts1 fp2 inner2 ts2 c,
    nm !! fp1 = Some inner1 -> inner1 !! ts1 = Some c ->
    nm !! fp2 = Some inner2 -> inner2 !! ts2 = Some c ->
    fp1 = fp2 /\ ts1 = ts2.

(** The signals of the notify map are well formed: they are open and
    distinct, and they and the closed channels are below the next channel
    that make will allocate. *)
Definition signalsWf (m : Machine) : Prop :=
  signalsOpen m
  /\ signalsDistinct (notifyMap (state m))
  /\ (forall fp inner ts c,
         notifyMap (state m) !! fp = Some inner -> inner !! ts = Some c ->
         (c < nextChan m)%positive)
  /\ (forall c, c ∈ closed m -> (c < nextChan m)%positive).

(** The invariant of the notify map: no fingerprint has an empty set of
    signals. *)
Definition noEmptyEntry (nm : gmap string (gmap Z chan)) : Prop :=
  forall fp inner, nm !! fp = Some inner -> inner <> ∅.

(** The channels the first loop of notifyLongPollers closes, and the
    notify map it leaves, for the entries [l] it visits. *)
Definition staleChans (cur : string) (l : list (string * gmap Z chan)) : list chan :=
  flat_map (fun e => if decide (e.1 = cur) then [] else (map_to_list e.2).*2) l.

Definition dropStale (cur : string) (l : list (string * gmap Z chan))
    (nm : gmap string (gmap Z chan)) : gmap string (gmap Z chan) :=
  foldl (fun acc e => if decide (e.1 = cur) then acc else delete e.1 acc) nm l.

(** The channels the second loop of notifyLongPollers closes, and the
    inner map it leaves, for the entries [cs] it visits. *)
Definition oldChans (sec : Z) (cs : list (Z * chan)) : list chan :=
  (filter (fun e => e.1 < sec) cs).*2.

Definition dropOld (sec : Z) (cs : list (Z * chan)) (inner : gmap Z chan) : gmap Z chan :=
  foldl (fun acc e => if decide (e.1 < sec) then delete e.1 acc else acc) inner cs.

(** [c] started where [P] holds ends where [Q] holds when it returns a
    value and where [E] holds when it returns an error. *)
Definition hoare {A} (P : Machine -> Prop) (c : M A) (Q E : Machine -> Prop) : Prop :=
  forall m, P m ->
    match c m with
    | (m', Ok _) => Q m'
    | (m', Fail _) => E m'
    | (_, Panic _) => True
    end.

(** [c] keeps [Inv], whether it returns a value or an error. *)
Definition keeps {A} (Inv : Machine -> Prop) (c : M A) : Prop := hoare Inv c Inv Inv.

(** [P] looks at the notify map only; [P] looks at the notify map, the
    closed channels and the next channel only. *)
Definition onNotifyMap (P : Machine -> Prop) : Prop :=
  forall m m', notifyMap (state m') = notifyMap (state m) -> P m -> P m'.

Definition onRegistry (P : Machine -> Prop) : Prop :=
  forall m m', notifyMap (state m') = notifyMap (state m) ->
               closed m' = closed m -> nextChan m' = nextChan m -> P m -> P m'.

Definition registryInv (m : Machine) : Prop := noEmptyEntry (notifyMap (state m)).

(** The invariant but for the entry of [cur], which the second loop of
    notifyLongPollers may leave empty until the test that follows it. *)
Definition registryInvBut (cur : string) (m : Machine) : Prop :=
  forall fp inner, fp <> cur -> notifyMap (state m) !! fp = Some inner -> inner <> ∅.

(** The calls that change the machine: a request, the end of the wait of
    a long poll, the two notifications, and the two operations of the
    registry. *)
Inductive call : Type :=
| callRequest (cmd : GetBlockTemplateCmd)
| callWake (payAddr : Address) (w : wakeup)
| callBlockAdded (tips : list Hash)
| callMempoolTx (lastUpdated : Time)
| callSubscribe (tips : list Hash) (lastGenerated : Z)
| callNotify (tips : list Hash) (lastUpdate : Time).

(** The machine a call leaves when it returns; there is none when it
    panics. *)
Definition outcome {A} (r : Machine * result A) : option Machine :=
  match r with
  | (_, Panic _) => None
  | (m', _) => Some m'
  end.

Definition steps (env : Env) (c : call) (m : Machine) : option Machine :=
  match c with
  | callRequest cmd => outcome (handleGetBlockTemplate env cmd m)
  | callWake payAddr w => outcome (handleGetBlockTemplateLongPoll_wake env payAddr w m)
  | callBlockAdded tips => outcome (NotifyBlockAdded env tips m)
  | callMempoolTx lastUpdated => outcome (NotifyMempoolTx env lastUpdated m)
  | callSubscribe tips lastGenerated => outcome (templateUpdateChan tips lastGenerated m)
  | callNotify tips lastUpdate => outcome (notifyLongPollers env tips lastUpdate m)
  end.

(** The machines the server goes through, from the new one, whatever the
    rest of the server does at each call and in whatever order the runtime
    ranges over the maps. *)
Inductive reachable : Machine -> Prop :=
| reachable_new : reachable newMachine
| reachable_step env c m m' :
    rangeOrder_ok env -> reachable m -> steps env c m = Some m' -> reachable m'.

(** No input of a transaction spends an output of the transaction
    itself: the id of a transaction is a hash of its inputs too. *)
Definition noSelfSpend (txs : list MsgTx) : Prop :=
  forall tx txIn, tx ∈ txs -> txIn ∈ MsgTx_TxIn tx ->
    OutpointTxID (PreviousOutpoint txIn) <> TxID tx.

(** Two machines with the same work state, closed channels, next channel
    and clock: they differ in the count of range statements only. *)
Definition sameButRange (m m' : Machine) : Prop :=
  state m' = state m /\ closed m' = closed m /\ nextChan m' = nextChan m
  /\ clockTicks m' = clockTicks m.

(** The template has what blockTemplateResult reads for every one of its
    transactions: a mass, a fee and a serialization. *)
Definition templateComplete (t : BlockTemplate) : Prop :=
  forall j tx, Transactions (Block t) !! j = Some tx ->
    is_Some (TxMasses t !! j) /\ is_Some (Fees t !! j)
    /\ exists txBuf, Serialize tx = inr txBuf.

(** txIndex maps an id to the index of the transaction with that id,
    among the first [i] of the template, and maps no other id. *)
Definition txIndex_exact (t : BlockTemplate) (i : nat) (txIndex : gmap Hash Z) : Prop :=
  forall id idx, txIndex !! id = Some idx <->
    exists k txk, idx = Z.of_nat k /\ (k < i)%nat
                  /\ Transactions (Block t) !! k = Some txk /\ TxID txk = id.

(** [Depends] lists exactly the indices up to [j] of the transactions
    that an input of the transaction of index [j] spends. *)
Definition dependsExact (t : BlockTemplate) (j : nat) (rtx : GetBlockTemplateResultTx) : Prop :=
  forall d, d ∈ Depends rtx <->
    exists k txk tx txIn,
      d = Z.of_nat k /\ (k <= j)%nat
      /\ Transactions (Block t) !! k = Some txk
      /\ Transactions (Block t) !! j = Some tx
      /\ txIn ∈ MsgTx_TxIn tx
      /\ OutpointTxID (PreviousOutpoint txIn) = TxID txk.

(** [c] is registered in [nm]. *)
Definition registered (nm : gmap string (gmap Z chan)) (c : chan) : Prop :=
  exists fp inner ts, nm !! fp = Some inner /\ inner !! ts = Some c.

(** The notify map notifyLongPollers leaves for the fingerprint [cur] of
    the tips and the time [t] of the last update: the signals under other
    fingerprints are gone and, unless [t] is the zero time, so are the
    signals under [cur] of a second before the second of [t]. *)
Definition pollersLeft (cur : string) (t : Time) (nm : gmap string (gmap Z chan))
    : gmap string (gmap Z chan) :=
  match nm !! cur with
  | None => ∅
  | Some inner =>
      if IsZero t then {[cur := inner]}
      else
        let kept := filter (fun e => UnixSeconds t <= e.1) inner in
        if decide (kept = ∅) then ∅ else {[cur := kept]}
  end.

(** The signals notifyLongPollers fires. *)
Definition fired (nm : gmap string (gmap Z chan)) (cur : string) (t : Time) (c : chan)
    : Prop :=
  staleSignal nm cur c \/ (IsZero t = false /\ oldSignal nm cur (UnixSeconds t) c).

(** Every channel that make has allocated is still registered, or has
    been closed: no signal is dropped without being fired. *)
Definition noLostSignal (m : Machine) : Prop :=
  forall c, (c < nextChan m)%positive ->
    c ∈ closed m \/ registered (notifyMap (state m)) c.

(** The signals are well formed and none was lost. *)
Definition signalsInv (m : Machine) : Prop := signalsWf m /\ noLostSignal m.

(** The channel registered in [nm] under the fingerprint [fp] and the
    second [ts]. *)
Definition signalAt (nm : gmap string (gmap Z chan)) (fp : string) (ts : Z) : option chan :=
  nm !! fp ≫= fun inner => inner !! ts.

(** The work state without its notify map: the template cache. *)
Definition cacheOf (st : gbtWorkState) : gbtWorkState := setNotifyMap (fun _ => ∅) st.

(** [P] looks at the template cache only. *)
Definition onCache (P : Machine -> Prop) : Prop :=
  forall m m', cacheOf (state m') = cacheOf (state m) -> P m -> P m'.

(** The cache is well formed: a state that has tips has a template, and
    a state that has a template has a pay address. *)
Definition cacheWf (st : gbtWorkState) : Prop :=
  (tipHashes st <> None -> template st <> None)
  /\ (template st <> None -> payAddress st <> None).

(** [P] does not look at the counts of clock readings and of range
    statements. *)
Definition onMemory (P : Machine -> Prop) : Prop :=
  forall m m', state m' = state m -> closed m' = closed m -> nextChan m' = nextChan m ->
               P m -> P m'.

(** The invariant of the reachable machines: the signals are well formed,
    none was lost, and the cache is well formed. *)
Definition machineWf (m : Machine) : Prop := signalsInv m /\ cacheWf (state m).

(** The request with other data. *)
Definition withData (data : string) (request : TemplateRequest) : TemplateRequest :=
  {| Mode := Mode request; LongPollID := LongPollID request;
     PayAddress := PayAddress request; Data := data |}.

(** The reply of a handler for what blockTemplateResult returned. *)
Definition repliedWith (out : Machine * result GetBlockTemplateResult)
    : Machine * result longPoll :=
  match out with
  | (m, Ok r) => (m, Ok (Replied (VResult r, None)))
  | (m, Fail e) => (m, Ok (Replied (VNil, Some e)))
  | (m, Panic msg) => (m, Panic msg)
  end.
End Vocabulary.

(** * Properties *)

(** ** The long-poll ID *)

Section SplitFacts.
Variable sep : ascii.

Lemma strings_Split_nonempty s : strings_Split s sep <> [].
Proof.
  induction s as [|c r IH]; simpl; [discriminate|].
  destruct (Ascii.eqb c sep); [discriminate|].
  destruct (strings_Split r sep); discriminate.
Qed.

Lemma strings_Split_length_cons c r :
  Ascii.eqb c sep = false ->
  length (strings_Split (String c r) sep) = length (strings_Split r sep).
Proof.
  intros Hc. simpl. rewrite Hc.
  pose proof (strings_Split_nonempty r) as Hne.
  destruct (strings_Split r sep); [contradiction | reflexivity].
Qed.

(** One more separator, one more field. *)
Lemma strings_Split_length_app a b :
  length (strings_Split (a +:+ String sep b) sep)
  = (length (strings_Split a sep) + length (strings_Split b sep))%nat.
Proof.
  induction a as [|c r IH].
  - simpl. rewrite Ascii.eqb_refl. reflexivity.
  - destruct (Ascii.eqb c sep) eqn:Hc.
    + simpl. rewrite Hc. simpl. rewrite IH. reflexivity.
    + change (String c r +:+ String sep b) with (String c (r +:+ String sep b)).
      rewrite !strings_Split_length_cons by exact Hc. exact IH.
Qed.

Lemma strings_Split_length_pos s : (1 <= length (strings_Split s sep))%nat.
Proof.
  pose proof (strings_Split_nonempty s).
  destruct (strings_Split s sep); [contradiction | simpl; lia].
Qed.
End SplitFacts.

Section Codec.
Context `{Wire}.

(** The fuel decodeLongPollID gives to the loop over the hashes is enough:
    more fuel changes nothing. *)
Lemma decodeParentHashes_fuel (s : string) : forall fuel fuel' i acc,
  (String.length s - i <= fuel)%nat -> (String.length s - i <= fuel')%nat ->
  decodeParentHashes fuel s i acc = decodeParentHashes fuel' s i acc.
Proof.
  induction fuel as [|fuel IH]; intros [|fuel'] i acc Hfuel Hfuel'; simpl;
    try reflexivity.
  - rewrite (proj2 (Nat.ltb_ge i (String.length s))) by lia. reflexivity.
  - rewrite (proj2 (Nat.ltb_ge i (String.length s))) by lia. reflexivity.
  - destruct (Nat.ltb_spec i (String.length s)) as [Hlt|Hge]; [|reflexivity].
    destruct (NewHashFromStr _) as [err|hash]; [reflexivity|].
    apply IH; unfold HashSize; lia.
Qed.

(** An ID that encodeLongPollID minted has three fields or more. *)
Lemma encodeLongPollID_fields (h : list Hash) (a : option Address) (t : Time) :
  (3 <= length (strings_Split (encodeLongPollID h a t) "-"))%nat.
Proof.
  unfold encodeLongPollID.
  do 2 (change ("-" +:+ ?x) with (String "-" x); rewrite strings_Split_length_app).
  pose proof (strings_Split_length_pos "-" (JoinHashesStrings h "")).
  pose proof (strings_Split_length_pos "-" (fmt_s_Address a)).
  pose proof (strings_Split_length_pos "-" (fmt_d (UnixSeconds t))).
  lia.
Qed.

(** C1, on the code: decodeLongPollID accepts IDs of two fields only, and
    encodeLongPollID writes three (the hashes, the pay address, the
    seconds), so the decoder rejects every ID the encoder mints, whatever
    the tip hashes, the address and the time of generation. *)
Theorem decodeLongPollID_rejects_encodeLongPollID
    (h : list Hash) (a : option Address) (t : Time) :
  decodeLongPollID (encodeLongPollID h a t)
  = inl (errorString "decodeLongPollID: invalid number of fields").
Proof.
  pose proof (encodeLongPollID_fields h a t) as Hlen.
  unfold decodeLongPollID.
  destruct (strings_Split (encodeLongPollID h a t) "-") as [|f1 [|f2 [|f3 fs]]];
    simpl in Hlen; try lia; reflexivity.
Qed.
End Codec.

(** ** The rejection strings *)

Section Rejection.
Lemma gbtRejectionTable_strings s :
  In s (map snd gbtRejectionTable) <-> In s gbtRejectionStrings.
Proof.
  unfold gbtRejectionTable, gbtRejectionStrings. simpl.
  split; intros Hs; repeat (destruct Hs as [<-|Hs]; [tauto|]); destruct Hs.
Qed.

Lemma gbtRejectionTable_named code :
  (exists s, In (code, s) gbtRejectionTable) \/ (exists n, code = ErrCodeOther n).
Proof.
  destruct code; try (left; eexists; unfold gbtRejectionTable; simpl; tauto).
  right; eauto.
Qed.

Lemma dagErrToGBTErrString_table err code d s :
  errors_As_RuleError err = Some (code, d) ->
  In (code, s) gbtRejectionTable ->
  dagErrToGBTErrString err = s.
Proof.
  intros Has Hin. unfold dagErrToGBTErrString. rewrite Has.
  unfold gbtRejectionTable in Hin. simpl in Hin.
  repeat (destruct Hin as [[= <- <-]|Hin]; [reflexivity|]). destruct Hin.
Qed.

Lemma dagErrToGBTErrString_other err :
  (errors_As_RuleError err = None
   \/ exists code d, errors_As_RuleError err = Some (code, d)
                     /\ forall s, ~ In (code, s) gbtRejectionTable) ->
  dagErrToGBTErrString err = "rejected: " +:+ Error err.
Proof.
  intros [Hnone | (code & d & Has & Hnot)]; unfold dagErrToGBTErrString.
  - rewrite Hnone. reflexivity.
  - rewrite Has.
    destruct (gbtRejectionTable_named code) as [[s Hs] | [n ->]];
      [exfalso; exact (Hnot s Hs) | reflexivity].
Qed.

Lemma isRuleError_As err code d :
  isRuleError err code d <-> errors_As_RuleError err = Some (code, d).
Proof.
  split.
  - induction 1 as [code d|msg cause code d _ IH]; [reflexivity | exact IH].
  - induction err as [code' d'|text|msg cause IH]; simpl.
    + intros [= <- <-]. constructor.
    + discriminate.
    + intros Has. constructor. exact (IH Has).
Qed.

Lemma notRuleError_As err :
  notRuleError err <-> errors_As_RuleError err = None.
Proof.
  split.
  - induction 1 as [text|msg cause _ IH]; [reflexivity | exact IH].
  - induction err as [code d|text|msg cause IH]; simpl.
    + discriminate.
    + intros _. constructor.
    + intros Has. constructor. exact (IH Has).
Qed.

(** C7: dagErrToGBTErrString returns a string for every error.  For a
    rule error (a blockdag.RuleError, or an error that wraps one) whose
    code is a code of the table, the string is the one the table
    associates with the code, and it belongs to the closed set of fixed
    strings; for a rule error whose code is not in the table, and for an
    error that is not a rule error, the string is "rejected: " followed
    by the text of the error.  Every error is of one of these kinds, and
    every code is a code of the table or one of the other codes. *)
Theorem dagErrToGBTErrString_total (err : error) :
  (forall code d s,
      isRuleError err code d ->
      In (code, s) gbtRejectionTable ->
      dagErrToGBTErrString err = s /\ In s gbtRejectionStrings)
  /\ (forall code d,
        isRuleError err code d ->
        (forall s, ~ In (code, s) gbtRejectionTable) ->
        dagErrToGBTErrString err = "rejected: " +:+ Error err
        /\ HasPrefix (dagErrToGBTErrString err) "rejected: ")
  /\ (notRuleError err ->
      dagErrToGBTErrString err = "rejected: " +:+ Error err
      /\ HasPrefix (dagErrToGBTErrString err) "rejected: ")
  /\ ((exists code d, isRuleError err code d) \/ notRuleError err)
  /\ (forall code, (exists s, In (code, s) gbtRejectionTable)
                   \/ exists n, code = ErrCodeOther n)
  /\ (In (dagErrToGBTErrString err) gbtRejectionStrings
      \/ dagErrToGBTErrString err = "rejected: " +:+ Error err).
Proof.
  split; [|split; [|split; [|split; [|split]]]].
  - intros code d s Hrule%isRuleError_As Hin. split.
    + eapply dagErrToGBTErrString_table; eassumption.
    + apply gbtRejectionTable_strings, in_map_iff. exists (code, s). auto.
  - intros code d Hrule%isRuleError_As Hnot.
    rewrite (dagErrToGBTErrString_other err) by (right; exists code, d; auto).
    split; [reflexivity | exists (Error err); reflexivity].
  - intros Hplain%notRuleError_As.
    rewrite (dagErrToGBTErrString_other err) by (left; exact Hplain).
    split; [reflexivity | exists (Error err); reflexivity].
  - destruct (errors_As_RuleError err) as [[code d]|] eqn:Has.
    + left. exists code, d. apply isRuleError_As. exact Has.
    + right. apply notRuleError_As. exact Has.
  - exact gbtRejectionTable_named.
  - destruct (errors_As_RuleError err) as [[code d]|] eqn:Has.
    + destruct (gbtRejectionTable_named code) as [[s Hs] | [n ->]].
      * left. rewrite (dagErrToGBTErrString_table err code d s Has Hs).
        apply gbtRejectionTable_strings, in_map_iff. exists (code, s). auto.
      * right. unfold dagErrToGBTErrString. rewrite Has. reflexivity.
    + right. apply dagErrToGBTErrString_other. auto.
Qed.
End Rejection.

(** ** Proposals *)

Section Proposal.
Context `{Wire}.
Variable env : Env.

Lemma handleGetBlockTemplate_proposal request m :
  Mode request = "proposal" ->
  handleGetBlockTemplate env {| Request := Some request |} m
  = (m, Ok (Replied (handleGetBlockTemplateProposal env request))).
Proof. intros Hmode. unfold handleGetBlockTemplate. simpl. rewrite Hmode. reflexivity. Qed.


(** C10: a proposal with empty data fails with an RPC error of the kind
    Type, which is not the kind Deserialization of undecodable data; the
    reply is the same whatever the machine, work state included, and the
    machine is left as it was. *)
Theorem proposal_empty_data (request : TemplateRequest) :
  Mode request = "proposal" ->
  Data request = "" ->
  ErrRPCType <> ErrRPCDeserialization
  /\ exists msg, forall m : Machine,
      handleGetBlockTemplate env {| Request := Some request |} m
      = (m, Ok (Replied (VBool false, Some (RPCError ErrRPCType msg)))).
Proof.
  intros Hmode Hdata. split; [discriminate|].
  eexists. intros m. rewrite handleGetBlockTemplate_proposal by exact Hmode.
  unfold handleGetBlockTemplateProposal. rewrite Hdata. reflexivity.
Qed.
End Proposal.

(** ** Running the monad *)

Section Run.
Context `{Wire}.

Lemma run_bind {A B} (c : M A) (k : A -> M B) (m : Machine) :
  (c ≫= k) m = match c m with
               | (m', Ok a) => k a m'
               | (m', Fail err) => (m', Fail err)
               | (m', Panic msg) => (m', Panic msg)
               end.
Proof. reflexivity. Qed.

Lemma run_ret {A} (a : A) (m : Machine) : (mret a : M A) m = (m, Ok a).
Proof. reflexivity. Qed.

Lemma run_bind_Ok {A B} (c : M A) (k : A -> M B) (m m' : Machine) (b : B) :
  (c ≫= k) m = (m', Ok b) ->
  exists a m1, c m = (m1, Ok a) /\ k a m1 = (m', Ok b).
Proof.
  rewrite run_bind. destruct (c m) as [m1 [a|err|msg]]; intros Hrun;
    [eauto | discriminate | discriminate].
Qed.

Lemma run_index_Ok {A} (a : list A) (i : nat) (m m' : Machine) (x : A) :
  index a i m = (m', Ok x) -> m' = m /\ a !! i = Some x.
Proof.
  unfold index. destruct (a !! i); [rewrite run_ret | unfold panic]; intros [= -> ->]; auto.
Qed.
End Run.

(** ** The transactions of the reply *)

Section Assembler.
Context `{Wire}.
Variable env : Env.

Lemma txIndex_upto_insert t i txIndex tx :
  txIndex_upto t i txIndex ->
  Transactions (Block t) !! i = Some tx ->
  txIndex_upto t (S i) (<[TxID tx := Z.of_nat i]> txIndex).
Proof.
  intros Hidx Htx id idx Hlook.
  destruct (decide (TxID tx = id)) as [<-|Hne].
  - rewrite lookup_insert_eq in Hlook. injection Hlook as <-.
    exists i, tx. repeat split; auto.
  - rewrite lookup_insert_ne in Hlook by exact Hne.
    destruct (Hidx id idx Hlook) as (k & txk & -> & Hk & Hat & Hid).
    exists k, txk. repeat split; auto.
Qed.

(** The indices dependsMapOf collects are those txIndex gives for the
    inputs. *)
Lemma dependsMapOf_elem txIndex txIns d :
  d ∈ dependsMapOf txIndex txIns <->
  exists txIn, txIn ∈ txIns /\ txIndex !! OutpointTxID (PreviousOutpoint txIn) = Some d.
Proof.
  unfold dependsMapOf.
  assert (Hgen : forall acc : gset Z,
    d ∈ foldl (fun dependsMap txIn =>
                 match txIndex !! OutpointTxID (PreviousOutpoint txIn) with
                 | Some idx => {[idx]} ∪ dependsMap
                 | None => dependsMap
                 end) acc txIns
    <-> d ∈ acc \/ exists txIn, txIn ∈ txIns
                    /\ txIndex !! OutpointTxID (PreviousOutpoint txIn) = Some d).
  { induction txIns as [|txIn rest IH]; intros acc; simpl.
    - split; [auto | intros [?|(x & Hx & _)]; [auto | inversion Hx]].
    - rewrite IH. split.
      + intros [Hacc | (x & Hx & Hl)].
        * destruct (txIndex !! OutpointTxID (PreviousOutpoint txIn)) as [idx|] eqn:Hidx.
          -- apply elem_of_union in Hacc as [Hd%elem_of_singleton | Hacc]; [|auto].
             subst idx. right. exists txIn. split; [left | exact Hidx].
          -- auto.
        * right. exists x. split; [right; exact Hx | exact Hl].
      + intros [Hacc | (x & Hx & Hl)].
        * left. destruct (txIndex !! OutpointTxID (PreviousOutpoint txIn)); set_solver.
        * apply elem_of_cons in Hx as [-> | Hx].
          -- left. rewrite Hl. set_solver.
          -- right. exists x. auto. }
  rewrite Hgen. set_solver.
Qed.

Hypothesis range_ok : rangeOrder_ok env.

(** The loop keeps [describes] for the entries it has appended. *)
Lemma resultTransactions_describes t txs : forall i txIndex acc m m' out,
  drop i (Transactions (Block t)) = txs ->
  (i <= length (Transactions (Block t)))%nat ->
  length acc = i ->
  txIndex_upto t i txIndex ->
  (forall j rtx, acc !! j = Some rtx -> describes t j rtx) ->
  resultTransactions env t txs i txIndex acc m = (m', Ok out) ->
  state m' = state m
  /\ length out = length (Transactions (Block t))
  /\ forall j rtx, out !! j = Some rtx -> describes t j rtx.
Proof.
  induction txs as [|tx rest IH];
    intros i txIndex acc m m' out Hdrop Hle Hlen Hidx Hacc Hrun.
  - simpl in Hrun. rewrite run_ret in Hrun. injection Hrun as <- <-.
    split; [reflexivity|]. split; [|exact Hacc].
    apply (f_equal length) in Hdrop. rewrite length_drop in Hdrop. simpl in Hdrop. lia.
  - simpl in Hrun.
    apply run_bind_Ok in Hrun as (depends & m1 & Hrange & Hrun).
    unfold range in Hrange. injection Hrange as <- <-.
    destruct (Serialize tx) as [err|txBuf] eqn:Hser; [discriminate|].
    apply run_bind_Ok in Hrun as (mass & m2 & Hmass & Hrun).
    apply run_index_Ok in Hmass as [-> Hmass].
    apply run_bind_Ok in Hrun as (fee & m3 & Hfee & Hrun).
    apply run_index_Ok in Hfee as [-> Hfee].
    assert (Htx : Transactions (Block t) !! i = Some tx).
    { rewrite <- (Nat.add_0_r i), <- lookup_drop, Hdrop. reflexivity. }
    assert (Hnext : txIndex_upto t (S i) (<[TxID tx := Z.of_nat i]> txIndex))
      by (apply txIndex_upto_insert; assumption).
    apply IH in Hrun.
    + destruct Hrun as (Hst & Hout & Hall). split; [exact Hst | auto].
    + rewrite (drop_S _ _ _ Htx) in Hdrop. congruence.
    + apply lookup_lt_Some in Htx. lia.
    + rewrite length_app. simpl. lia.
    + exact Hnext.
    + intros j rtx Hj.
      destruct (decide (j < length acc)%nat) as [Hlt|Hge].
      { rewrite lookup_app_l in Hj by exact Hlt. auto. }
      rewrite lookup_app_r in Hj by lia.
      destruct (j - length acc)%nat as [|n] eqn:Hjn; [|destruct n; discriminate].
      assert (j = i) as -> by lia.
      injection Hj as <-. exists tx, txBuf. simpl.
      pose proof (range_ok (rangeTicks m) Z
                    (elements (dependsMapOf (<[TxID tx := Z.of_nat i]> txIndex)
                                            (MsgTx_TxIn tx)))) as Hperm.
      repeat split; try assumption.
      * rewrite Hperm. apply NoDup_elements.
      * intros d Hd. rewrite Hperm in Hd.
        apply elem_of_elements, dependsMapOf_elem in Hd as (txIn & Hin & Hlook).
        destruct (Hnext _ _ Hlook) as (k & txk & -> & Hk & Hat & Hid).
        exists k, txk, txIn. repeat split; auto. lia.
Qed.

(** What a successful blockTemplateResult says of its transactions. *)
Lemma blockTemplateResult_describes m m' r :
  blockTemplateResult env m = (m', Ok r) ->
  exists t, template (state m) = Some t
    /\ length (ResultTransactions r) = length (Transactions (Block t))
    /\ forall j rtx, ResultTransactions r !! j = Some rtx -> describes t j rtx.
Proof.
  unfold blockTemplateResult. rewrite run_bind. unfold get at 1.
  destruct (template (state m)) as [t|]; [|discriminate].
  destruct (After _ _); [discriminate|].
  destruct (length (Transactions (Block t)) =? 0)%nat; [discriminate|].
  intros Hrun. apply run_bind_Ok in Hrun as (txs & m1 & Hloop & Hret).
  rewrite run_ret in Hret. injection Hret as <- <-. simpl.
  exists t. split; [reflexivity|].
  eapply resultTransactions_describes in Hloop as (_ & Hlen & Hall); eauto.
  - lia.
  - intros id idx Hlook. rewrite lookup_empty in Hlook. discriminate.
  - intros j rtx Hj. rewrite lookup_nil in Hj. discriminate.
Qed.

(** C2, on the code: the loop of blockTemplateResult does not skip the
    transaction of index 0.  The reply has one entry for every
    transaction of the template, in the order of the template, and its
    first entry is the coinbase transaction. *)
Theorem blockTemplateResult_emits_coinbase (m m' : Machine)
    (r : GetBlockTemplateResult) (t : BlockTemplate) :
  template (state m) = Some t ->
  blockTemplateResult env m = (m', Ok r) ->
  map ID (ResultTransactions r)
    = map (fun tx => HashString (TxID tx)) (Transactions (Block t))
  /\ exists coinbase rest first others,
       Transactions (Block t) = coinbase :: rest
       /\ ResultTransactions r = first :: others
       /\ ID first = HashString (TxID coinbase).
Proof.
  intros Ht Hrun.
  pose proof Hrun as Hnum. unfold blockTemplateResult in Hnum.
  rewrite run_bind in Hnum. unfold get at 1 in Hnum. rewrite Ht in Hnum.
  destruct (After _ _); [discriminate|].
  destruct (Transactions (Block t)) as [|coinbase rest] eqn:Htxs; [discriminate|].
  clear Hnum.
  apply blockTemplateResult_describes in Hrun as (t' & Ht' & Hlen & Hall).
  assert (t' = t) as -> by congruence. rewrite Htxs in Hlen.
  assert (Hids : map ID (ResultTransactions r)
                 = map (fun tx => HashString (TxID tx)) (coinbase :: rest)).
  { apply list_eq. intros j. rewrite !list_lookup_fmap.
    destruct (ResultTransactions r !! j) as [rtx|] eqn:Hj.
    - destruct (Hall j rtx Hj) as (tx & txBuf & Hat & _ & _ & Hid & _).
      rewrite Htxs in Hat. rewrite Hat. simpl. congruence.
    - apply lookup_ge_None in Hj. rewrite Hlen in Hj.
      apply lookup_ge_None in Hj. rewrite Hj. reflexivity. }
  split; [exact Hids|].
  destruct (ResultTransactions r) as [|first others]; [discriminate|].
  exists coinbase, rest, first, others. repeat split. simpl in Hids. congruence.
Qed.

(** C3, as the code has it: in the reply of blockTemplateResult on a
    template none of whose transactions spends itself, the field Depends
    of the entry of index [j] has no repetition (its order is the order of
    a range statement over a map, which Go leaves unspecified), and each
    of its elements [d] is an index with 0 <= d < j, in the list of the
    template and in the reply alike, of a transaction whose id an input of
    transaction [j] names as its previous outpoint; the entry of index [d]
    of the reply bears that id. *)
Theorem depends_sound (m m' : Machine) (r : GetBlockTemplateResult) (t : BlockTemplate) :
  template (state m) = Some t ->
  noSelfSpend (Transactions (Block t)) ->
  blockTemplateResult env m = (m', Ok r) ->
  forall j rtx, ResultTransactions r !! j = Some rtx ->
    NoDup (Depends rtx)
    /\ forall d, d ∈ Depends rtx ->
         0 <= d < Z.of_nat j
         /\ exists earlierTx earlier tx txIn,
              Transactions (Block t) !! Z.to_nat d = Some earlierTx
              /\ ResultTransactions r !! Z.to_nat d = Some earlier
              /\ ID earlier = HashString (TxID earlierTx)
              /\ Transactions (Block t) !! j = Some tx
              /\ txIn ∈ MsgTx_TxIn tx
              /\ OutpointTxID (PreviousOutpoint txIn) = TxID earlierTx.
Proof.
  intros Ht Hself Hrun j rtx Hj.
  apply blockTemplateResult_describes in Hrun as (t' & Ht' & Hlen & Hall).
  assert (t' = t) as -> by congruence.
  destruct (Hall j rtx Hj) as (tx & txBuf & Hat & _ & _ & _ & _ & _ & Hnodup & Hdeps).
  split; [exact Hnodup|].
  intros d Hd. destruct (Hdeps d Hd) as (k & txk & txIn & -> & Hk & Hatk & Hin & Hprev).
  assert (k <> j) as Hkj.
  { intros ->. assert (txk = tx) as -> by congruence.
    eapply Hself; [|exact Hin|exact Hprev]. eapply list_elem_of_lookup_2; exact Hat. }
  split; [lia|].
  assert (is_Some (ResultTransactions r !! k)) as [earlier Hearlier].
  { apply lookup_lt_is_Some. rewrite Hlen. eapply lookup_lt_Some; exact Hatk. }
  exists txk, earlier, tx, txIn. rewrite Nat2Z.id.
  repeat split; try assumption.
  destruct (Hall k earlier Hearlier) as (txk' & _ & Hatk' & _ & _ & Hid & _).
  congruence.
Qed.
End Assembler.

(** ** The template cache *)

Section Cache.
Context `{Wire}.
Variable env : Env.

Lemma tick_0 m : tick 0 m = m.
Proof. destruct m; reflexivity. Qed.

Lemma tick_tick n k m : tick n (tick k m) = tick (n + k) m.
Proof. unfold tick; simpl. f_equal. lia. Qed.

Lemma mstime_Now_run m : mstime_Now env m = (tick 1 m, Ok (clock env (clockTicks m))).
Proof. reflexivity. Qed.

(** The condition of updateBlockTemplate decides [regenerationDue], on a
    state that has a pay address whenever it has a template. *)
Lemma needsNewTemplate_run st tips payAddr mempool m :
  (template st <> None -> payAddress st <> None) ->
  exists n b,
    needsNewTemplate env st tips payAddr mempool m = (tick n m, Ok b)
    /\ (b = true <-> regenerationDue st tips payAddr mempool (clock env (clockTicks m))).
Proof.
  intros Hwf. unfold needsNewTemplate, regenerationDue.
  destruct (template st) as [t|]; [|exists 0%nat, true; rewrite tick_0; split; [done | tauto]].
  destruct (tipHashes st) as [stateTips|];
    [|exists 0%nat, true; rewrite tick_0; split; [done | tauto]].
  destruct (payAddress st) as [a|]; [|exfalso; apply Hwf; congruence]. clear Hwf.
  unfold AreEqual.
  destruct (decide (stateTips = tips)) as [->|Htips].
  2:{ rewrite bool_decide_eq_false_2 by exact Htips. exists 0%nat, true.
      rewrite tick_0. split; [done|]. split; [intros _|done].
      right; right; left. congruence. }
  rewrite bool_decide_eq_true_2 by reflexivity. cbn [negb].
  rewrite run_bind. simpl Address_String. rewrite run_ret.
  destruct (String.eqb_spec (AddressString a) (AddressString payAddr)) as [Haddr|Haddr].
  2:{ exists 0%nat, true. rewrite tick_0. split; [done|]. split; [intros _|done].
      right; right; right; left. simpl. congruence. }
  cbn [negb].
  destruct (decide (lastTxUpdate st = mempool)) as [Hsame|Hdiff].
  - rewrite bool_decide_eq_false_2 by tauto. exists 0%nat, false. rewrite tick_0.
    split; [done|]. split; [discriminate|].
    intros [?|[?|[?|[Ha|[? _]]]]]; try done. simpl in Ha. congruence.
  - rewrite bool_decide_eq_true_2 by exact Hdiff.
    rewrite run_bind, mstime_Now_run, run_ret.
    exists 1%nat, (After (clock env (clockTicks m))
                         (Add (lastGenerated st) (Second * gbtRegenerateSeconds))).
    split; [done|]. unfold After, Add. rewrite Z.ltb_lt.
    split.
    + intros Hlt. right; right; right; right. split; [exact Hdiff | lia].
    + intros [?|[?|[?|[Ha|[_ Hlt]]]]]; try done. simpl in Ha. congruence.
Qed.

(** updateBlockTemplate takes its first branch when [regenerationDue]
    holds and its else branch when it does not. *)
Lemma updateBlockTemplate_cases payAddr m :
  (template (state m) <> None -> payAddress (state m) <> None) ->
  let m0 := if IsZero (LastUpdated env) then tick 1 m else m in
  let mempool := if IsZero (LastUpdated env) then clock env (clockTicks m)
                 else LastUpdated env in
  let now := clock env (clockTicks m0) in
  exists n,
    (regenerationDue (state m) (TipHashes env) payAddr mempool now ->
     updateBlockTemplate env payAddr m
     = regenerateTemplate env payAddr (TipHashes env) mempool (tick n m))
    /\ (~ regenerationDue (state m) (TipHashes env) payAddr mempool now ->
        updateBlockTemplate env payAddr m
        = refreshTemplate env (template (state m)) (tick n m)).
Proof.
  intros Hwf m0 mempool now. unfold updateBlockTemplate.
  assert (Hfirst : (if IsZero (LastUpdated env) then mstime_Now env
                    else mret (LastUpdated env)) m = (m0, Ok mempool)).
  { subst m0 mempool. destruct (IsZero (LastUpdated env)); reflexivity. }
  assert (Hst : state m0 = state m) by (subst m0; destruct (IsZero _); reflexivity).
  destruct (needsNewTemplate_run (state m) (TipHashes env) payAddr mempool m0 Hwf)
    as (n & b & Hneeds & Hb).
  fold now in Hb.
  assert (Hm0 : exists k, tick n m0 = tick k m).
  { subst m0. destruct (IsZero _); [rewrite tick_tick|]; eauto. }
  destruct Hm0 as [k Hk]. exists k.
  rewrite run_bind, Hfirst, run_bind. unfold get. cbv beta iota. rewrite Hst.
  rewrite run_bind, Hneeds, Hk.
  split; intros Hdue; destruct b; try reflexivity.
  - exfalso. apply Hb in Hdue. discriminate.
  - exfalso. apply Hdue, Hb. reflexivity.
Qed.

(** C4, on the code: the condition of updateBlockTemplate compares the
    clock with After, which is strict.  When a template is cached for the
    current tips and the same pay address, the transaction source was
    updated since, and exactly gbtRegenerateSeconds seconds have elapsed
    since the template was generated, updateBlockTemplate does not build
    a new template: it refreshes the cached one. *)
Theorem updateBlockTemplate_refreshes_at_60s (payAddr a : Address) (m : Machine)
    (t : BlockTemplate) :
  template (state m) = Some t ->
  tipHashes (state m) = Some (TipHashes env) ->
  payAddress (state m) = Some a ->
  AddressString a = AddressString payAddr ->
  IsZero (LastUpdated env) = false ->
  lastTxUpdate (state m) <> LastUpdated env ->
  clock env (clockTicks m) - lastGenerated (state m) = gbtRegenerateSeconds * Second ->
  updateBlockTemplate env payAddr m
  = (setState (setTemplate (Some (setBlock (setNonce 0 (UpdateBlockTime env (Block t))) t)))
              (tick 1 m), Ok tt).
Proof.
  intros Ht Htips Haddr Hsame Hzero Hdiff Hnow.
  unfold updateBlockTemplate. rewrite Hzero.
  rewrite run_bind, run_ret, run_bind. unfold get at 1.
  rewrite run_bind. unfold needsNewTemplate.
  rewrite Ht, Htips, Haddr. unfold AreEqual.
  rewrite bool_decide_eq_true_2 by reflexivity. cbn [negb].
  rewrite run_bind. simpl Address_String. rewrite run_ret.
  rewrite Hsame, String.eqb_refl. cbn [negb].
  rewrite bool_decide_eq_true_2 by exact Hdiff.
  rewrite run_bind, mstime_Now_run, run_ret.
  replace (After _ _) with false
    by (symmetry; unfold After, Add; apply Z.ltb_ge; lia).
  reflexivity.
Qed.
End Cache.

(** ** Long polling *)

Section LongPoll.
Context `{Wire}.
Variable env : Env.

Lemma handleGetBlockTemplateLongPoll_undecodable longPollID payAddr err m :
  decodeLongPollID longPollID = inl err ->
  handleGetBlockTemplateLongPoll env longPollID payAddr m = currentTemplate env payAddr m.
Proof.
  intros Hdec.
  unfold handleGetBlockTemplateLongPoll, blockTemplateOrLongPollChan, currentTemplate.
  rewrite Hdec, !run_bind. unfold returned. rewrite !run_bind.
  destruct (updateBlockTemplate env payAddr m) as [m1 [[]|e|msg]]; try reflexivity.
  rewrite !run_bind.
  destruct (blockTemplateResult env m1) as [m2 [res|e|msg]]; reflexivity.
Qed.

(** C8: a long-poll request whose ID does not decode is answered as a
    request without an ID.  After the step that regenerates or refreshes
    the template, the reply assembled from the current template is
    returned at once, without an error; the handler never waits, and
    the only errors it can return are those of these two steps, never
    the one of the decoder. *)
Theorem longPoll_undecodable_returns_template (longPollID : string) (payAddr : Address)
    (err : error) (m : Machine) :
  decodeLongPollID longPollID = inl err ->
  handleGetBlockTemplateLongPoll env longPollID payAddr m = currentTemplate env payAddr m
  /\ (forall m1 m2 res,
         updateBlockTemplate env payAddr m = (m1, Ok tt) ->
         blockTemplateResult env m1 = (m2, Ok res) ->
         handleGetBlockTemplateLongPoll env longPollID payAddr m
         = (m2, Ok (Replied (VResult res, None))))
  /\ (forall m' c a,
         handleGetBlockTemplateLongPoll env longPollID payAddr m
         <> (m', Ok (Waiting c a)))
  /\ (forall m' v e,
         handleGetBlockTemplateLongPoll env longPollID payAddr m
         = (m', Ok (Replied (v, Some e))) ->
         updateBlockTemplate env payAddr m = (m', Fail e)
         \/ exists m1, updateBlockTemplate env payAddr m = (m1, Ok tt)
                       /\ blockTemplateResult env m1 = (m', Fail e)).
Proof.
  intros Hdec.
  rewrite (handleGetBlockTemplateLongPoll_undecodable _ _ _ _ Hdec).
  split; [reflexivity|].
  unfold currentTemplate, returned. rewrite !run_bind.
  destruct (updateBlockTemplate env payAddr m) as [m1 [[]|e|msg]] eqn:Hupd.
  - rewrite !run_bind.
    destruct (blockTemplateResult env m1) as [m2 [res|e|msg]] eqn:Hres;
      rewrite ?run_ret; repeat split.
    + intros ? ? ? [= <-]. rewrite Hres. intros [= <- <-]. reflexivity.
    + discriminate.
    + discriminate.
    + intros ? ? ? [= <-]. rewrite Hres. discriminate.
    + discriminate.
    + intros m' v e' [= <- <- <-]. right. eauto.
    + intros ? ? ? [= <-]. rewrite Hres. discriminate.
    + discriminate.
    + discriminate.
  - rewrite ?run_ret. repeat split; try discriminate.
    intros m' v e' [= <- <- <-]. left. reflexivity.
  - repeat split; discriminate.
Qed.
End LongPoll.

(** ** The notification registry *)

Section Registry.
Context `{Wire}.
Variable env : Env.
Hypothesis range_ok : rangeOrder_ok env.

Lemma notified_id m : notified (notifyMap (state m)) (closed m) (rangeTicks m) m = m.
Proof. destruct m as [[] ? ? ? ?]; reflexivity. Qed.

Lemma notifyMap_notified nm cl rt m : notifyMap (state (notified nm cl rt m)) = nm.
Proof. reflexivity. Qed.

Lemma notified_notified nm cl rt nm' cl' rt' m :
  notified nm cl rt (notified nm' cl' rt' m) = notified nm cl rt m.
Proof. reflexivity. Qed.

Lemma range_run {A} (l : list A) m :
  range env l m
  = (notified (notifyMap (state m)) (closed m) (S (rangeTicks m)) m,
     Ok (rangeOrder env (rangeTicks m) A l)).
Proof. destruct m as [[] ? ? ? ?]; reflexivity. Qed.

Lemma close_run c m :
  c ∉ closed m ->
  close c m = (notified (notifyMap (state m)) ({[c]} ∪ closed m) (rangeTicks m) m, Ok tt).
Proof.
  intros Hc. unfold close. rewrite decide_False by exact Hc.
  destruct m as [[] ? ? ? ?]; reflexivity.
Qed.

Lemma modify_notifyMap_run f m :
  modify (setNotifyMap f) m
  = (notified (f (notifyMap (state m))) (closed m) (rangeTicks m) m, Ok tt).
Proof. destruct m as [[] ? ? ? ?]; reflexivity. Qed.

(** Closing every channel of a list of entries. *)
Lemma closeAll_run (cs : list (Z * chan)) : forall m,
  NoDup cs.*2 ->
  (forall c, c ∈ cs.*2 -> c ∉ closed m) ->
  forM_ cs (fun '(_, c) => close c) m
  = (notified (notifyMap (state m)) (list_to_set cs.*2 ∪ closed m) (rangeTicks m) m, Ok tt).
Proof.
  induction cs as [|[ts c] cs IH]; intros m Hnd Hopen.
  - simpl. rewrite run_ret. rewrite union_empty_l_L, notified_id. reflexivity.
  - simpl in *. apply NoDup_cons in Hnd as [Hc Hnd].
    rewrite run_bind, close_run by (apply Hopen; left).
    rewrite IH; [|exact Hnd|].
    + simpl. rewrite notified_notified. do 2 f_equal. set_solver.
    + intros c' Hc'. simpl.
      intros [Heq%elem_of_singleton|Hcl]%elem_of_union.
      * subst c'. contradiction.
      * eapply Hopen; [right; exact Hc' | exact Hcl].
Qed.

Section Stale.
Variable cur : string.

Lemma staleChans_cons fp inner l :
  staleChans cur ((fp, inner) :: l)
  = ((if decide (fp = cur) then [] else (map_to_list inner).*2) ++ staleChans cur l)%list.
Proof. reflexivity. Qed.

Lemma dropStale_cons fp inner l nm :
  dropStale cur ((fp, inner) :: l) nm
  = dropStale cur l (if decide (fp = cur) then nm else delete fp nm).
Proof. reflexivity. Qed.

Lemma staleLoop_run (l : list (string * gmap Z chan)) : forall m,
  NoDup (staleChans cur l) ->
  (forall c, c ∈ staleChans cur l -> c ∉ closed m) ->
  exists rt,
    forM_ l (fun '(hashesStr, channels) =>
               if negb (String.eqb hashesStr cur) then
                 cs ← range env (map_to_list channels);
                 forM_ cs (fun '(_, c) => close c);;
                 modify (setNotifyMap (delete hashesStr))
               else mret tt) m
    = (notified (dropStale cur l (notifyMap (state m)))
                (list_to_set (staleChans cur l) ∪ closed m) rt m, Ok tt).
Proof.
  induction l as [|[fp inner] l IH]; intros m Hnd Hopen.
  - exists (rangeTicks m). simpl. rewrite run_ret, union_empty_l_L, notified_id.
    reflexivity.
  - rewrite staleChans_cons in Hnd, Hopen |- *. rewrite dropStale_cons.
    simpl forM_. rewrite run_bind.
    destruct (decide (fp = cur)) as [Heq|Hne].
    + rewrite (proj2 (String.eqb_eq fp cur) Heq). cbn [negb].
      rewrite run_ret. apply IH; assumption.
    + rewrite (proj2 (String.eqb_neq fp cur) Hne). cbn [negb].
      apply NoDup_app in Hnd as (Hnd1 & Hdisj & Hnd2).
      pose proof (range_ok (rangeTicks m) _ (map_to_list inner)) as Hperm.
      assert (Hperm2 : (rangeOrder env (rangeTicks m) _ (map_to_list inner)).*2
                       ≡ₚ (map_to_list inner).*2) by (rewrite Hperm; reflexivity).
      rewrite run_bind, range_run, run_bind.
      rewrite closeAll_run.
      2:{ rewrite Hperm2. exact Hnd1. }
      2:{ intros c Hc. simpl. apply Hopen. rewrite Hperm2 in Hc.
          apply elem_of_app. left. exact Hc. }
      rewrite modify_notifyMap_run. simpl.
      rewrite !notified_notified.
      edestruct (IH (notified (delete fp (notifyMap (state m)))
                      (list_to_set (rangeOrder env (rangeTicks m) _ (map_to_list inner)).*2
                       ∪ closed m) (S (rangeTicks m)) m)) as [rt Hrun].
      * exact Hnd2.
      * intros c Hc. simpl. rewrite (list_to_set_perm_L _ _ Hperm2).
        intros [Hin%elem_of_list_to_set|Hcl]%elem_of_union.
        -- exact (Hdisj c Hin Hc).
        -- eapply Hopen; [|exact Hcl]. apply elem_of_app. right. exact Hc.
      * exists rt. rewrite Hrun. simpl. rewrite notified_notified.
        rewrite (list_to_set_perm_L _ _ Hperm2), list_to_set_app_L.
        do 2 f_equal. set_solver.
Qed.

Lemma dropStale_lookup l : forall nm fp,
  dropStale cur l nm !! fp
  = if decide (fp <> cur /\ fp ∈ l.*1) then None else nm !! fp.
Proof.
  induction l as [|[k inner] l IH]; intros nm fp.
  - simpl. rewrite decide_False; [reflexivity|]. intros [_ Hin]. inversion Hin.
  - rewrite dropStale_cons, IH. simpl.
    destruct (decide (fp <> cur /\ fp ∈ l.*1)) as [[Hne Hin]|Hnot].
    + rewrite decide_True; [reflexivity|]. split; [exact Hne | right; exact Hin].
    + destruct (decide (k = cur)) as [->|Hk].
      * rewrite decide_False; [reflexivity|].
        intros [Hne [Heq|Hin]%elem_of_cons]; [congruence | tauto].
      * destruct (decide (fp = k)) as [->|Hfk].
        -- rewrite lookup_delete_eq, decide_True; [reflexivity|].
           split; [exact Hk | left].
        -- rewrite lookup_delete_ne by congruence.
           rewrite decide_False; [reflexivity|].
           intros [Hne [Heq|Hin]%elem_of_cons]; [congruence | tauto].
Qed.

Lemma values_elem (inner : gmap Z chan) c :
  c ∈ (map_to_list inner).*2 <-> exists ts, inner !! ts = Some c.
Proof.
  rewrite list_elem_of_fmap. split.
  - intros ([ts c'] & -> & Hin). exists ts. apply elem_of_map_to_list. exact Hin.
  - intros [ts Hts]. exists (ts, c). split; [reflexivity|].
    apply elem_of_map_to_list. exact Hts.
Qed.

Lemma staleChans_elem l c :
  c ∈ staleChans cur l <->
  exists fp inner ts, (fp, inner) ∈ l /\ fp <> cur /\ inner !! ts = Some c.
Proof.
  induction l as [|[k inner] l IH].
  - split; [intros Hin; inversion Hin | intros (? & ? & ? & Hin & _); inversion Hin].
  - rewrite staleChans_cons, elem_of_app, IH. split.
    + intros [Hin|(fp & inn & ts & Hin & Hne & Hts)].
      * destruct (decide (k = cur)); [inversion Hin|].
        apply values_elem in Hin as [ts Hts].
        exists k, inner, ts. split; [left | auto].
      * exists fp, inn, ts. split; [right; exact Hin | auto].
    + intros (fp & inn & ts & Hin & Hne & Hts).
      apply elem_of_cons in Hin as [[= -> ->]|Hin].
      * left. rewrite decide_False by exact Hne. apply values_elem. eauto.
      * right. exists fp, inn, ts. auto.
Qed.

Lemma values_NoDup (inner : gmap Z chan) :
  (forall ts1 ts2 c, inner !! ts1 = Some c -> inner !! ts2 = Some c -> ts1 = ts2) ->
  NoDup (map_to_list inner).*2.
Proof.
  intros Hinj. apply NoDup_fmap_2_strong; [|apply NoDup_map_to_list].
  intros [ts1 c1] [ts2 c2] H1%elem_of_map_to_list H2%elem_of_map_to_list Heq.
  simpl in Heq. subst c2. f_equal. eapply Hinj; eassumption.
Qed.

Lemma staleChans_NoDup nm l :
  signalsDistinct nm ->
  NoDup l.*1 ->
  (forall k v, (k, v) ∈ l -> nm !! k = Some v) ->
  NoDup (staleChans cur l).
Proof.
  intros Hdist. induction l as [|[k inner] l IH]; intros Hkeys Hin.
  - constructor.
  - simpl in Hkeys. apply NoDup_cons in Hkeys as [Hk Hkeys].
    assert (Hnm : nm !! k = Some inner) by (apply Hin; left).
    rewrite staleChans_cons. apply NoDup_app. repeat split.
    + destruct (decide (k = cur)); [constructor|].
      apply values_NoDup. intros ts1 ts2 c H1 H2.
      eapply Hdist; [exact Hnm | exact H1 | exact Hnm | exact H2].
    + intros c Hc Hstale.
      destruct (decide (k = cur)); [inversion Hc|].
      apply values_elem in Hc as [ts Hts].
      apply staleChans_elem in Hstale as (fp & inn & ts' & Hfp & _ & Hts').
      destruct (Hdist k inner ts fp inn ts' c) as [-> _]; auto.
      { apply Hin. right. exact Hfp. }
      apply Hk. apply list_elem_of_fmap. exists (fp, inn). auto.
    + apply IH; [exact Hkeys|]. intros k' v' Hin'. apply Hin. right. exact Hin'.
Qed.
End Stale.

Section Old.
Variables (cur : string) (sec : Z).

Lemma dropOld_cons ts c cs inner :
  dropOld sec ((ts, c) :: cs) inner
  = dropOld sec cs (if decide (ts < sec) then delete ts inner else inner).
Proof. reflexivity. Qed.

Lemma oldLoop_run (cs : list (Z * chan)) : forall m,
  NoDup (oldChans sec cs) ->
  (forall c, c ∈ oldChans sec cs -> c ∉ closed m) ->
  forM_ cs (fun '(lastGen, c) =>
              if lastGen <? sec then
                close c;;
                modify (setNotifyMap (alter (delete lastGen) cur))
              else mret tt) m
  = (notified (alter (dropOld sec cs) cur (notifyMap (state m)))
              (list_to_set (oldChans sec cs) ∪ closed m) (rangeTicks m) m, Ok tt).
Proof.
  induction cs as [|[ts c] cs IH]; intros m Hnd Hopen.
  - simpl. rewrite run_ret, union_empty_l_L.
    rewrite alter_id by reflexivity. rewrite notified_id. reflexivity.
  - simpl forM_. rewrite run_bind. unfold oldChans in Hnd, Hopen |- *.
    rewrite filter_cons in Hnd, Hopen |- *. simpl in Hnd, Hopen |- *.
    destruct (decide (ts < sec)) as [Hlt|Hge].
    + rewrite (proj2 (Z.ltb_lt ts sec) Hlt).
      simpl in Hnd, Hopen |- *. apply NoDup_cons in Hnd as [Hc Hnd].
      rewrite run_bind, close_run by (apply Hopen; left).
      rewrite modify_notifyMap_run. simpl. rewrite notified_notified.
      rewrite IH; [|exact Hnd|].
      * simpl. rewrite notified_notified. f_equal. f_equal.
        -- rewrite alter_alter_eq. apply alter_ext. intros inner _. unfold compose.
           rewrite dropOld_cons, decide_True by exact Hlt. reflexivity.
        -- set_solver.
      * intros c' Hc'. simpl.
        intros [Heq%elem_of_singleton|Hcl]%elem_of_union.
        -- subst c'. contradiction.
        -- eapply Hopen; [right; exact Hc' | exact Hcl].
    + rewrite (proj2 (Z.ltb_ge ts sec)) by lia.
      rewrite run_ret, IH by assumption. do 2 f_equal.
      apply alter_ext. intros inner _.
      rewrite dropOld_cons, decide_False by exact Hge. reflexivity.
Qed.

Lemma dropOld_lookup cs : forall inner ts,
  dropOld sec cs inner !! ts
  = if decide (ts < sec /\ ts ∈ cs.*1) then None else inner !! ts.
Proof.
  induction cs as [|[k c] cs IH]; intros inner ts.
  - simpl. rewrite decide_False; [reflexivity|]. intros [_ Hin]. inversion Hin.
  - rewrite dropOld_cons, IH. simpl.
    destruct (decide (ts < sec /\ ts ∈ cs.*1)) as [[Hlt Hin]|Hnot].
    + rewrite decide_True; [reflexivity|]. split; [exact Hlt | right; exact Hin].
    + destruct (decide (k < sec)) as [Hk|Hk].
      * destruct (decide (ts = k)) as [->|Htk].
        -- rewrite lookup_delete_eq, decide_True; [reflexivity|]. split; [exact Hk | left].
        -- rewrite lookup_delete_ne by congruence.
           rewrite decide_False; [reflexivity|].
           intros [Hlt [Heq|Hin]%elem_of_cons]; [congruence | tauto].
      * rewrite decide_False; [reflexivity|].
        intros [Hlt [Heq|Hin]%elem_of_cons]; [subst; lia | tauto].
Qed.
End Old.

Lemma range_map_to_list {V} n (mp : gmap string V) :
  let l := rangeOrder env n _ (map_to_list mp) in
  NoDup l.*1 /\ forall k v, (k, v) ∈ l <-> mp !! k = Some v.
Proof.
  intros l. pose proof (range_ok n _ (map_to_list mp)) as Hperm. fold l in Hperm.
  split.
  - rewrite Hperm. apply NoDup_fst_map_to_list.
  - intros k v. rewrite Hperm. apply elem_of_map_to_list.
Qed.

Lemma range_inner n (inner : gmap Z chan) :
  let cs := rangeOrder env n _ (map_to_list inner) in
  cs.*2 ≡ₚ (map_to_list inner).*2
  /\ forall ts, ts ∈ cs.*1 <-> is_Some (inner !! ts).
Proof.
  intros cs. pose proof (range_ok n _ (map_to_list inner)) as Hperm. fold cs in Hperm.
  split; [rewrite Hperm; reflexivity|].
  intros ts. rewrite Hperm, list_elem_of_fmap. split.
  - intros ([ts' c] & -> & Hin%elem_of_map_to_list). eauto.
  - intros [c Hc]. exists (ts, c). split; [reflexivity | apply elem_of_map_to_list; exact Hc].
Qed.

(** The inner map the second loop leaves is the inner map without the
    entries before [sec]. *)
Lemma dropOld_filter n sec (inner : gmap Z chan) :
  dropOld sec (rangeOrder env n _ (map_to_list inner)) inner
  = filter (fun e => sec <= e.1) inner.
Proof.
  apply map_eq. intros ts. rewrite dropOld_lookup, map_lookup_filter.
  destruct (range_inner n inner) as [_ Hdom].
  destruct (inner !! ts) as [c|] eqn:Hts; simpl.
  - destruct (decide (ts < sec)) as [Hlt|Hge].
    + rewrite decide_True by (split; [exact Hlt | apply Hdom; eauto]).
      rewrite option_guard_False by (simpl; lia). reflexivity.
    + rewrite decide_False by tauto.
      rewrite option_guard_True by (simpl; lia). reflexivity.
  - destruct (decide _); reflexivity.
Qed.

Lemma oldChans_elem n sec (inner : gmap Z chan) c :
  c ∈ oldChans sec (rangeOrder env n _ (map_to_list inner))
  <-> exists ts, inner !! ts = Some c /\ ts < sec.
Proof.
  unfold oldChans. rewrite list_elem_of_fmap.
  pose proof (range_ok n _ (map_to_list inner)) as Hperm.
  split.
  - intros ([ts c'] & -> & [Hlt Hin]%list_elem_of_filter).
    rewrite Hperm in Hin. apply elem_of_map_to_list in Hin. eauto.
  - intros (ts & Hts & Hlt). exists (ts, c). split; [reflexivity|].
    apply list_elem_of_filter. split; [exact Hlt|].
    rewrite Hperm. apply elem_of_map_to_list. exact Hts.
Qed.

(** C5: notifyLongPollers on a registry whose signals are open and
    distinct.  Every signal registered under a fingerprint other than the
    one of the current tips is fired, and these fingerprints leave the
    map.  When the time of the last update is the zero time nothing else
    changes.  Otherwise the signals fired under the current fingerprint
    are exactly those registered with a timestamp before the seconds of
    the last update; they leave the map, and the fingerprint leaves it
    too when no signal is left under it.  The rest of the work state is
    untouched. *)
Theorem notifyLongPollers_fires (tips : list Hash) (t : Time) (m : Machine) :
  signalsOpen m ->
  signalsDistinct (notifyMap (state m)) ->
  let cur := JoinHashesStrings tips "" in
  let nm := notifyMap (state m) in
  exists m',
    notifyLongPollers env tips t m = (m', Ok tt)
    /\ state m' = setNotifyMap (fun _ => notifyMap (state m')) (state m)
    /\ nextChan m' = nextChan m
    /\ (forall fp, fp <> cur -> notifyMap (state m') !! fp = None)
    /\ (forall c, staleSignal nm cur c -> c ∈ closed m')
    /\ (IsZero t = true ->
        notifyMap (state m') !! cur = nm !! cur
        /\ forall c, c ∈ closed m' <-> c ∈ closed m \/ staleSignal nm cur c)
    /\ (IsZero t = false ->
        notifyMap (state m') !! cur
        = (inner ← nm !! cur;
           let kept := filter (fun e => UnixSeconds t <= e.1) inner in
           if decide (kept = ∅) then None else Some kept)
        /\ forall c, c ∈ closed m' <->
              c ∈ closed m \/ staleSignal nm cur c \/ oldSignal nm cur (UnixSeconds t) c).
Proof.
  intros Hopen Hdist cur nm.
  unfold notifyLongPollers. fold cur.
  rewrite run_bind. unfold get. cbv beta iota. rewrite run_bind, range_run. fold nm.
  set (l := rangeOrder env (rangeTicks m) _ (map_to_list nm)).
  destruct (range_map_to_list (rangeTicks m) nm) as [Hkeys Hl]. fold l in Hkeys, Hl.
  assert (Hstale : forall c, c ∈ staleChans cur l <-> staleSignal nm cur c).
  { intros c. rewrite staleChans_elem. unfold staleSignal. split.
    - intros (fp & inner & ts & Hin & Hne & Hts). exists fp, inner, ts.
      repeat split; auto. apply Hl. exact Hin.
    - intros (fp & inner & ts & Hne & Hin & Hts). exists fp, inner, ts.
      repeat split; auto. apply Hl. exact Hin. }
  assert (Hdrop : forall fp, dropStale cur l nm !! fp
                             = if decide (fp = cur) then nm !! cur else None).
  { intros fp. rewrite dropStale_lookup.
    destruct (decide (fp = cur)) as [->|Hne].
    - rewrite decide_False by tauto. reflexivity.
    - destruct (nm !! fp) as [inner|] eqn:Hfp.
      + rewrite decide_True; [reflexivity|]. split; [exact Hne|].
        apply list_elem_of_fmap. exists (fp, inner). split; [reflexivity | apply Hl; exact Hfp].
      + destruct (decide _); reflexivity. }
  rewrite run_bind.
  edestruct (staleLoop_run cur l
               (notified nm (closed m) (S (rangeTicks m)) m)) as [rt1 Hloop1].
  { eapply staleChans_NoDup; [exact Hdist | exact Hkeys | intros k v; apply Hl]. }
  { intros c Hc. apply Hstale in Hc as (fp & inner & ts & _ & Hfp & Hts). simpl.
    eapply Hopen; eassumption. }
  rewrite Hloop1. simpl closed. simpl notifyMap. rewrite notified_notified.
  set (nm1 := dropStale cur l nm) in *.
  set (cl1 := list_to_set (staleChans cur l) ∪ closed m).
  assert (Hcl1 : forall c, c ∈ cl1 <-> c ∈ closed m \/ staleSignal nm cur c).
  { intros c. unfold cl1. rewrite elem_of_union, elem_of_list_to_set, Hstale. tauto. }
  destruct (IsZero t) eqn:Hzero.
  { (* the last update is the zero time *)
    rewrite run_ret. eexists. split; [reflexivity|]. simpl.
    split; [reflexivity|]. split; [reflexivity|]. split.
    { intros fp Hne. rewrite Hdrop, decide_False by exact Hne. reflexivity. }
    split; [intros c Hc; apply Hcl1; auto|].
    split; [|discriminate]. intros _. split; [|exact Hcl1].
    rewrite Hdrop, decide_True by reflexivity. reflexivity. }
  rewrite run_bind. cbv beta iota. simpl notifyMap.
  rewrite Hdrop, decide_True by reflexivity.
  destruct (nm !! cur) as [channels|] eqn:Hcur.
  2:{ (* nothing is registered under the current fingerprint *)
    rewrite run_ret. eexists. split; [reflexivity|]. simpl.
    split; [reflexivity|]. split; [reflexivity|]. split.
    { intros fp Hne. rewrite Hdrop, decide_False by exact Hne. reflexivity. }
    split; [intros c Hc; apply Hcl1; auto|].
    split; [discriminate|]. intros _. split.
    - rewrite Hdrop, decide_True by reflexivity. reflexivity.
    - intros c. rewrite Hcl1. unfold oldSignal. split; [tauto|].
      intros [?|[?|(inner & ts & Hin & _)]]; [tauto | tauto | congruence]. }
  set (sec := UnixSeconds t).
  rewrite run_bind, range_run. simpl rangeTicks. rewrite notified_notified.
  set (cs := rangeOrder env rt1 _ (map_to_list channels)).
  assert (Hold : forall c, c ∈ oldChans sec cs <-> oldSignal nm cur sec c).
  { intros c. unfold cs. rewrite oldChans_elem. unfold oldSignal. split.
    - intros (ts & Hts & Hlt). exists channels, ts. auto.
    - intros (inner & ts & Hin & Hts & Hlt). exists ts.
      assert (inner = channels) as -> by congruence. auto. }
  rewrite run_bind, (oldLoop_run cur sec cs).
  2:{ unfold oldChans. eapply sublist_NoDup; [|apply fmap_sublist, sublist_filter].
      destruct (range_inner rt1 channels) as [Hperm _]. fold cs in Hperm. rewrite Hperm.
      apply values_NoDup. intros ts1 ts2 c H1 H2.
      eapply Hdist; [exact Hcur | exact H1 | exact Hcur | exact H2]. }
  2:{ intros c Hc. simpl. apply Hold in Hc as (inner & ts & Hin & Hts & _).
      rewrite Hcl1. intros [Hcl|(fp & inner' & ts' & Hne & Hfp & Hts')].
      - eapply Hopen; eassumption.
      - destruct (Hdist cur inner ts fp inner' ts' c) as [<- _]; auto. }
  simpl notifyMap. simpl closed. simpl rangeTicks. rewrite notified_notified.
  rewrite run_bind. cbv beta iota.
  set (kept := filter (fun e => sec <= e.1) channels).
  set (cl2 := list_to_set (oldChans sec cs) ∪ cl1).
  assert (Hcl2 : forall c, c ∈ cl2 <->
            c ∈ closed m \/ staleSignal nm cur c \/ oldSignal nm cur sec c).
  { intros c. unfold cl2. rewrite elem_of_union, elem_of_list_to_set, Hold, Hcl1. tauto. }
  assert (Hnm2 : forall fp, alter (dropOld sec cs) cur nm1 !! fp
                            = if decide (fp = cur) then Some kept else None).
  { intros fp. destruct (decide (fp = cur)) as [->|Hne].
    - rewrite lookup_alter_eq. unfold nm1. rewrite Hdrop, decide_True by reflexivity.
      simpl. unfold cs. rewrite dropOld_filter. reflexivity.
    - rewrite lookup_alter_ne by congruence. unfold nm1.
      rewrite Hdrop, decide_False by exact Hne. reflexivity. }
  rewrite notifyMap_notified, Hnm2, decide_True by reflexivity.
  change (default ∅ (Some kept)) with kept.
  change (Some channels ≫= _)
    with (if decide (kept = ∅) then None else Some kept).
  destruct (decide (kept = ∅)) as [Hempty|Hsome].
  - (* no signal is left under the current fingerprint *)
    assert (Hsize : (Z.of_nat (size kept) =? 0) = true)
      by (apply Z.eqb_eq; rewrite Hempty, map_size_empty; reflexivity).
    rewrite Hsize.
    rewrite modify_notifyMap_run. simpl. rewrite notified_notified.
    eexists. split; [reflexivity|]. simpl.
    split; [reflexivity|]. split; [reflexivity|]. split.
    { intros fp Hne. rewrite lookup_delete_ne by congruence.
      rewrite Hnm2, decide_False by exact Hne. reflexivity. }
    split; [intros c Hc; apply Hcl2; auto|].
    split; [discriminate|]. intros _. split; [|exact Hcl2].
    rewrite lookup_delete_eq. reflexivity.
  - assert (Hsize : (Z.of_nat (size kept) =? 0) = false)
      by (apply Z.eqb_neq; intros Hsize; apply Hsome, map_size_empty_iff; lia).
    rewrite Hsize.
    rewrite run_ret. eexists. split; [reflexivity|]. simpl.
    split; [reflexivity|]. split; [reflexivity|]. split.
    { intros fp Hne. rewrite Hnm2, decide_False by exact Hne. reflexivity. }
    split; [intros c Hc; apply Hcl2; auto|].
    split; [discriminate|]. intros _. split; [|exact Hcl2].
    rewrite Hnm2, decide_True by reflexivity. reflexivity.
Qed.
End Registry.

(** ** What notifyLongPollers leaves *)

Section RegistryRun.
Context `{Wire}.
Variable env : Env.
Hypothesis range_ok : rangeOrder_ok env.

Lemma pollersLeft_lookup cur t nm fp :
  pollersLeft cur t nm !! fp
  = if decide (fp = cur) then
      inner ← nm !! cur;
      if IsZero t then Some inner
      else let kept := filter (fun e => UnixSeconds t <= e.1) inner in
           if decide (kept = ∅) then None else Some kept
    else None.
Proof.
  unfold pollersLeft.
  destruct (nm !! cur) as [inner|]; simpl.
  - destruct (IsZero t).
    + destruct (decide (fp = cur)) as [->|Hne];
        [apply lookup_singleton_eq | apply lookup_singleton_ne; congruence].
    + destruct (decide (filter _ inner = ∅)).
      * rewrite lookup_empty. destruct (decide (fp = cur)); reflexivity.
      * destruct (decide (fp = cur)) as [->|Hne];
          [apply lookup_singleton_eq | apply lookup_singleton_ne; congruence].
  - rewrite lookup_empty. destruct (decide (fp = cur)); reflexivity.
Qed.

(** What notifyLongPollers does to a registry whose signals are open and
    distinct: the machine it leaves. *)
Lemma notifyLongPollers_run tips t m :
  signalsOpen m ->
  signalsDistinct (notifyMap (state m)) ->
  let cur := JoinHashesStrings tips "" in
  let nm := notifyMap (state m) in
  exists cl rt,
    notifyLongPollers env tips t m = (notified (pollersLeft cur t nm) cl rt m, Ok tt)
    /\ forall c, c ∈ cl <-> c ∈ closed m \/ fired nm cur t c.
Proof.
  intros Hopen Hdist cur nm.
  unfold notifyLongPollers. fold cur.
  rewrite run_bind. unfold get. cbv beta iota. rewrite run_bind, (range_run env). fold nm.
  set (l := rangeOrder env (rangeTicks m) _ (map_to_list nm)).
  destruct (range_map_to_list env range_ok (rangeTicks m) nm) as [Hkeys Hl].
  fold l in Hkeys, Hl.
  assert (Hstale : forall c, c ∈ staleChans cur l <-> staleSignal nm cur c).
  { intros c. rewrite staleChans_elem. unfold staleSignal. split.
    - intros (fp & inner & ts & Hin & Hne & Hts). exists fp, inner, ts.
      repeat split; auto. apply Hl. exact Hin.
    - intros (fp & inner & ts & Hne & Hin & Hts). exists fp, inner, ts.
      repeat split; auto. apply Hl. exact Hin. }
  assert (Hdrop : forall fp, dropStale cur l nm !! fp
                             = if decide (fp = cur) then nm !! cur else None).
  { intros fp. rewrite dropStale_lookup.
    destruct (decide (fp = cur)) as [->|Hne].
    - rewrite decide_False by tauto. reflexivity.
    - destruct (nm !! fp) as [inner|] eqn:Hfp.
      + rewrite decide_True; [reflexivity|]. split; [exact Hne|].
        apply list_elem_of_fmap. exists (fp, inner). split; [reflexivity | apply Hl; exact Hfp].
      + destruct (decide _); reflexivity. }
  rewrite run_bind.
  edestruct (staleLoop_run env range_ok cur l
               (notified nm (closed m) (S (rangeTicks m)) m)) as [rt1 Hloop1].
  { eapply staleChans_NoDup; [exact Hdist | exact Hkeys | intros k v; apply Hl]. }
  { intros c Hc. apply Hstale in Hc as (fp & inner & ts & _ & Hfp & Hts). simpl.
    eapply Hopen; eassumption. }
  rewrite Hloop1. simpl closed. simpl notifyMap. rewrite notified_notified.
  set (nm1 := dropStale cur l nm) in *.
  set (cl1 := list_to_set (staleChans cur l) ∪ closed m).
  assert (Hcl1 : forall c, c ∈ cl1 <-> c ∈ closed m \/ staleSignal nm cur c).
  { intros c. unfold cl1. rewrite elem_of_union, elem_of_list_to_set, Hstale. tauto. }
  destruct (IsZero t) eqn:Hzero.
  { (* the last update is the zero time *)
    rewrite run_ret. exists cl1, rt1. split.
    - do 2 f_equal. apply map_eq. intros fp.
      unfold nm1. rewrite Hdrop, pollersLeft_lookup, Hzero.
      destruct (decide (fp = cur)); [|reflexivity].
      destruct (nm !! cur); reflexivity.
    - intros c. rewrite Hcl1. unfold fired. rewrite Hzero.
      split; [tauto|]. intros [?|[?|[? _]]]; [tauto | tauto | discriminate]. }
  rewrite run_bind. cbv beta iota. simpl notifyMap.
  rewrite Hdrop, decide_True by reflexivity.
  destruct (nm !! cur) as [channels|] eqn:Hcur.
  2:{ (* nothing is registered under the current fingerprint *)
    rewrite run_ret. exists cl1, rt1. split.
    - do 2 f_equal. apply map_eq. intros fp.
      unfold nm1. rewrite Hdrop, pollersLeft_lookup, Hcur.
      destruct (decide (fp = cur)); reflexivity.
    - intros c. rewrite Hcl1. unfold fired, oldSignal. split; [tauto|].
      intros [?|[?|[_ (inner & ts & Hin & _)]]]; [tauto | tauto | congruence]. }
  set (sec := UnixSeconds t).
  rewrite run_bind, (range_run env). simpl rangeTicks. rewrite notified_notified.
  set (cs := rangeOrder env rt1 _ (map_to_list channels)).
  assert (Hold : forall c, c ∈ oldChans sec cs <-> oldSignal nm cur sec c).
  { intros c. unfold cs. rewrite (oldChans_elem env range_ok). unfold oldSignal. split.
    - intros (ts & Hts & Hlt). exists channels, ts. auto.
    - intros (inner & ts & Hin & Hts & Hlt). exists ts.
      assert (inner = channels) as -> by congruence. auto. }
  rewrite run_bind, (oldLoop_run env range_ok cur sec cs).
  2:{ unfold oldChans. eapply sublist_NoDup; [|apply fmap_sublist, sublist_filter].
      destruct (range_inner env range_ok rt1 channels) as [Hperm _].
      fold cs in Hperm. rewrite Hperm.
      apply values_NoDup. intros ts1 ts2 c H1 H2.
      eapply Hdist; [exact Hcur | exact H1 | exact Hcur | exact H2]. }
  2:{ intros c Hc. simpl. apply Hold in Hc as (inner & ts & Hin & Hts & _).
      rewrite Hcl1. intros [Hcl|(fp & inner' & ts' & Hne & Hfp & Hts')].
      - eapply Hopen; eassumption.
      - destruct (Hdist cur inner ts fp inner' ts' c) as [<- _]; auto. }
  simpl notifyMap. simpl closed. simpl rangeTicks. rewrite notified_notified.
  rewrite run_bind. cbv beta iota.
  set (kept := filter (fun e => sec <= e.1) channels).
  set (cl2 := list_to_set (oldChans sec cs) ∪ cl1).
  assert (Hcl2 : forall c, c ∈ cl2 <-> c ∈ closed m \/ fired nm cur t c).
  { intros c. unfold cl2, fired. rewrite elem_of_union, elem_of_list_to_set, Hold, Hcl1.
    rewrite Hzero. fold sec. tauto. }
  assert (Hnm2 : forall fp, alter (dropOld sec cs) cur nm1 !! fp
                            = if decide (fp = cur) then Some kept else None).
  { intros fp. destruct (decide (fp = cur)) as [->|Hne].
    - rewrite lookup_alter_eq. unfold nm1. rewrite Hdrop, decide_True by reflexivity.
      simpl. unfold cs. rewrite (dropOld_filter env range_ok). reflexivity.
    - rewrite lookup_alter_ne by congruence. unfold nm1.
      rewrite Hdrop, decide_False by exact Hne. reflexivity. }
  rewrite notifyMap_notified, Hnm2, decide_True by reflexivity.
  change (default ∅ (Some kept)) with kept.
  destruct (decide (kept = ∅)) as [Hempty|Hsome].
  - (* no signal is left under the current fingerprint *)
    assert (Hsize : (Z.of_nat (size kept) =? 0) = true)
      by (apply Z.eqb_eq; rewrite Hempty, map_size_empty; reflexivity).
    rewrite Hsize.
    rewrite modify_notifyMap_run. simpl. rewrite notified_notified.
    exists cl2, (S rt1). split; [|exact Hcl2].
    do 2 f_equal. apply map_eq. intros fp.
    rewrite pollersLeft_lookup, Hcur, Hzero. simpl. fold sec. fold kept.
    destruct (decide (fp = cur)) as [->|Hne].
    + rewrite lookup_delete_eq. destruct (decide (kept = ∅)); [reflexivity | contradiction].
    + rewrite lookup_delete_ne by congruence.
      rewrite Hnm2, decide_False by exact Hne. reflexivity.
  - assert (Hsize : (Z.of_nat (size kept) =? 0) = false)
      by (apply Z.eqb_neq; intros Hsize; apply Hsome, map_size_empty_iff; lia).
    rewrite Hsize.
    rewrite run_ret. exists cl2, (S rt1). split; [|exact Hcl2].
    do 2 f_equal. apply map_eq. intros fp.
    rewrite pollersLeft_lookup, Hcur, Hzero, Hnm2. simpl. fold sec. fold kept.
    destruct (decide (fp = cur)); [|reflexivity].
    destruct (decide (kept = ∅)); [contradiction | reflexivity].
Qed.
End RegistryRun.

Section Left.
Context `{Wire}.

(** What is left in the notify map was there, under the current
    fingerprint, and is not before the second of the last update. *)
Lemma pollersLeft_registered cur t nm fp inner' ts (c : chan) :
  pollersLeft cur t nm !! fp = Some inner' -> inner' !! ts = Some c ->
  fp = cur
  /\ (exists inner, nm !! cur = Some inner /\ inner !! ts = Some c)
  /\ (IsZero t = false -> UnixSeconds t <= ts).
Proof.
  rewrite pollersLeft_lookup.
  destruct (decide (fp = cur)) as [->|Hne]; [|discriminate].
  destruct (nm !! cur) as [inner|]; [|discriminate]. simpl.
  destruct (IsZero t).
  - intros [= <-] Hc. split; [reflexivity|]. split; [eauto | discriminate].
  - destruct (decide (filter _ inner = ∅)); [discriminate|].
    intros [= <-] [Hc Hle]%map_lookup_filter_Some. simpl in Hle.
    split; [reflexivity|]. split; [eauto | auto].
Qed.

Lemma pollersLeft_kept cur t nm inner ts (c : chan) :
  nm !! cur = Some inner -> inner !! ts = Some c ->
  (IsZero t = true \/ UnixSeconds t <= ts) ->
  exists inner', pollersLeft cur t nm !! cur = Some inner' /\ inner' !! ts = Some c.
Proof.
  intros Hcur Hc Hkeep. rewrite pollersLeft_lookup, decide_True, Hcur by reflexivity. simpl.
  destruct (IsZero t) eqn:Hzero; [eauto|].
  destruct Hkeep as [?|Hle]; [discriminate|].
  assert (Hin : filter (fun e : Z * chan => UnixSeconds t <= e.1) inner !! ts = Some c)
    by (apply map_lookup_filter_Some; auto).
  destruct (decide (filter _ inner = ∅)) as [Hempty|_]; [|eauto].
  rewrite Hempty, lookup_empty in Hin. discriminate.
Qed.

(** A signal that is fired is not left in the map, when the signals are
    distinct. *)
Lemma fired_not_left cur t nm (c : chan) :
  signalsDistinct nm -> fired nm cur t c -> ~ registered (pollersLeft cur t nm) c.
Proof.
  intros Hdist Hfired (fp & inner' & ts & Hfp & Hc).
  destruct (pollersLeft_registered _ _ _ _ _ _ _ Hfp Hc) as (-> & (inner & Hin & Hts) & Hle).
  destruct Hfired as [(fp2 & i2 & ts2 & Hne & Hfp2 & Hts2)|[Hzero (i2 & ts2 & Hfp2 & Hts2 & Hlt)]].
  - destruct (Hdist cur inner ts fp2 i2 ts2 c) as [Heq _]; auto.
  - destruct (Hdist cur inner ts cur i2 ts2 c) as [_ Heq]; auto.
    specialize (Hle Hzero). lia.
Qed.

(** A registered signal is fired or left in the map. *)
Lemma registered_fired_or_left cur t nm (c : chan) :
  registered nm c -> fired nm cur t c \/ registered (pollersLeft cur t nm) c.
Proof.
  intros (fp & inner & ts & Hfp & Hc).
  destruct (decide (fp = cur)) as [->|Hne]; [|left; left; exists fp, inner, ts; auto].
  destruct (IsZero t) eqn:Hzero.
  - right. destruct (pollersLeft_kept cur t nm inner ts c Hfp Hc) as (inner' & ? & ?); [auto|].
    exists cur, inner', ts. auto.
  - destruct (decide (ts < UnixSeconds t)) as [Hlt|Hge].
    + left. right. split; [exact Hzero|]. exists inner, ts. auto.
    + right. destruct (pollersLeft_kept cur t nm inner ts c Hfp Hc) as (inner' & ? & ?);
        [right; lia|].
      exists cur, inner', ts. auto.
Qed.

Lemma fired_registered nm cur t (c : chan) : fired nm cur t c -> registered nm c.
Proof.
  intros [(fp & inner & ts & _ & ? & ?)|[_ (inner & ts & ? & ? & _)]];
    [exists fp, inner, ts | exists cur, inner, ts]; auto.
Qed.

Lemma pollersLeft_idempotent cur t (nm : gmap string (gmap Z chan)) :
  pollersLeft cur t (pollersLeft cur t nm) = pollersLeft cur t nm.
Proof.
  apply map_eq. intros fp. rewrite !pollersLeft_lookup.
  destruct (decide (fp = cur)) as [->|Hne]; [|reflexivity].
  rewrite decide_True by reflexivity.
  destruct (nm !! cur) as [inner|]; [|reflexivity]. simpl.
  destruct (IsZero t); [reflexivity|].
  destruct (decide (filter _ inner = ∅)) as [Hempty|Hsome]; [reflexivity|]. simpl.
  assert (Hsame : filter (fun e : Z * chan => UnixSeconds t <= e.1)
                     (filter (fun e : Z * chan => UnixSeconds t <= e.1) inner)
                   = filter (fun e : Z * chan => UnixSeconds t <= e.1) inner).
  { apply map_filter_id. intros ts c [_ Hle]%map_lookup_filter_Some. exact Hle. }
  rewrite Hsame. destruct (decide (filter _ inner = ∅)); [contradiction | reflexivity].
Qed.
End Left.

(** ** The invariant of the notify map *)

Section Invariant.
Context `{Wire}.

Lemma hoare_ret {A} (a : A) P E : hoare P (mret a) P E.
Proof. intros m Hm. exact Hm. Qed.

Lemma hoare_bind {A B} (c : M A) (k : A -> M B) P R Q E :
  hoare P c R E -> (forall a, hoare R (k a) Q E) -> hoare P (c ≫= k) Q E.
Proof.
  intros Hc Hk m Hm. rewrite run_bind. specialize (Hc m Hm).
  destruct (c m) as [m1 [a|err|msg]]; [apply Hk; exact Hc | exact Hc | exact I].
Qed.

Lemma hoare_fail {A} err P Q : hoare P (fail err : M A) Q P.
Proof. intros m Hm. exact Hm. Qed.

Lemma hoare_panic {A} msg P Q E : hoare P (panic msg : M A) Q E.
Proof. intros m Hm. exact I. Qed.

Lemma hoare_get P E : hoare P get P E.
Proof. intros m Hm. exact Hm. Qed.

Lemma hoare_weaken {A} (c : M A) (P P' Q Q' E : Machine -> Prop) :
  hoare P' c Q' E -> (forall m, P m -> P' m) -> (forall m, Q' m -> Q m) -> hoare P c Q E.
Proof.
  intros Hc Hpre Hpost m Hm. specialize (Hc m (Hpre m Hm)).
  destruct (c m) as [m1 [a|err|msg]]; auto.
Qed.

Lemma hoare_forM_ {A} (l : list A) (body : A -> M unit) P E :
  (forall x, hoare P (body x) P E) -> hoare P (forM_ l body) P E.
Proof.
  intros Hbody. induction l as [|x l IH]; simpl.
  - apply hoare_ret.
  - eapply hoare_bind; [apply Hbody | intros _; exact IH].
Qed.

Lemma onNotifyMap_onRegistry P : onNotifyMap P -> onRegistry P.
Proof. intros HP m m' Hnm _ _. apply HP. exact Hnm. Qed.

Lemma registryInv_onNotifyMap : onNotifyMap registryInv.
Proof. intros m m' Heq. unfold registryInv. rewrite Heq. auto. Qed.

Lemma registryInvBut_onNotifyMap cur : onNotifyMap (registryInvBut cur).
Proof. intros m m' Heq. unfold registryInvBut. rewrite Heq. auto. Qed.

Variable env : Env.

Lemma hoare_range {A} (l : list A) P E : onRegistry P -> hoare P (range env l) P E.
Proof. intros HP m Hm. eapply HP; [| | |exact Hm]; reflexivity. Qed.

Lemma hoare_mstime_Now P E : onRegistry P -> hoare P (mstime_Now env) P E.
Proof. intros HP m Hm. eapply HP; [| | |exact Hm]; reflexivity. Qed.

Lemma hoare_close c P E : onNotifyMap P -> hoare P (close c) P E.
Proof.
  intros HP m Hm. unfold close. destruct (decide (c ∈ closed m)); [exact I|].
  eapply HP; [|exact Hm]. reflexivity.
Qed.

(** An assignment to a field other than the notify map. *)
Lemma hoare_modify f P E :
  onRegistry P -> (forall st, notifyMap (f st) = notifyMap st) ->
  hoare P (modify f) P E.
Proof. intros HP Hf m Hm. eapply HP; [| | |exact Hm]; [apply Hf | reflexivity..]. Qed.

Lemma hoare_delete k P Q E :
  (forall m, P m -> Q (setState (setNotifyMap (delete k)) m)) ->
  hoare P (modify (setNotifyMap (delete k))) Q E.
Proof. intros HPQ m Hm. apply HPQ. exact Hm. Qed.

Lemma notifyLongPollers_registryInv tips t :
  hoare registryInv (notifyLongPollers env tips t) registryInv registryInv.
Proof.
  unfold notifyLongPollers. set (cur := JoinHashesStrings tips "").
  eapply hoare_bind; [apply hoare_get | intros st].
  eapply hoare_bind; [apply hoare_range, onNotifyMap_onRegistry, registryInv_onNotifyMap | intros entries].
  eapply hoare_bind.
  { apply hoare_forM_. intros [hashesStr channels].
    destruct (negb (hashesStr =? cur)%string); [|apply hoare_ret].
    eapply hoare_bind; [apply hoare_range, onNotifyMap_onRegistry, registryInv_onNotifyMap | intros cs].
    eapply hoare_bind.
    - apply hoare_forM_. intros [? c]. apply hoare_close, registryInv_onNotifyMap.
    - intros _. apply hoare_delete. intros m Hm fp inner Hfp. simpl in Hfp.
      apply lookup_delete_Some in Hfp as [_ Hfp]. eapply Hm; exact Hfp. }
  intros _. destruct (IsZero t); [apply hoare_ret|]. clear st.
  intros m Hm. rewrite run_bind. unfold get at 1. cbv beta iota.
  destruct (notifyMap (state m) !! cur) as [channels|]; [|exact Hm].
  revert m Hm. change (hoare registryInv
    (cs ← range env (map_to_list channels);
     forM_ cs (fun '(lastGen, c) =>
       if lastGen <? UnixSeconds t then
         close c;; modify (setNotifyMap (alter (delete lastGen) cur))
       else mret tt);;
     st ← get;
     let channels := default ∅ (notifyMap st !! cur) in
     if Z.of_nat (size channels) =? 0
     then modify (setNotifyMap (delete cur)) else mret tt) registryInv registryInv).
  eapply hoare_bind with (R := registryInvBut cur).
  { intros m Hm. unfold range. cbv beta iota.
    intros fp inner _ Hfp. eapply Hm; exact Hfp. }
  intros cs. eapply hoare_bind with (R := registryInvBut cur).
  { apply hoare_forM_. intros [lastGen c].
    destruct (lastGen <? UnixSeconds t); [|apply hoare_ret].
    eapply hoare_bind; [apply hoare_close, registryInvBut_onNotifyMap | intros _].
    intros m Hm fp inner Hne Hfp. simpl in Hfp.
    rewrite lookup_alter_ne in Hfp by congruence. eapply Hm; eassumption. }
  intros _ m Hm. rewrite run_bind. unfold get at 1. cbv beta iota.
  destruct (notifyMap (state m) !! cur) as [inner|] eqn:Hcur.
  - change (default ∅ (Some inner)) with inner.
    destruct (Z.eqb_spec (Z.of_nat (size inner)) 0) as [Hsize|Hsize].
    + unfold modify. cbv beta iota. intros fp inner' Hfp. simpl in Hfp.
      apply lookup_delete_Some in Hfp as [Hne Hfp]. eapply Hm; [|exact Hfp]. congruence.
    + rewrite run_ret. intros fp inner' Hfp.
      destruct (decide (fp = cur)) as [->|Hne]; [|eapply Hm; eassumption].
      assert (inner' = inner) as -> by congruence.
      intros ->. apply Hsize. rewrite map_size_empty. reflexivity.
  - change (default ∅ None) with (∅ : gmap Z chan).
    rewrite map_size_empty. simpl Z.eqb. unfold modify. cbv beta iota.
    intros fp inner' Hfp. simpl in Hfp.
    apply lookup_delete_Some in Hfp as [Hne Hfp]. eapply Hm; [|exact Hfp]. congruence.
Qed.

Lemma templateUpdateChan_registryInv tips lastGenerated :
  hoare registryInv (templateUpdateChan tips lastGenerated) registryInv registryInv.
Proof.
  intros m Hm. unfold templateUpdateChan. set (cur := JoinHashesStrings tips "").
  rewrite run_bind. unfold get at 1. cbv beta iota.
  destruct (notifyMap (state m) !! cur) as [channels|] eqn:Hcur.
  - rewrite run_bind, run_ret.
    destruct (channels !! lastGenerated) as [c|] eqn:Hts; [rewrite run_ret; exact Hm|].
    unfold makeChan, modify. rewrite !run_bind. cbv beta iota. rewrite run_ret.
    intros fp inner Hfp. simpl in Hfp.
    destruct (decide (fp = cur)) as [->|Hne].
    + rewrite lookup_alter_eq, Hcur in Hfp. injection Hfp as <-.
      apply insert_non_empty.
    + rewrite lookup_alter_ne in Hfp by congruence. eapply Hm; exact Hfp.
  - unfold makeChan, modify. rewrite !run_bind. cbv beta iota. rewrite run_ret.
    rewrite lookup_empty. rewrite !run_bind. cbv beta iota. rewrite run_ret.
    intros fp inner Hfp. simpl in Hfp.
    destruct (decide (fp = cur)) as [->|Hne].
    + rewrite lookup_alter_eq, lookup_insert_eq in Hfp. injection Hfp as <-.
      apply insert_non_empty.
    + rewrite lookup_alter_ne, lookup_insert_ne in Hfp by congruence.
      eapply Hm; exact Hfp.
Qed.

(** Every function of the handler keeps an invariant [Inv] of the
    registry that its two operations keep. *)
Section Keeps.
Variable Inv : Machine -> Prop.
Hypothesis Inv_frame : onRegistry Inv.
Hypothesis Inv_notify : forall tips t, keeps Inv (notifyLongPollers env tips t).
Hypothesis Inv_subscribe : forall tips ts, keeps Inv (templateUpdateChan tips ts).

Lemma keeps_ret {A} (a : A) : keeps Inv (mret a).
Proof. apply hoare_ret. Qed.

Lemma keeps_bind {A B} (c : M A) (k : A -> M B) :
  keeps Inv c -> (forall a, keeps Inv (k a)) -> keeps Inv (c ≫= k).
Proof. apply hoare_bind. Qed.

Lemma keeps_fail {A} err : keeps Inv (fail err : M A).
Proof. apply hoare_fail. Qed.

Lemma keeps_panic {A} msg : keeps Inv (panic msg : M A).
Proof. apply hoare_panic. Qed.

Lemma keeps_get : keeps Inv get.
Proof. apply hoare_get. Qed.

Lemma keeps_mstime_Now : keeps Inv (mstime_Now env).
Proof. apply hoare_mstime_Now, Inv_frame. Qed.

Lemma keeps_range {A} (l : list A) : keeps Inv (range env l).
Proof. apply hoare_range, Inv_frame. Qed.

Lemma keeps_modify f :
  (forall st, notifyMap (f st) = notifyMap st) -> keeps Inv (modify f).
Proof. apply hoare_modify, Inv_frame. Qed.

Lemma keeps_returned (c : M value) : keeps Inv c -> keeps Inv (returned c).
Proof.
  intros Hc m Hm. specialize (Hc m Hm). unfold returned.
  destruct (c m) as [m1 [a|err|msg]]; exact Hc.
Qed.

(** One step of a proof that a function keeps the invariant: the rule
    of the construct at the head of the function. *)
Ltac keeps_step :=
  first
    [ apply keeps_ret | apply keeps_fail | apply keeps_panic | apply keeps_get
    | apply keeps_mstime_Now | apply keeps_range
    | apply keeps_modify; reflexivity
    | apply Inv_notify | apply Inv_subscribe
    | apply keeps_returned
    | apply keeps_bind; [|intros ?]
    | match goal with
      | |- keeps _ (if ?b then _ else _) => destruct b
      | |- keeps _ (match ?x with _ => _ end) => destruct x
      end ].

Lemma needsNewTemplate_keeps st tips payAddr lastTxUpdate' :
  keeps Inv (needsNewTemplate env st tips payAddr lastTxUpdate').
Proof. unfold needsNewTemplate, Address_String. repeat keeps_step. Qed.

Lemma updateBlockTemplate_keeps payAddr : keeps Inv (updateBlockTemplate env payAddr).
Proof.
  unfold updateBlockTemplate, regenerateTemplate, refreshTemplate.
  repeat first [apply needsNewTemplate_keeps | keeps_step].
Qed.

Lemma resultTransactions_keeps t txs : forall i txIndex transactions,
  keeps Inv (resultTransactions env t txs i txIndex transactions).
Proof.
  induction txs as [|tx rest IH]; intros i txIndex transactions; simpl.
  - apply keeps_ret.
  - unfold index. repeat first [apply IH | keeps_step].
Qed.

Lemma blockTemplateResult_keeps : keeps Inv (blockTemplateResult env).
Proof.
  unfold blockTemplateResult. repeat first [apply resultTransactions_keeps | keeps_step].
Qed.

Lemma blockTemplateOrLongPollChan_keeps longPollID payAddr :
  keeps Inv (blockTemplateOrLongPollChan env longPollID payAddr).
Proof.
  unfold blockTemplateOrLongPollChan.
  repeat first [apply updateBlockTemplate_keeps | apply blockTemplateResult_keeps
               | keeps_step].
Qed.

Lemma handleGetBlockTemplateLongPoll_keeps longPollID payAddr :
  keeps Inv (handleGetBlockTemplateLongPoll env longPollID payAddr).
Proof.
  intros m Hm.
  pose proof (blockTemplateOrLongPollChan_keeps longPollID payAddr m Hm) as Hc.
  unfold handleGetBlockTemplateLongPoll.
  destruct (blockTemplateOrLongPollChan env longPollID payAddr m)
    as [m1 [[[result|] c]|err|msg]]; exact Hc.
Qed.

Lemma handleGetBlockTemplateLongPoll_wake_keeps payAddr w :
  keeps Inv (handleGetBlockTemplateLongPoll_wake env payAddr w).
Proof.
  unfold handleGetBlockTemplateLongPoll_wake.
  repeat first [apply updateBlockTemplate_keeps | apply blockTemplateResult_keeps
               | keeps_step].
Qed.

Lemma handleGetBlockTemplate_keeps cmd : keeps Inv (handleGetBlockTemplate env cmd).
Proof.
  unfold handleGetBlockTemplate, handleGetBlockTemplateRequest.
  repeat first [apply updateBlockTemplate_keeps | apply blockTemplateResult_keeps
               | apply handleGetBlockTemplateLongPoll_keeps | keeps_step].
Qed.

Lemma NotifyBlockAdded_keeps tips : keeps Inv (NotifyBlockAdded env tips).
Proof. unfold NotifyBlockAdded. repeat keeps_step. Qed.

Lemma NotifyMempoolTx_keeps lastUpdated : keeps Inv (NotifyMempoolTx env lastUpdated).
Proof. unfold NotifyMempoolTx. repeat keeps_step. Qed.

(** Every call keeps the invariant. *)
Lemma steps_keeps c m m' : Inv m -> steps env c m = Some m' -> Inv m'.
Proof.
  intros Hm. unfold steps, outcome.
  destruct c as [cmd|payAddr w|tips|lastUpdated|tips ts|tips t].
  - pose proof (handleGetBlockTemplate_keeps cmd m Hm) as Hc.
    destruct (handleGetBlockTemplate env cmd m) as [m1 [a|err|msg]];
      intros [= <-]; exact Hc.
  - pose proof (handleGetBlockTemplateLongPoll_wake_keeps payAddr w m Hm) as Hc.
    destruct (handleGetBlockTemplateLongPoll_wake env payAddr w m) as [m1 [a|err|msg]];
      intros [= <-]; exact Hc.
  - pose proof (NotifyBlockAdded_keeps tips m Hm) as Hc.
    destruct (NotifyBlockAdded env tips m) as [m1 [a|err|msg]];
      intros [= <-]; exact Hc.
  - pose proof (NotifyMempoolTx_keeps lastUpdated m Hm) as Hc.
    destruct (NotifyMempoolTx env lastUpdated m) as [m1 [a|err|msg]];
      intros [= <-]; exact Hc.
  - pose proof (Inv_subscribe tips ts m Hm) as Hc.
    destruct (templateUpdateChan tips ts m) as [m1 [a|err|msg]];
      intros [= <-]; exact Hc.
  - pose proof (Inv_notify tips t m Hm) as Hc.
    destruct (notifyLongPollers env tips t m) as [m1 [a|err|msg]];
      intros [= <-]; exact Hc.
Qed.
End Keeps.
End Invariant.

Section Reachable.
Context `{Wire}.

(** C9: the notify map of every reachable machine has no fingerprint
    with an empty set of signals.  The new machine has an empty notify
    map; templateUpdateChan adds a fingerprint only with the signal it
    returns, notifyLongPollers removes a fingerprint whose set of signals
    it has emptied, and the handlers and the notifications change the
    notify map through these two only. *)
Theorem notifyMap_no_empty_entry (m : Machine) :
  reachable m -> noEmptyEntry (notifyMap (state m)).
Proof.
  induction 1 as [|env c m m' Hrange Hreach IH Hstep].
  - intros fp inner Hfp. simpl in Hfp. rewrite lookup_empty in Hfp. discriminate.
  - eapply (steps_keeps env registryInv); [| | |exact IH|exact Hstep].
    + apply onNotifyMap_onRegistry, registryInv_onNotifyMap.
    + intros tips t. apply notifyLongPollers_registryInv.
    + intros tips ts. apply templateUpdateChan_registryInv.
Qed.
End Reachable.

(** ** The signals of reachable machines *)

Section Signals.
Context `{Wire}.

Lemma signalsWf_onRegistry : onRegistry signalsWf.
Proof.
  intros m m' Hnm Hcl Hnext (Hopen & Hdist & Hlt & Hclosed).
  unfold signalsWf, signalsOpen. rewrite Hnm, Hcl, Hnext. auto.
Qed.

(** templateUpdateChan returns the channel registered under the key, and
    registers a new channel when there is none. *)
Lemma templateUpdateChan_run tips ts m :
  let cur := JoinHashesStrings tips "" in
  let nm := notifyMap (state m) in
  templateUpdateChan tips ts m
  = match nm !! cur ≫= (fun channels => channels !! ts) with
    | Some c => (m, Ok c)
    | None =>
        ({| state := setNotifyMap
                       (fun _ => <[cur := <[ts := nextChan m]> (default ∅ (nm !! cur))]> nm)
                       (state m);
            closed := closed m; nextChan := Pos.succ (nextChan m);
            clockTicks := clockTicks m; rangeTicks := rangeTicks m |},
         Ok (nextChan m))
    end.
Proof.
  intros cur nm. unfold templateUpdateChan. fold cur.
  rewrite run_bind. unfold get at 1. cbv beta iota. fold nm.
  destruct (nm !! cur) as [channels|] eqn:Hcur; simpl.
  - rewrite run_bind, run_ret.
    destruct (channels !! ts) as [c|] eqn:Hts; [reflexivity|].
    unfold makeChan, modify. rewrite !run_bind. cbv beta iota. rewrite run_ret.
    unfold setState, setNotifyMap. simpl. do 3 f_equal.
    apply map_eq. intros fp. destruct (decide (fp = cur)) as [->|Hne].
    + rewrite lookup_alter_eq, lookup_insert_eq. fold nm. rewrite Hcur. reflexivity.
    + rewrite lookup_alter_ne, lookup_insert_ne by congruence. reflexivity.
  - unfold makeChan, modify. rewrite !run_bind. cbv beta iota. rewrite run_ret.
    rewrite lookup_empty. rewrite !run_bind. cbv beta iota. rewrite run_ret.
    unfold setState, setNotifyMap. simpl. do 3 f_equal.
    fold nm. rewrite alter_insert_eq. reflexivity.
Qed.

Lemma templateUpdateChan_signalsWf tips ts : keeps signalsWf (templateUpdateChan tips ts).
Proof.
  intros m (Hopen & Hdist & Hlt & Hclosed).
  pose proof (templateUpdateChan_run tips ts m) as Hrun. cbv zeta in Hrun.
  unfold hoare. rewrite Hrun. clear Hrun.
  set (cur := JoinHashesStrings tips ""). set (nm := notifyMap (state m)) in *.
  destruct (nm !! cur ≫= _) as [c|] eqn:Hkey;
    cbv beta iota; [unfold signalsWf; auto|].
  set (channels := default ∅ (nm !! cur)).
  assert (Hchannels : forall ts' c', channels !! ts' = Some c' ->
            exists inner, nm !! cur = Some inner /\ inner !! ts' = Some c').
  { intros ts' c' Hc'. unfold channels in Hc'.
    destruct (nm !! cur) as [inner|]; simpl in Hc'; [eauto|].
    rewrite lookup_empty in Hc'. discriminate. }
  assert (Hnew : forall fp inner' ts' c',
            <[cur := <[ts := nextChan m]> channels]> nm !! fp = Some inner' ->
            inner' !! ts' = Some c' ->
            (fp = cur /\ ts' = ts /\ c' = nextChan m)
            \/ (exists inner, nm !! fp = Some inner /\ inner !! ts' = Some c')).
  { intros fp inner' ts' c' Hfp Hc'.
    apply lookup_insert_Some in Hfp as [[<- <-]|[Hne Hfp]]; [|right; eauto].
    apply lookup_insert_Some in Hc' as [[<- <-]|[Hne Hc']]; [left; auto|].
    right. apply Hchannels. exact Hc'. }
  unfold signalsWf, signalsOpen. simpl. split; [|split; [|split]].
  - intros fp inner' ts' c' Hfp Hc' Hcl.
    destruct (Hnew _ _ _ _ Hfp Hc') as [(-> & -> & ->)|(inner & Hin & Hts)].
    + apply Hclosed in Hcl. lia.
    + eapply Hopen; eassumption.
  - intros fp1 inner1 ts1 fp2 inner2 ts2 c H1 H2 H3 H4.
    destruct (Hnew _ _ _ _ H1 H2) as [(-> & -> & ->)|(i1 & Hi1 & Ht1)];
      destruct (Hnew _ _ _ _ H3 H4) as [(-> & -> & Hc)|(i2 & Hi2 & Ht2)]; auto.
    + specialize (Hlt _ _ _ _ Hi2 Ht2). lia.
    + subst c. specialize (Hlt _ _ _ _ Hi1 Ht1). lia.
    + eapply Hdist; eassumption.
  - intros fp inner' ts' c' Hfp Hc'.
    destruct (Hnew _ _ _ _ Hfp Hc') as [(-> & -> & ->)|(inner & Hin & Hts)]; [lia|].
    specialize (Hlt _ _ _ _ Hin Hts). lia.
  - intros c Hc. apply Hclosed in Hc. lia.
Qed.

Section Notify.
Variable env : Env.
Hypothesis range_ok : rangeOrder_ok env.

Lemma notifyLongPollers_signalsWf tips t : keeps signalsWf (notifyLongPollers env tips t).
Proof.
  intros m (Hopen & Hdist & Hlt & Hclosed).
  destruct (notifyLongPollers_run env range_ok tips t m Hopen Hdist)
    as (cl & rt & Hrun & Hcl).
  unfold hoare. rewrite Hrun. clear Hrun.
  set (cur := JoinHashesStrings tips "") in *. set (nm := notifyMap (state m)) in *.
  unfold signalsWf, signalsOpen. simpl. split; [|split; [|split]].
  - intros fp inner' ts c Hfp Hc Hin.
    apply Hcl in Hin as [Hin|Hfired].
    + destruct (pollersLeft_registered _ _ _ _ _ _ _ Hfp Hc) as (_ & (inner & ? & ?) & _).
      eapply Hopen; eassumption.
    + eapply fired_not_left; [exact Hdist | exact Hfired|]. exists fp, inner', ts. auto.
  - intros fp1 inner1 ts1 fp2 inner2 ts2 c H1 H2 H3 H4.
    destruct (pollersLeft_registered _ _ _ _ _ _ _ H1 H2) as (-> & (i1 & Hi1 & Ht1) & _).
    destruct (pollersLeft_registered _ _ _ _ _ _ _ H3 H4) as (-> & (i2 & Hi2 & Ht2) & _).
    split; [reflexivity|]. exact (proj2 (Hdist _ _ _ _ _ _ _ Hi1 Ht1 Hi2 Ht2)).
  - intros fp inner' ts c Hfp Hc.
    destruct (pollersLeft_registered _ _ _ _ _ _ _ Hfp Hc) as (_ & (inner & ? & ?) & _).
    eapply Hlt; eassumption.
  - intros c [Hin|(fp & inner & ts & ? & ?)%fired_registered]%Hcl; [auto|].
    eapply Hlt; eassumption.
Qed.
End Notify.

(** The signals of every reachable machine are well formed. *)
Lemma reachable_signalsWf m : reachable m -> signalsWf m.
Proof.
  induction 1 as [|env c m m' Hrange Hreach IH Hstep].
  - unfold signalsWf, signalsOpen, signalsDistinct. simpl.
    repeat split; intros *; rewrite ?lookup_empty; discriminate.
  - eapply (steps_keeps env signalsWf); [| | |exact IH|exact Hstep].
    + apply signalsWf_onRegistry.
    + intros tips t. apply notifyLongPollers_signalsWf, Hrange.
    + intros tips ts. apply templateUpdateChan_signalsWf.
Qed.

(** In a reachable machine notifyLongPollers closes no channel twice: it
    returns, and the machine it leaves is reachable. *)
Lemma reachable_notifyLongPollers env tips t m :
  rangeOrder_ok env -> reachable m ->
  exists m', notifyLongPollers env tips t m = (m', Ok tt) /\ reachable m'.
Proof.
  intros Hrange Hreach.
  destruct (reachable_signalsWf m Hreach) as (Hopen & Hdist & _).
  destruct (notifyLongPollers_run env Hrange tips t m Hopen Hdist) as (cl & rt & Hrun & _).
  eexists. split; [exact Hrun|].
  apply (reachable_step env (callNotify tips t) m _ Hrange Hreach).
  simpl. rewrite Hrun. reflexivity.
Qed.
End Signals.

(** * Further properties *)

(** ** The fields of a long-poll ID *)

Section SplitMore.
Variable sep : ascii.

Lemma strings_Split_app a b :
  strings_Split (a +:+ String sep b) sep
  = (strings_Split a sep ++ strings_Split b sep)%list.
Proof.
  induction a as [|c r IH].
  - simpl. rewrite Ascii.eqb_refl. reflexivity.
  - change (String c r +:+ String sep b) with (String c (r +:+ String sep b)).
    simpl. rewrite IH. destruct (Ascii.eqb c sep); [reflexivity|].
    pose proof (strings_Split_nonempty sep r) as Hne.
    destruct (strings_Split r sep); [contradiction | reflexivity].
Qed.

Lemma strings_Split_length s :
  length (strings_Split s sep) = S (countByte s sep).
Proof.
  induction s as [|c r IH]; [reflexivity|].
  destruct (Ascii.eqb c sep) eqn:Hc.
  - simpl. rewrite Hc. simpl. rewrite IH. reflexivity.
  - rewrite strings_Split_length_cons by exact Hc. simpl. rewrite Hc. exact IH.
Qed.

Lemma strings_Split_one s : countByte s sep = 0%nat -> strings_Split s sep = [s].
Proof.
  induction s as [|c r IH]; [reflexivity|]. simpl.
  destruct (Ascii.eqb c sep); [discriminate|]. intros Hr. rewrite (IH Hr). reflexivity.
Qed.

Lemma strings_Split_one_inv s f : strings_Split s sep = [f] -> s = f /\ countByte f sep = 0%nat.
Proof.
  revert f. induction s as [|c r IH]; intros f; simpl.
  - intros [= <-]. auto.
  - destruct (Ascii.eqb c sep) eqn:Hc.
    + intros [= <- Hr]. exfalso. exact (strings_Split_nonempty sep r Hr).
    + destruct (strings_Split r sep) as [|g gs] eqn:Hr; [intros [= <-]|intros [= <- ->]].
      * exfalso. exact (strings_Split_nonempty sep r Hr).
      * destruct (IH g eq_refl) as [-> Hg]. simpl. rewrite Hc. auto.
Qed.

Lemma strings_Split_two_inv s p t :
  strings_Split s sep = [p; t] ->
  s = p +:+ String sep t /\ countByte p sep = 0%nat /\ countByte t sep = 0%nat.
Proof.
  revert p. induction s as [|c r IH]; intros p; simpl; [discriminate|].
  destruct (Ascii.eqb_spec c sep) as [->|Hc].
  - intros [= <- Hr]. apply strings_Split_one_inv in Hr as [-> Ht]. auto.
  - destruct (strings_Split r sep) as [|g gs] eqn:Hr; [discriminate|].
    intros [= <- ->]. destruct (IH g eq_refl) as (-> & Hg & Ht).
    repeat split; auto. simpl. rewrite (proj2 (Ascii.eqb_neq c sep) Hc). exact Hg.
Qed.

Lemma strings_Split_two p t :
  countByte p sep = 0%nat -> countByte t sep = 0%nat ->
  strings_Split (p +:+ String sep t) sep = [p; t].
Proof.
  intros Hp Ht. rewrite strings_Split_app, !strings_Split_one by assumption. reflexivity.
Qed.
End SplitMore.

Section ParseInt.
Lemma strconv_ParseInt_unfold s :
  strconv_ParseInt s
  = let '(neg, body) :=
      match s with
      | String c r => if Ascii.eqb c "+" then (false, r)
                      else if Ascii.eqb c "-" then (true, r) else (false, s)
      | EmptyString => (false, s)
      end in
    match body with
    | EmptyString => inl (numError "ParseInt" s "invalid syntax")
    | _ =>
        match parseDigits 0 body with
        | None => inl (numError "ParseInt" s "invalid syntax")
        | Some un =>
            let n := if neg then - un else un in
            if (int64_min <=? n) && (n <=? int64_max) then inr n
            else inl (numError "ParseInt" s "value out of range")
        end
    end.
Proof.
  destruct s as [|c r]; [reflexivity|].
  destruct c as [[] [] [] [] [] [] [] []]; reflexivity.
Qed.

Lemma digitValue_range c d : digitValue c = Some d -> 0 <= d <= 9.
Proof.
  unfold digitValue. destruct (_ && _) eqn:Hc; [|discriminate].
  intros [= <-]. apply andb_true_iff in Hc as [H1%Z.leb_le H2%Z.leb_le]. lia.
Qed.

Lemma parseDigits_nonneg s : forall acc v, 0 <= acc -> parseDigits acc s = Some v -> 0 <= v.
Proof.
  induction s as [|c r IH]; intros acc v Hacc; simpl.
  - intros [= <-]. exact Hacc.
  - destruct (digitValue c) as [d|] eqn:Hd; [|discriminate].
    apply digitValue_range in Hd. apply IH. lia.
Qed.

(** A text without a minus sign parses to a number that is not negative. *)
Lemma strconv_ParseInt_nonneg s n :
  countByte s "-" = 0%nat -> strconv_ParseInt s = inr n -> 0 <= n <= int64_max.
Proof.
  intros Hs. rewrite strconv_ParseInt_unfold.
  assert (Hbody : exists body,
            match s with
            | String c r => if Ascii.eqb c "+" then (false, r)
                            else if Ascii.eqb c "-" then (true, r) else (false, s)
            | EmptyString => (false, s)
            end = (false, body)).
  { destruct s as [|c r]; [eauto|]. simpl in Hs.
    destruct (Ascii.eqb c "+"); [eauto|].
    destruct (Ascii.eqb c "-"); [discriminate | eauto]. }
  destruct Hbody as [body ->].
  destruct body as [|c r]; [discriminate|].
  destruct (parseDigits 0 (String c r)) as [un|] eqn:Hun; [|discriminate].
  cbv zeta. destruct (_ && _) eqn:Hrange; [|discriminate].
  intros [= <-]. apply andb_true_iff in Hrange as [_ H2%Z.leb_le].
  split; [|exact H2]. eapply parseDigits_nonneg; [|exact Hun]. lia.
Qed.
End ParseInt.

Section Decimal.
(** The digits of a decimal numeral, read from an accumulator. *)
Lemma parseDigits_of_uint_acc d : forall acc,
  parseDigits (Z.pos acc) (DecimalString.NilEmpty.string_of_uint d) = Some (Z.pos (Pos.of_uint_acc d acc)).
Proof.
  induction d as [|d IH|d IH|d IH|d IH|d IH|d IH|d IH|d IH|d IH|d IH]; intros acc;
    [reflexivity|..];
    cbn [DecimalString.NilEmpty.string_of_uint parseDigits Pos.of_uint_acc];
    match goal with
    | |- context [digitValue ?c] =>
        let v := eval vm_compute in (digitValue c) in change (digitValue c) with v
    end;
    cbv beta iota; rewrite <- IH; f_equal; lia.
Qed.

Lemma parseDigits_of_uint d :
  parseDigits 0 (DecimalString.NilEmpty.string_of_uint d) = Some (Z.of_N (Pos.of_uint d)).
Proof.
  induction d as [|d IH|d IH|d IH|d IH|d IH|d IH|d IH|d IH|d IH|d IH];
    [reflexivity|exact IH|..];
    cbn [DecimalString.NilEmpty.string_of_uint parseDigits Pos.of_uint];
    match goal with
    | |- context [digitValue ?c] =>
        let v := eval vm_compute in (digitValue c) in change (digitValue c) with v
    end;
    cbv beta iota; apply parseDigits_of_uint_acc.
Qed.

Lemma string_of_uint_no_sign d (c : ascii) :
  digitValue c = None -> countByte (DecimalString.NilEmpty.string_of_uint d) c = 0%nat.
Proof.
  intros Hc.
  induction d as [|d IH|d IH|d IH|d IH|d IH|d IH|d IH|d IH|d IH|d IH];
    [reflexivity|..];
    cbn [DecimalString.NilEmpty.string_of_uint countByte]; rewrite IH;
    match goal with
    | |- context [Ascii.eqb ?k c] =>
        destruct (Ascii.eqb_spec k c) as [<-|_]; [discriminate Hc | reflexivity]
    end.
Qed.

Lemma string_of_uint_nonempty d : d <> Decimal.Nil -> DecimalString.NilEmpty.string_of_uint d <> "".
Proof. destruct d; [congruence | discriminate..]. Qed.

(** The decimal text of a positive number. *)
Lemma fmt_d_pos p : fmt_d (Z.pos p) = DecimalString.NilEmpty.string_of_uint (Pos.to_uint p).
Proof.
  unfold fmt_d. simpl. pose proof (DecimalPos.Unsigned.to_uint_nonnil p) as Hne.
  destruct (Pos.to_uint p); [congruence | reflexivity..].
Qed.

Lemma fmt_d_no_minus n : 0 <= n -> countByte (fmt_d n) "-" = 0%nat.
Proof.
  destruct n as [|p|p]; [reflexivity | | lia]. intros _.
  rewrite fmt_d_pos. apply string_of_uint_no_sign. reflexivity.
Qed.

Lemma parseDigits_to_uint p :
  parseDigits 0 (DecimalString.NilEmpty.string_of_uint (Pos.to_uint p)) = Some (Z.pos p).
Proof. rewrite parseDigits_of_uint, DecimalPos.Unsigned.of_to. reflexivity. Qed.

(** strconv.ParseInt reads back what the verb %d prints, for every
    number of 64 bits. *)
Lemma strconv_ParseInt_fmt_d n :
  int64_min <= n <= int64_max -> strconv_ParseInt (fmt_d n) = inr n.
Proof.
  intros Hrange. destruct n as [|p|p]; [reflexivity| |].
  - rewrite fmt_d_pos, strconv_ParseInt_unfold.
    pose proof (string_of_uint_no_sign (Pos.to_uint p) "-" eq_refl) as Hminus.
    pose proof (string_of_uint_no_sign (Pos.to_uint p) "+" eq_refl) as Hplus.
    pose proof (string_of_uint_nonempty _ (DecimalPos.Unsigned.to_uint_nonnil p)) as Hne.
    pose proof (parseDigits_to_uint p) as Hdigits.
    destruct (DecimalString.NilEmpty.string_of_uint (Pos.to_uint p)) as [|c r]; [congruence|].
    simpl in Hminus, Hplus.
    destruct (Ascii.eqb c "+"); [discriminate|].
    destruct (Ascii.eqb c "-"); [discriminate|].
    rewrite Hdigits. cbv zeta.
    rewrite (proj2 (andb_true_iff _ _)); [reflexivity|].
    split; apply Z.leb_le; lia.
  - unfold fmt_d. simpl Z.to_int. cbn [DecimalString.NilZero.string_of_int].
    rewrite strconv_ParseInt_unfold.
    change (Ascii.eqb "-" "+") with false. change (Ascii.eqb "-" "-") with true.
    cbv beta iota.
    pose proof (DecimalPos.Unsigned.to_uint_nonnil p) as Hnil.
    assert (Hsame : DecimalString.NilZero.string_of_uint (Pos.to_uint p)
                    = DecimalString.NilEmpty.string_of_uint (Pos.to_uint p))
      by (destruct (Pos.to_uint p); [congruence | reflexivity..]).
    rewrite Hsame.
    pose proof (string_of_uint_nonempty _ Hnil) as Hne.
    pose proof (parseDigits_to_uint p) as Hdigits.
    destruct (DecimalString.NilEmpty.string_of_uint (Pos.to_uint p)) as [|c r]; [congruence|].
    rewrite Hdigits. cbv zeta.
    rewrite (proj2 (andb_true_iff _ _)); [reflexivity|].
    split; apply Z.leb_le; simpl; lia.
Qed.
End Decimal.

Lemma length_append (a b : string) :
  String.length (a +:+ b) = (String.length a + String.length b)%nat.
Proof. induction a as [|c a IH]; simpl; [reflexivity | rewrite IH; reflexivity]. Qed.

Section CodecMore.
Context `{Wire}.

Lemma decodeParentHashes_error s : forall fuel i acc err,
  decodeParentHashes fuel s i acc = inl err ->
  exists text, err = errorString ("decodeLongPollID: NewHashFromStr: " +:+ text).
Proof.
  induction fuel as [|fuel IH]; intros i acc err; simpl; [discriminate|].
  destruct (i <? String.length s)%nat; [|discriminate].
  destruct (NewHashFromStr _) as [e|hash]; [intros [= <-]; eauto | apply IH].
Qed.

(** The loop of the decoder reads one hash from every HashSize bytes. *)
Lemma decodeParentHashes_inr s : forall fuel i acc hs q,
  (String.length s - i <= fuel)%nat ->
  String.length s = (i + q * HashSize)%nat ->
  decodeParentHashes fuel s i acc = inr hs <->
  exists new, hs = (acc ++ new)%list /\ length new = q
    /\ forall k h, new !! k = Some h ->
         NewHashFromStr (substring (i + k * HashSize) HashSize s) = inr h.
Proof.
  induction fuel as [|fuel IH]; intros i acc hs q Hfuel Hlen; simpl.
  - assert (q = 0%nat) as -> by (unfold HashSize in Hlen; lia).
    split.
    + intros [= <-]. exists []. rewrite app_nil_r. split; [reflexivity|].
      split; [reflexivity|]. intros k h Hk. rewrite lookup_nil in Hk. discriminate.
    + intros (new & -> & Hnew & _). destruct new; [|discriminate].
      rewrite app_nil_r. reflexivity.
  - destruct (Nat.ltb_spec i (String.length s)) as [Hlt|Hge].
    + destruct q as [|q]; [lia|].
      unfold slice. replace (i + HashSize - i)%nat with HashSize by lia.
      destruct (NewHashFromStr (substring i HashSize s)) as [e|hash] eqn:Hhash.
      * split; [discriminate|].
        intros (new & _ & Hnew & Hall). destruct new as [|h new]; [discriminate|].
        specialize (Hall 0%nat h eq_refl). rewrite Nat.add_0_r in Hall. congruence.
      * assert (Hfuel' : (String.length s - (i + HashSize) <= fuel)%nat)
          by (unfold HashSize; lia).
        assert (Hlen' : String.length s = (i + HashSize + q * HashSize)%nat)
          by (rewrite Hlen; unfold HashSize; lia).
        rewrite (IH (i + HashSize)%nat (acc ++ [hash])%list hs q Hfuel' Hlen').
        split.
        -- intros (new & -> & Hnew & Hall). exists (hash :: new).
           rewrite <- app_assoc. split; [reflexivity|]. split; [simpl; lia|].
           intros [|k] h Hk; simpl in Hk.
           ++ injection Hk as <-. rewrite Nat.add_0_r. exact Hhash.
           ++ replace (i + S k * HashSize)%nat with (i + HashSize + k * HashSize)%nat
                by (unfold HashSize; lia).
              exact (Hall k h Hk).
        -- intros (new & -> & Hnew & Hall). destruct new as [|h new]; [discriminate|].
           assert (h = hash) as ->.
           { specialize (Hall 0%nat h eq_refl). rewrite Nat.add_0_r in Hall. congruence. }
           exists new. rewrite <- app_assoc. split; [reflexivity|].
           split; [simpl in Hnew; lia|].
           intros k h Hk.
           replace (i + HashSize + k * HashSize)%nat with (i + S k * HashSize)%nat
             by (unfold HashSize; lia).
           exact (Hall (S k) h Hk).
    + assert (q = 0%nat) as -> by (unfold HashSize in Hlen; lia).
      split.
      * intros [= <-]. exists []. rewrite app_nil_r. split; [reflexivity|].
        split; [reflexivity|]. intros k h Hk. rewrite lookup_nil in Hk. discriminate.
      * intros (new & -> & Hnew & _). destruct new; [|discriminate].
        rewrite app_nil_r. reflexivity.
Qed.

(** X1: decodeLongPollID rejects an ID with its error on the number of fields
    exactly when the ID does not have one minus sign: the empty ID, an ID
    without a minus sign, and an ID with two or more, be it for a
    negative time. *)
Theorem decodeLongPollID_field_count (longPollID : string) :
  decodeLongPollID longPollID
  = inl (errorString "decodeLongPollID: invalid number of fields")
  <-> countByte longPollID "-" <> 1%nat.
Proof.
  pose proof (strings_Split_length "-" longPollID) as Hlen.
  unfold decodeLongPollID.
  destruct (strings_Split longPollID "-") as [|p [|t [|f fs]]]; simpl in Hlen.
  - split; [intros _; lia | reflexivity].
  - split; [intros _; lia | reflexivity].
  - split; [|intros Hne; lia]. intros Hrun. exfalso.
    destruct (negb _); [discriminate|].
    destruct (decodeParentHashes _ _ _ _) as [err|hs] eqn:Hdec.
    + apply decodeParentHashes_error in Hdec as [text ->]. discriminate.
    + destruct (strconv_ParseInt t); discriminate.
  - split; [intros _; lia | reflexivity].
Qed.

(** X2: what decodeLongPollID accepts, and what it returns for it. *)
Theorem decodeLongPollID_accepts (longPollID : string) (hs : list Hash) (n : Z) :
  decodeLongPollID longPollID = inr (hs, n)
  <-> exists p t,
        longPollID = p +:+ "-" +:+ t
        /\ countByte p "-" = 0%nat /\ countByte t "-" = 0%nat
        /\ String.length p = (length hs * HashSize)%nat
        /\ (forall k h, hs !! k = Some h ->
              NewHashFromStr (substring (k * HashSize) HashSize p) = inr h)
        /\ strconv_ParseInt t = inr n.
Proof.
  split.
  - unfold decodeLongPollID.
    destruct (strings_Split longPollID "-") as [|p [|t [|f fs]]] eqn:Hsplit; try discriminate.
    apply strings_Split_two_inv in Hsplit as (-> & Hp & Ht).
    destruct (Nat.eqb_spec (String.length p mod HashSize) 0) as [Hmod|Hmod];
      [|discriminate]. cbn [negb].
    destruct (decodeParentHashes _ _ _ _) as [err|hs'] eqn:Hdec; [discriminate|].
    destruct (strconv_ParseInt t) as [err|n'] eqn:Hts; [discriminate|].
    intros [= <- <-]. exists p, t.
    apply Nat.Div0.div_exact in Hmod.
    assert (Hq : String.length p = (0 + String.length p / HashSize * HashSize)%nat)
      by (rewrite Nat.add_0_l, Nat.mul_comm; exact Hmod).
    apply (decodeParentHashes_inr p (String.length p) 0%nat [] hs' _
             (Nat.le_sub_l _ _) Hq) in Hdec
      as (new & -> & Hnew & Hall).
    change ([] ++ new)%list with new.
    split; [reflexivity|]. split; [exact Hp|]. split; [exact Ht|].
    split; [rewrite Hnew, Nat.mul_comm; exact Hmod|].
    split; [exact Hall | exact Hts].
  - intros (p & t & -> & Hp & Ht & Hlen & Hall & Hts).
    unfold decodeLongPollID.
    change ("-" +:+ t) with (String "-" t).
    rewrite strings_Split_two by assumption.
    rewrite Hlen, Nat.Div0.mod_mul. cbn [negb Nat.eqb].
    rewrite <- Hlen.
    rewrite (proj2 (decodeParentHashes_inr p (String.length p) 0%nat [] hs (length hs)
                      (Nat.le_sub_l _ _) Hlen)).
    + rewrite Hts. reflexivity.
    + exists hs. split; [reflexivity|]. split; [reflexivity | exact Hall].
Qed.

(** X3: the time decodeLongPollID returns is never negative: the sign of a
    negative time is one more separator. *)
Theorem decodeLongPollID_time_not_negative (longPollID : string) (hs : list Hash) (n : Z) :
  decodeLongPollID longPollID = inr (hs, n) -> 0 <= n <= int64_max.
Proof.
  unfold decodeLongPollID.
  destruct (strings_Split longPollID "-") as [|p [|t [|f fs]]] eqn:Hsplit; try discriminate.
  apply strings_Split_two_inv in Hsplit as (_ & _ & Ht).
  destruct (negb _); [discriminate|].
  destruct (decodeParentHashes _ _ _ _); [discriminate|].
  destruct (strconv_ParseInt t) as [err|n'] eqn:Hts; [discriminate|].
  intros [= _ <-]. eapply strconv_ParseInt_nonneg; eassumption.
Qed.
End CodecMore.

Section CodecTime.
Context `{Wire}.

(** X4: the last field of the ID encodeLongPollID mints for a time at or
    after the epoch is the decimal text of its Unix seconds, and
    strconv.ParseInt, which the decoder calls on the time field, reads
    these seconds back from it. *)
Theorem encodeLongPollID_time_field (h : list Hash) (a : option Address) (t : Time) :
  0 <= UnixSeconds t <= int64_max ->
  exists fields,
    strings_Split (encodeLongPollID h a t) "-"
    = (fields ++ [fmt_d (UnixSeconds t)])%list
    /\ (2 <= length fields)%nat
    /\ strconv_ParseInt (fmt_d (UnixSeconds t)) = inr (UnixSeconds t).
Proof.
  intros Hrange.
  exists (strings_Split (JoinHashesStrings h "") "-" ++ strings_Split (fmt_s_Address a) "-")%list.
  split; [|split].
  - unfold encodeLongPollID.
    do 2 (change ("-" +:+ ?x) with (String "-" x); rewrite strings_Split_app).
    rewrite (strings_Split_one "-" (fmt_d (UnixSeconds t)))
      by (apply fmt_d_no_minus; lia).
    rewrite app_assoc. reflexivity.
  - rewrite length_app.
    pose proof (strings_Split_length_pos "-" (JoinHashesStrings h "")).
    pose proof (strings_Split_length_pos "-" (fmt_s_Address a)). lia.
  - apply strconv_ParseInt_fmt_d. unfold int64_min. lia.
Qed.

Lemma JoinHashesStrings_length (hs : list Hash) (w : nat) :
  (forall h, h ∈ hs -> String.length (HashString h) = w) ->
  String.length (JoinHashesStrings hs "") = (length hs * w)%nat.
Proof.
  induction hs as [|h [|h' r] IH]; intros Hw.
  - reflexivity.
  - simpl. rewrite (Hw h) by left. lia.
  - change (JoinHashesStrings (h :: h' :: r) "")
      with (HashString h +:+ "" +:+ JoinHashesStrings (h' :: r) "").
    rewrite !length_append, IH by (intros x Hx; apply Hw; right; exact Hx).
    rewrite (Hw h) by left. simpl. lia.
Qed.

(** X5: an ID of the layout the decoder documents, the strings of the
    hashes followed by the seconds, does not decode to the hashes it was
    written from: a hash prints as twice HashSize characters, and the
    decoder reads a hash from every HashSize characters, so it returns two
    hashes for every hash of the ID.  The seconds are read back. *)
Theorem decodeLongPollID_splits_hashes (hs hs' : list Hash) (n n' : Z) :
  (forall h, h ∈ hs -> String.length (HashString h) = (2 * HashSize)%nat) ->
  0 <= n <= int64_max ->
  decodeLongPollID (JoinHashesStrings hs "" +:+ "-" +:+ fmt_d n) = inr (hs', n') ->
  n' = n /\ length hs' = (2 * length hs)%nat.
Proof.
  intros Hw Hn. unfold decodeLongPollID.
  change ("-" +:+ ?x) with (String "-" x). rewrite strings_Split_app.
  rewrite (strings_Split_one "-" (fmt_d n)) by (apply fmt_d_no_minus; lia).
  destruct (strings_Split (JoinHashesStrings hs "") "-") as [|p [|f fs]] eqn:Hsplit;
    [discriminate| |destruct fs; discriminate].
  apply strings_Split_one_inv in Hsplit as [<- _]. cbn [app].
  destruct (Nat.eqb_spec (String.length (JoinHashesStrings hs "") mod HashSize) 0)
    as [_|Hmod]; [|discriminate]. cbn [negb].
  destruct (decodeParentHashes _ _ _ _) as [err|decoded] eqn:Hdec; [discriminate|].
  rewrite strconv_ParseInt_fmt_d by (unfold int64_min; lia).
  intros [= <- <-]. split; [reflexivity|].
  pose proof (JoinHashesStrings_length hs _ Hw) as Hlen.
  assert (Hq : String.length (JoinHashesStrings hs "")
               = (0 + 2 * length hs * HashSize)%nat) by (rewrite Hlen; lia).
  apply (decodeParentHashes_inr _ _ 0%nat [] decoded _ (Nat.le_sub_l _ _) Hq) in Hdec
    as (new & -> & Hnew & _).
  exact Hnew.
Qed.
End CodecTime.

(** ** The reply, continued *)

Section Hex.
Lemma hexDigit_fromHexChar n : (n < 16)%N -> fromHexChar (hexDigit n) = Some n.
Proof.
  intros Hn.
  assert (Hcases : n ∈ [0;1;2;3;4;5;6;7;8;9;10;11;12;13;14;15]%N).
  { destruct n as [|[[[[?|?|]|[?|?|]|]|[[?|?|]|[?|?|]|]|]|[[[?|?|]|[?|?|]|]|[[?|?|]|[?|?|]|]|]|]];
      try (exfalso; lia); set_solver. }
  repeat (apply elem_of_cons in Hcases as [->|Hcases]; [reflexivity|]).
  inversion Hcases.
Qed.

(** hex.DecodeString reads back what hex.EncodeToString writes. *)
Lemma hex_DecodeString_EncodeToString (src : list Byte.byte) :
  hex_DecodeString (hex_EncodeToString src) = Some src.
Proof.
  induction src as [|b r IH]; [reflexivity|].
  cbn [hex_EncodeToString hex_DecodeString]. rewrite IH.
  pose proof (Byte.to_N_bounded b) as Hb.
  rewrite !hexDigit_fromHexChar
    by (try apply N.mod_lt; try apply N.Div0.div_lt_upper_bound; lia).
  replace (16 * (Byte.to_N b / 16) + Byte.to_N b mod 16)%N with (Byte.to_N b)
    by (rewrite (N.div_mod (Byte.to_N b) 16) at 1; lia).
  rewrite Byte.of_to_N. reflexivity.
Qed.
End Hex.

Section AssemblerMore.
Context `{Wire}.
Variable env : Env.

Lemma sameButRange_refl m : sameButRange m m.
Proof. repeat split. Qed.

Lemma sameButRange_trans m1 m2 m3 :
  sameButRange m1 m2 -> sameButRange m2 m3 -> sameButRange m1 m3.
Proof. intros (?&?&?&?) (?&?&?&?). repeat split; congruence. Qed.

(** The loop of blockTemplateResult changes nothing of the machine but
    the count of range statements, however it ends. *)
Lemma resultTransactions_frame t txs : forall i txIndex acc m,
  sameButRange m (resultTransactions env t txs i txIndex acc m).1.
Proof.
  induction txs as [|tx rest IH]; intros i txIndex acc m; simpl.
  - apply sameButRange_refl.
  - rewrite run_bind. unfold range at 1. cbv beta iota.
    set (m1 := {| state := state m; closed := closed m; nextChan := nextChan m;
                  clockTicks := clockTicks m; rangeTicks := S (rangeTicks m) |}).
    assert (Hm1 : sameButRange m m1) by (repeat split).
    destruct (Serialize tx) as [err|txBuf]; [exact Hm1|].
    rewrite run_bind. unfold index at 1.
    destruct (TxMasses t !! i) as [mass|]; [|exact Hm1]. rewrite run_ret.
    rewrite run_bind. unfold index at 1.
    destruct (Fees t !! i) as [fee|]; [|exact Hm1]. rewrite run_ret.
    eapply sameButRange_trans; [exact Hm1 | apply IH].
Qed.

Lemma blockTemplateResult_frame m : sameButRange m (blockTemplateResult env m).1.
Proof.
  unfold blockTemplateResult. rewrite run_bind. unfold get at 1. cbv beta iota.
  destruct (template (state m)) as [t|]; [|apply sameButRange_refl].
  destruct (After _ _); [apply sameButRange_refl|].
  destruct (length (Transactions (Block t)) =? 0)%nat; [apply sameButRange_refl|].
  rewrite run_bind.
  pose proof (resultTransactions_frame t (Transactions (Block t)) 0 ∅ [] m) as Hloop.
  destruct (resultTransactions env t (Transactions (Block t)) 0 ∅ [] m)
    as [m1 [txs|err|msg]]; exact Hloop.
Qed.

(** The loop returns when every transaction it visits has a mass, a fee
    and a serialization, and only then; it returns one entry more for every
    transaction. *)
Lemma resultTransactions_Ok t txs : forall i txIndex acc m,
  (forall k tx, txs !! k = Some tx ->
     is_Some (TxMasses t !! (i + k)%nat) /\ is_Some (Fees t !! (i + k)%nat)
     /\ exists txBuf, Serialize tx = inr txBuf) ->
  exists m' out,
    resultTransactions env t txs i txIndex acc m = (m', Ok out)
    /\ length out = (length acc + length txs)%nat.
Proof.
  induction txs as [|tx rest IH]; intros i txIndex acc m Hall; simpl.
  - exists m, acc. rewrite run_ret. split; [reflexivity | lia].
  - destruct (Hall 0%nat tx eq_refl) as ([mass Hmass] & [fee Hfee] & [txBuf Hser]).
    rewrite Nat.add_0_r in Hmass, Hfee.
    rewrite run_bind. unfold range at 1. cbv beta iota. rewrite Hser.
    rewrite run_bind. unfold index. rewrite Hmass, run_ret, run_bind, Hfee, run_ret.
    edestruct (IH (S i)) as (m' & out & Hrun & Hlen).
    { intros k tx' Hk. replace (S i + k)%nat with (i + S k)%nat by lia.
      apply Hall. exact Hk. }
    exists m', out. split; [exact Hrun|]. rewrite Hlen, length_app. simpl. lia.
Qed.

Lemma resultTransactions_Ok_inv t txs : forall i txIndex acc m m' out,
  resultTransactions env t txs i txIndex acc m = (m', Ok out) ->
  forall k tx, txs !! k = Some tx ->
     is_Some (TxMasses t !! (i + k)%nat) /\ is_Some (Fees t !! (i + k)%nat)
     /\ exists txBuf, Serialize tx = inr txBuf.
Proof.
  induction txs as [|tx rest IH]; intros i txIndex acc m m' out Hrun k tx' Hk.
  - rewrite lookup_nil in Hk. discriminate.
  - simpl in Hrun.
    apply run_bind_Ok in Hrun as (depends & m1 & _ & Hrun).
    destruct (Serialize tx) as [err|txBuf] eqn:Hser; [discriminate|].
    apply run_bind_Ok in Hrun as (mass & m2 & Hmass & Hrun).
    apply run_index_Ok in Hmass as [-> Hmass].
    apply run_bind_Ok in Hrun as (fee & m3 & Hfee & Hrun).
    apply run_index_Ok in Hfee as [-> Hfee].
    destruct k as [|k].
    + injection Hk as <-. rewrite Nat.add_0_r. eauto.
    + replace (i + S k)%nat with (S i + k)%nat by lia.
      eapply IH; [exact Hrun | exact Hk].
Qed.

(** The errors of the loop: the first transaction that does not
    serialize. *)
Lemma resultTransactions_Fail t txs : forall i txIndex acc m m' e,
  resultTransactions env t txs i txIndex acc m = (m', Fail e) ->
  exists tx err, tx ∈ txs /\ Serialize tx = inl err
    /\ e = internalRPCError (Error err) "Failed to serialize transaction".
Proof.
  induction txs as [|tx rest IH]; intros i txIndex acc m m' e Hrun; simpl in Hrun.
  - rewrite run_ret in Hrun. discriminate.
  - rewrite run_bind in Hrun. unfold range at 1 in Hrun. cbv beta iota in Hrun.
    destruct (Serialize tx) as [err|txBuf] eqn:Hser.
    + injection Hrun as _ <-. exists tx, err. split; [left | auto].
    + rewrite run_bind in Hrun. unfold index at 1 in Hrun.
      destruct (TxMasses t !! i); [|discriminate]. rewrite run_ret in Hrun.
      rewrite run_bind in Hrun. unfold index at 1 in Hrun.
      destruct (Fees t !! i); [|discriminate]. rewrite run_ret in Hrun.
      apply IH in Hrun as (tx' & err & Hin & Herr & He).
      exists tx', err. split; [right; exact Hin | auto].
Qed.

(** X6: blockTemplateResult reads the work state and writes nothing:
    whether it returns a reply, returns an error or panics, the work
    state, the closed channels, the next channel and the clock are those
    it started with. *)
Theorem blockTemplateResult_read_only (m : Machine) :
  state (blockTemplateResult env m).1 = state m
  /\ closed (blockTemplateResult env m).1 = closed m
  /\ nextChan (blockTemplateResult env m).1 = nextChan m
  /\ clockTicks (blockTemplateResult env m).1 = clockTicks m.
Proof. exact (blockTemplateResult_frame m). Qed.

(** X7: blockTemplateResult returns a reply exactly when the state has a
    template whose time is not after the adjusted time of the DAG plus the
    tolerated deviation, that has at least one transaction, and a mass, a
    fee and a serialization for every transaction. *)
Theorem blockTemplateResult_returns (m : Machine) :
  (exists m' r, blockTemplateResult env m = (m', Ok r))
  <-> exists t, template (state m) = Some t
        /\ Timestamp (Header (Block t))
           <= Now env + TimestampDeviationTolerance env
        /\ Transactions (Block t) <> []
        /\ templateComplete t.
Proof.
  unfold blockTemplateResult. rewrite run_bind. unfold get at 1. cbv beta iota.
  destruct (template (state m)) as [t|]; [|split; [intros (?&?&?)|intros (?&?&?)]; discriminate].
  unfold After, Add, Millisecond. rewrite Z.mul_1_l.
  destruct (Z.ltb_spec (Now env + TimestampDeviationTolerance env)
              (Timestamp (Header (Block t)))) as [Hafter|Hok].
  { split; [intros (?&?&?); discriminate|].
    intros (t' & [= <-] & Hle & _). lia. }
  destruct (Transactions (Block t)) as [|tx0 rest] eqn:Htxs.
  { split; [intros (?&?&?); discriminate|].
    intros (t' & [= <-] & _ & Hne & _). rewrite Htxs in Hne. contradiction. }
  cbn [length Nat.eqb]. rewrite run_bind. split.
  - intros (m' & r & Hrun).
    destruct (resultTransactions env t (tx0 :: rest) 0 ∅ [] m) as [m1 [out|e|msg]] eqn:Hloop;
      [|discriminate..].
    exists t. split; [reflexivity|]. split; [exact Hok|]. split; [rewrite Htxs; discriminate|].
    intros j tx Hj. rewrite Htxs in Hj.
    exact (resultTransactions_Ok_inv _ _ _ _ _ _ _ _ Hloop j tx Hj).
  - intros (t' & [= <-] & _ & _ & Hcomplete).
    edestruct (resultTransactions_Ok t (tx0 :: rest) 0 ∅ [] m) as (m' & out & Hloop & _).
    { intros k tx Hk. apply Hcomplete. rewrite Htxs. exact Hk. }
    rewrite Hloop, run_ret. eauto.
Qed.

(** X8: the errors blockTemplateResult returns: the out-of-range error when
    the time of the template is after the maximum allowed time, and the
    internal error with the text of the serializer when a transaction does
    not serialize. *)
Theorem blockTemplateResult_errors (m m' : Machine) (e : handlerError) :
  blockTemplateResult env m = (m', Fail e) ->
  exists t, template (state m) = Some t
    /\ ((Now env + TimestampDeviationTolerance env < Timestamp (Header (Block t))
         /\ m' = m /\ exists msg, e = RPCError ErrRPCOutOfRange msg)
        \/ (Timestamp (Header (Block t)) <= Now env + TimestampDeviationTolerance env
            /\ exists tx err, tx ∈ Transactions (Block t) /\ Serialize tx = inl err
                 /\ e = RPCError ErrRPCInternal (Error err))).
Proof.
  unfold blockTemplateResult. rewrite run_bind. unfold get at 1. cbv beta iota.
  destruct (template (state m)) as [t|]; [|discriminate].
  unfold After, Add, Millisecond. rewrite Z.mul_1_l.
  destruct (Z.ltb_spec (Now env + TimestampDeviationTolerance env)
              (Timestamp (Header (Block t)))) as [Hafter|Hok].
  { intros [= <- <-]. exists t. split; [reflexivity|]. left. eauto. }
  destruct (length (Transactions (Block t)) =? 0)%nat; [discriminate|].
  rewrite run_bind.
  destruct (resultTransactions env t _ 0 ∅ [] m) as [m1 [out|e'|msg]] eqn:Hloop;
    [rewrite run_ret; discriminate| |discriminate].
  intros [= <- <-]. exists t. split; [reflexivity|]. right. split; [exact Hok|].
  apply resultTransactions_Fail in Hloop as (tx & err & Hin & Hser & ->). eauto.
Qed.
End AssemblerMore.

Section Depends.
Context `{Wire}.
Variable env : Env.
Hypothesis range_ok : rangeOrder_ok env.

Lemma txIndex_exact_insert t i txIndex tx :
  NoDup (map TxID (Transactions (Block t))) ->
  txIndex_exact t i txIndex ->
  Transactions (Block t) !! i = Some tx ->
  txIndex_exact t (S i) (<[TxID tx := Z.of_nat i]> txIndex).
Proof.
  intros Hnd Hidx Htx id idx. split.
  - intros Hlook. destruct (decide (TxID tx = id)) as [<-|Hne].
    + rewrite lookup_insert_eq in Hlook. injection Hlook as <-.
      exists i, tx. repeat split; auto.
    + rewrite lookup_insert_ne in Hlook by exact Hne.
      apply Hidx in Hlook as (k & txk & -> & Hk & Hat & Hid).
      exists k, txk. repeat split; auto.
  - intros (k & txk & -> & Hk & Hat & Hid).
    destruct (decide (k = i)) as [->|Hki].
    + assert (txk = tx) as -> by congruence. subst id. apply lookup_insert_eq.
    + destruct (decide (TxID tx = id)) as [Heq|Hne].
      * exfalso. apply Hki.
        eapply (NoDup_lookup _ k i id Hnd); rewrite list_lookup_fmap.
        -- rewrite Hat. simpl. congruence.
        -- rewrite Htx. simpl. congruence.
      * rewrite lookup_insert_ne by exact Hne. apply Hidx.
        exists k, txk. repeat split; auto. lia.
Qed.

Lemma resultTransactions_dependsExact t txs : forall i txIndex acc m m' out,
  NoDup (map TxID (Transactions (Block t))) ->
  drop i (Transactions (Block t)) = txs ->
  length acc = i ->
  txIndex_exact t i txIndex ->
  (forall j rtx, acc !! j = Some rtx -> dependsExact t j rtx) ->
  resultTransactions env t txs i txIndex acc m = (m', Ok out) ->
  forall j rtx, out !! j = Some rtx -> dependsExact t j rtx.
Proof.
  induction txs as [|tx rest IH];
    intros i txIndex acc m m' out Hnd Hdrop Hlen Hidx Hacc Hrun.
  - simpl in Hrun. rewrite run_ret in Hrun. injection Hrun as <- <-. exact Hacc.
  - simpl in Hrun.
    apply run_bind_Ok in Hrun as (depends & m1 & Hrange & Hrun).
    unfold range in Hrange. injection Hrange as <- <-.
    destruct (Serialize tx) as [err|txBuf] eqn:Hser; [discriminate|].
    apply run_bind_Ok in Hrun as (mass & m2 & Hmass & Hrun).
    apply run_index_Ok in Hmass as [-> Hmass].
    apply run_bind_Ok in Hrun as (fee & m3 & Hfee & Hrun).
    apply run_index_Ok in Hfee as [-> Hfee].
    assert (Htx : Transactions (Block t) !! i = Some tx).
    { rewrite <- (Nat.add_0_r i), <- lookup_drop, Hdrop. reflexivity. }
    assert (Hnext : txIndex_exact t (S i) (<[TxID tx := Z.of_nat i]> txIndex))
      by (apply txIndex_exact_insert; assumption).
    eapply IH; [exact Hnd | | | exact Hnext | | exact Hrun].
    + rewrite (drop_S _ _ _ Htx) in Hdrop. congruence.
    + rewrite length_app. simpl. lia.
    + intros j rtx Hj.
      destruct (decide (j < length acc)%nat) as [Hlt|Hge].
      { rewrite lookup_app_l in Hj by exact Hlt. auto. }
      rewrite lookup_app_r in Hj by lia.
      destruct (j - length acc)%nat as [|n] eqn:Hjn; [|destruct n; discriminate].
      assert (j = i) as -> by lia.
      injection Hj as <-. intros d. simpl.
      rewrite (range_ok (rangeTicks m) Z _), elem_of_elements, dependsMapOf_elem.
      split.
      * intros (txIn & Hin & Hlook).
        apply Hnext in Hlook as (k & txk & -> & Hk & Hat & Hid).
        exists k, txk, tx, txIn. repeat split; auto. lia.
      * intros (k & txk & tx' & txIn & -> & Hk & Hat & Htx' & Hin & Hprev).
        assert (tx' = tx) as -> by congruence.
        exists txIn. split; [exact Hin|]. apply Hnext.
        exists k, txk. repeat split; auto. lia.
Qed.

(** X9: Depends is complete.  In the reply for a template whose
    transactions have distinct ids and do not spend themselves, the field
    Depends of the entry of index [j] holds exactly the indices of the
    transactions before [j] that an input of transaction [j] spends. *)
Theorem depends_exact (m m' : Machine) (r : GetBlockTemplateResult) (t : BlockTemplate) :
  template (state m) = Some t ->
  NoDup (map TxID (Transactions (Block t))) ->
  noSelfSpend (Transactions (Block t)) ->
  blockTemplateResult env m = (m', Ok r) ->
  forall j rtx tx,
    ResultTransactions r !! j = Some rtx ->
    Transactions (Block t) !! j = Some tx ->
    forall d, d ∈ Depends rtx <->
      exists k txk txIn,
        d = Z.of_nat k /\ (k < j)%nat
        /\ Transactions (Block t) !! k = Some txk
        /\ txIn ∈ MsgTx_TxIn tx
        /\ OutpointTxID (PreviousOutpoint txIn) = TxID txk.
Proof.
  intros Ht Hnd Hself Hrun j rtx tx Hj Htx d.
  unfold blockTemplateResult in Hrun. rewrite run_bind in Hrun.
  unfold get at 1 in Hrun. cbv beta iota in Hrun. rewrite Ht in Hrun.
  destruct (After _ _); [discriminate|].
  destruct (length (Transactions (Block t)) =? 0)%nat; [discriminate|].
  apply run_bind_Ok in Hrun as (txs & m1 & Hloop & Hret).
  rewrite run_ret in Hret. injection Hret as <- <-. simpl in Hj.
  eapply resultTransactions_dependsExact in Hloop; [| exact Hnd | reflexivity | reflexivity | | | exact Hj].
  - rewrite (Hloop d). split.
    + intros (k & txk & tx' & txIn & -> & Hk & Hat & Htx' & Hin & Hprev).
      assert (tx' = tx) as -> by congruence.
      exists k, txk, txIn. repeat split; auto.
      destruct (decide (k = j)) as [->|Hne]; [|lia].
      exfalso. assert (txk = tx) as -> by congruence.
      eapply Hself; [|exact Hin|exact Hprev]. eapply list_elem_of_lookup_2; exact Htx.
    + intros (k & txk & txIn & -> & Hk & Hat & Hin & Hprev).
      exists k, txk, tx, txIn. repeat split; auto. lia.
  - intros id idx. rewrite lookup_empty. split; [discriminate|].
    intros (k & ? & _ & Hk & _). lia.
  - intros j' rtx' Hj'. rewrite lookup_nil in Hj'. discriminate.
Qed.
End Depends.

Section Reply.
Context `{Wire}.
Variable env : Env.

(** The entries the loop appends carry the bytes, the id, the mass and
    the fee of the transactions it visits. *)
Lemma resultTransactions_entries t txs : forall i txIndex acc m m' out,
  drop i (Transactions (Block t)) = txs ->
  length acc = i ->
  resultTransactions env t txs i txIndex acc m = (m', Ok out) ->
  exists new, out = (acc ++ new)%list /\ length new = length txs
    /\ forall k rtx, new !! k = Some rtx ->
         exists tx txBuf,
           Transactions (Block t) !! (i + k)%nat = Some tx
           /\ Serialize tx = inr txBuf
           /\ TxData rtx = hex_EncodeToString txBuf
           /\ ID rtx = HashString (TxID tx)
           /\ TxMasses t !! (i + k)%nat = Some (Mass rtx)
           /\ Fees t !! (i + k)%nat = Some (Fee rtx).
Proof.
  induction txs as [|tx rest IH]; intros i txIndex acc m m' out Hdrop Hlen Hrun.
  - simpl in Hrun. rewrite run_ret in Hrun. injection Hrun as <- <-.
    exists []. rewrite app_nil_r. repeat split.
    intros k rtx Hk. rewrite lookup_nil in Hk. discriminate.
  - simpl in Hrun.
    apply run_bind_Ok in Hrun as (depends & m1 & _ & Hrun).
    destruct (Serialize tx) as [err|txBuf] eqn:Hser; [discriminate|].
    apply run_bind_Ok in Hrun as (mass & m2 & Hmass & Hrun).
    apply run_index_Ok in Hmass as [-> Hmass].
    apply run_bind_Ok in Hrun as (fee & m3 & Hfee & Hrun).
    apply run_index_Ok in Hfee as [-> Hfee].
    assert (Htx : Transactions (Block t) !! i = Some tx).
    { rewrite <- (Nat.add_0_r i), <- lookup_drop, Hdrop. reflexivity. }
    apply IH in Hrun as (new & -> & Hnew & Hall).
    + eexists (_ :: new). rewrite <- app_assoc. split; [reflexivity|].
      split; [simpl; lia|].
      intros [|k] rtx Hk; simpl in Hk.
      * injection Hk as <-. rewrite Nat.add_0_r. exists tx, txBuf. simpl.
        repeat split; assumption.
      * replace (i + S k)%nat with (S i + k)%nat by lia. apply Hall. exact Hk.
    + rewrite (drop_S _ _ _ Htx) in Hdrop. congruence.
    + rewrite length_app. simpl. lia.
Qed.

Lemma blockTemplateResult_inv m m' r :
  blockTemplateResult env m = (m', Ok r) ->
  exists t txs m1,
    template (state m) = Some t
    /\ Timestamp (Header (Block t)) <= Now env + TimestampDeviationTolerance env
    /\ resultTransactions env t (Transactions (Block t)) 0 ∅ [] m = (m1, Ok txs)
    /\ ResultTransactions r = txs
    /\ CurTime r = Timestamp (Header (Block t))
    /\ MaxTime r = Now env + TimestampDeviationTolerance env
    /\ MinTime r = minTimestamp (state m)
    /\ ResultParentHashes r = map HashString (ParentHashes (Header (Block t)))
    /\ ResultLongPollID r
       = encodeLongPollID (default [] (tipHashes (state m))) (payAddress (state m))
           (lastGenerated (state m))
    /\ Mutable r = gbtMutableFields /\ NonceRange r = gbtNonceRange
    /\ Capabilities r = gbtCapabilities /\ ResultIsSynced r = IsSynced env.
Proof.
  unfold blockTemplateResult. rewrite run_bind. unfold get at 1. cbv beta iota.
  destruct (template (state m)) as [t|]; [|discriminate].
  unfold After, Add, Millisecond. rewrite Z.mul_1_l.
  destruct (Z.ltb_spec (Now env + TimestampDeviationTolerance env)
              (Timestamp (Header (Block t)))) as [Hafter|Hok]; [discriminate|].
  destruct (length (Transactions (Block t)) =? 0)%nat; [discriminate|].
  intros Hrun. apply run_bind_Ok in Hrun as (txs & m1 & Hloop & Hret).
  rewrite run_ret in Hret. injection Hret as <- <-.
  exists t, txs, m1. simpl. repeat split; auto.
Qed.

(** X10: what a reply of blockTemplateResult carries besides its
    transactions. *)
Theorem blockTemplateResult_reply (m m' : Machine) (r : GetBlockTemplateResult) :
  blockTemplateResult env m = (m', Ok r) ->
  exists t, template (state m) = Some t
    /\ length (ResultTransactions r) = length (Transactions (Block t))
    /\ CurTime r = Timestamp (Header (Block t))
    /\ MaxTime r = Now env + TimestampDeviationTolerance env
    /\ CurTime r <= MaxTime r
    /\ MinTime r = minTimestamp (state m)
    /\ ResultParentHashes r = map HashString (ParentHashes (Header (Block t)))
    /\ ResultLongPollID r
       = encodeLongPollID (default [] (tipHashes (state m))) (payAddress (state m))
           (lastGenerated (state m))
    /\ Mutable r = ["time"; "transactions/add"; "parentblock"; "coinbase/append"]
    /\ NonceRange r = "000000000000ffffffffffff"
    /\ Capabilities r = ["proposal"]
    /\ ResultIsSynced r = IsSynced env.
Proof.
  intros Hrun.
  apply blockTemplateResult_inv in Hrun
    as (t & txs & m1 & Ht & Htime & Hloop & Htxs & Hcur & Hmax & Hmin & Hparents & Hid
        & Hmut & Hnonce & Hcap & Hsync).
  exists t. split; [exact Ht|].
  apply resultTransactions_entries in Hloop as (new & -> & Hnew & _); [|reflexivity..].
  rewrite Htxs, Hcur, Hmax. simpl. repeat split; auto.
Qed.

(** X11: every entry of the reply carries the transaction of the same index
    of the template: the hexadecimal text of its serialization, which
    hex.DecodeString reads back, the string of its id, its mass and its
    fee. *)
Theorem reply_transaction_data (m m' : Machine) (r : GetBlockTemplateResult)
    (t : BlockTemplate) :
  template (state m) = Some t ->
  blockTemplateResult env m = (m', Ok r) ->
  forall j rtx, ResultTransactions r !! j = Some rtx ->
    exists tx txBuf,
      Transactions (Block t) !! j = Some tx
      /\ Serialize tx = inr txBuf
      /\ hex_DecodeString (TxData rtx) = Some txBuf
      /\ ID rtx = HashString (TxID tx)
      /\ TxMasses t !! j = Some (Mass rtx)
      /\ Fees t !! j = Some (Fee rtx).
Proof.
  intros Ht Hrun j rtx Hj.
  apply blockTemplateResult_inv in Hrun as (t' & txs & m1 & Ht' & _ & Hloop & Htxs & _).
  assert (t' = t) as -> by congruence.
  apply resultTransactions_entries in Hloop as (new & -> & _ & Hall); [|reflexivity..].
  rewrite Htxs in Hj. simpl in Hj.
  destruct (Hall j rtx Hj) as (tx & txBuf & Hat & Hser & Hdata & Hid & Hmass & Hfee).
  exists tx, txBuf. rewrite Hdata, hex_DecodeString_EncodeToString.
  repeat split; assumption.
Qed.

(** X12: the ID a reply carries is never waited on.  A long-poll request
    that sends back the ID of a reply, to any server state, is answered
    as a request without an ID: the decoder rejects the ID. *)
Theorem reply_longPollID_never_waits (m m' : Machine) (r : GetBlockTemplateResult)
    (env' : Env) (payAddr : Address) (m2 : Machine) :
  blockTemplateResult env m = (m', Ok r) ->
  handleGetBlockTemplateLongPoll env' (ResultLongPollID r) payAddr m2
  = currentTemplate env' payAddr m2
  /\ forall m3 c a,
       handleGetBlockTemplateLongPoll env' (ResultLongPollID r) payAddr m2
       <> (m3, Ok (Waiting c a)).
Proof.
  intros Hrun.
  apply blockTemplateResult_inv in Hrun as (t & txs & m1 & _ & _ & _ & _ & _ & _ & _ & _ & Hid & _).
  assert (Hdec : exists err, decodeLongPollID (ResultLongPollID r) = inl err).
  { rewrite Hid.
    pose proof (encodeLongPollID_fields (default [] (tipHashes (state m)))
                  (payAddress (state m)) (lastGenerated (state m))) as Hlen.
    unfold decodeLongPollID.
    destruct (strings_Split _ "-") as [|f1 [|f2 [|f3 fs]]];
      simpl in Hlen; try lia; eauto. }
  destruct Hdec as [err Hdec].
  rewrite (handleGetBlockTemplateLongPoll_undecodable env' _ payAddr err m2 Hdec).
  split; [reflexivity|].
  intros m3 c a. unfold currentTemplate, returned. rewrite !run_bind.
  destruct (updateBlockTemplate env' payAddr m2) as [m4 [[]|e|msg]]; [|discriminate..].
  rewrite !run_bind.
  destruct (blockTemplateResult env' m4) as [m5 [res|e|msg]]; discriminate.
Qed.
End Reply.

(** ** Proposals, continued *)

Section ProposalMore.
Context `{Wire}.
Variable env : Env.

(** X13: a proposal whose data has an odd number of characters is read with
    a zero in front: it is answered as the proposal of that longer
    text. *)
Theorem proposal_odd_length_padded (request : TemplateRequest) :
  (String.length (Data request) mod 2 = 1)%nat ->
  handleGetBlockTemplateProposal env request
  = handleGetBlockTemplateProposal env (withData ("0" +:+ Data request) request).
Proof.
  intros Hodd. unfold handleGetBlockTemplateProposal, withData. simpl Data.
  destruct (Data request) as [|c d] eqn:Hdata; [discriminate|].
  change ((String c d =? "")%string) with false.
  change (("0" +:+ String c d =? "")%string) with false. cbv iota.
  rewrite Hodd.
  change (String.length ("0" +:+ String c d)) with (S (String.length (String c d))).
  replace (S (String.length (String c d)) mod 2)%nat with 0%nat; [reflexivity|].
  symmetry. rewrite <- Nat.add_1_r, Nat.Div0.add_mod, Hodd. reflexivity.
Qed.

End ProposalMore.

(** ** The signals, continued *)

Section SignalsMore.
Context `{Wire}.

Lemma signalsInv_onRegistry : onRegistry signalsInv.
Proof.
  intros m m' Hnm Hcl Hnext [Hwf Hlost]. split.
  - eapply signalsWf_onRegistry; eassumption.
  - unfold noLostSignal. rewrite Hnm, Hcl, Hnext. exact Hlost.
Qed.

Lemma templateUpdateChan_noLostSignal tips ts :
  keeps noLostSignal (templateUpdateChan tips ts).
Proof.
  intros m Hlost.
  pose proof (templateUpdateChan_run tips ts m) as Hrun. cbv zeta in Hrun.
  unfold hoare. rewrite Hrun. clear Hrun.
  set (cur := JoinHashesStrings tips ""). set (nm := notifyMap (state m)) in *.
  destruct (nm !! cur ≫= _) as [c|] eqn:Hkey; cbv beta iota; [exact Hlost|].
  intros c Hc. simpl in Hc |- *.
  destruct (decide (c = nextChan m)) as [->|Hne].
  - right. exists cur, (<[ts := nextChan m]> (default ∅ (nm !! cur))), ts.
    split; apply lookup_insert_eq.
  - destruct (Hlost c ltac:(lia)) as [Hcl|(fp & inner & ts' & Hfp & Hts')]; [left; exact Hcl|].
    right. fold nm in Hfp.
    destruct (decide (fp = cur)) as [->|Hfpne].
    + exists cur, (<[ts := nextChan m]> (default ∅ (nm !! cur))), ts'.
      split; [apply lookup_insert_eq|].
      rewrite Hfp in Hkey |- *. simpl in Hkey |- *.
      rewrite lookup_insert_ne by congruence. exact Hts'.
    + exists fp, inner, ts'. split; [|exact Hts'].
      rewrite lookup_insert_ne by congruence. exact Hfp.
Qed.

Lemma templateUpdateChan_signalsInv tips ts : keeps signalsInv (templateUpdateChan tips ts).
Proof.
  intros m [Hwf Hlost].
  pose proof (templateUpdateChan_signalsWf tips ts m Hwf) as H1.
  pose proof (templateUpdateChan_noLostSignal tips ts m Hlost) as H2.
  unfold hoare in *. destruct (templateUpdateChan tips ts m) as [m' [c|e|msg]];
    [split; assumption | split; assumption | exact I].
Qed.

Section Notify2.
Variable env : Env.
Hypothesis range_ok : rangeOrder_ok env.

Lemma notifyLongPollers_signalsInv tips t : keeps signalsInv (notifyLongPollers env tips t).
Proof.
  intros m [Hwf Hlost].
  pose proof (notifyLongPollers_signalsWf env range_ok tips t m Hwf) as Hwf'.
  destruct Hwf as (Hopen & Hdist & _).
  destruct (notifyLongPollers_run env range_ok tips t m Hopen Hdist)
    as (cl & rt & Hrun & Hcl).
  unfold hoare in *. rewrite Hrun in *. split; [exact Hwf'|].
  intros c Hc. simpl in Hc |- *.
  destruct (Hlost c Hc) as [Hin|Hreg]; [left; apply Hcl; auto|].
  destruct (registered_fired_or_left (JoinHashesStrings tips "") t _ c Hreg) as [Hf|Hl];
    [left; apply Hcl; auto | right; exact Hl].
Qed.
End Notify2.

Lemma reachable_signalsInv m : reachable m -> signalsInv m.
Proof.
  induction 1 as [|env c m m' Hrange Hreach IH Hstep].
  - split.
    + unfold signalsWf, signalsOpen, signalsDistinct. simpl.
      repeat split; intros *; rewrite ?lookup_empty; discriminate.
    + intros c Hc. simpl in Hc. lia.
  - eapply (steps_keeps env signalsInv); [| | |exact IH|exact Hstep].
    + apply signalsInv_onRegistry.
    + intros tips t. apply notifyLongPollers_signalsInv, Hrange.
    + intros tips ts. apply templateUpdateChan_signalsInv.
Qed.

(** X14: the channels of every reachable machine.  A channel of the notify
    map is open and below the next channel make allocates, it is there
    under one fingerprint and one second only, and a closed channel is
    not in the map. *)
Theorem registered_signals_open_and_distinct (m : Machine) :
  reachable m ->
  (forall c, registered (notifyMap (state m)) c ->
     (c ∉ closed m) /\ (c < nextChan m)%positive)
  /\ (forall fp1 inner1 ts1 fp2 inner2 ts2 c,
        notifyMap (state m) !! fp1 = Some inner1 -> inner1 !! ts1 = Some c ->
        notifyMap (state m) !! fp2 = Some inner2 -> inner2 !! ts2 = Some c ->
        fp1 = fp2 /\ ts1 = ts2).
Proof.
  intros [(Hopen & Hdist & Hlt & _) _]%reachable_signalsInv. split; [|exact Hdist].
  intros c (fp & inner & ts & Hfp & Hc). split; [eapply Hopen | eapply Hlt]; eassumption.
Qed.

(** X15: no signal is lost.  In every reachable machine a channel that
    templateUpdateChan has made is still in the notify map or has been
    closed: notifyLongPollers removes a channel only after it has closed
    it, so every long poller that waits is woken or can still be woken. *)
Theorem no_signal_lost (m : Machine) (c : chan) :
  reachable m ->
  ((c < nextChan m)%positive <-> c ∈ closed m \/ registered (notifyMap (state m)) c)
  /\ ~ (c ∈ closed m /\ registered (notifyMap (state m)) c).
Proof.
  intros [(Hopen & Hdist & Hlt & Hclosed) Hlost]%reachable_signalsInv. split; [split|].
  - apply Hlost.
  - intros [Hin|(fp & inner & ts & Hfp & Hc)]; [auto | eapply Hlt; eassumption].
  - intros [Hin (fp & inner & ts & Hfp & Hc)]. eapply Hopen; eassumption.
Qed.
End SignalsMore.

Section Subscribe.
Context `{Wire}.

Lemma templateUpdateChan_signalAt tips ts m :
  let cur := JoinHashesStrings tips "" in
  exists c m1,
    templateUpdateChan tips ts m = (m1, Ok c)
    /\ signalAt (notifyMap (state m1)) cur ts = Some c
    /\ (forall fp ts', (fp, ts') <> (cur, ts) ->
          signalAt (notifyMap (state m1)) fp ts' = signalAt (notifyMap (state m)) fp ts')
    /\ state m1 = setNotifyMap (fun _ => notifyMap (state m1)) (state m)
    /\ closed m1 = closed m /\ clockTicks m1 = clockTicks m /\ rangeTicks m1 = rangeTicks m
    /\ match signalAt (notifyMap (state m)) cur ts with
       | Some c' => c = c' /\ m1 = m
       | None => c = nextChan m /\ nextChan m1 = Pos.succ (nextChan m)
       end.
Proof.
  intros cur.
  pose proof (templateUpdateChan_run tips ts m) as Hrun. cbv zeta in Hrun. fold cur in Hrun.
  unfold signalAt.
  set (nm := notifyMap (state m)) in *.
  destruct (nm !! cur ≫= _) as [c|] eqn:Hkey.
  - exists c, m. split; [exact Hrun|]. fold nm. split; [exact Hkey|].
    split; [reflexivity|]. split; [destruct m as [[] ? ? ? ?]; reflexivity|].
    repeat split; reflexivity.
  - eexists _, _. split; [exact Hrun|]. simpl.
    split; [rewrite lookup_insert_eq; simpl; apply lookup_insert_eq|].
    split; [|repeat split; reflexivity].
    intros fp ts' Hne. destruct (decide (fp = cur)) as [->|Hfp].
    + rewrite lookup_insert_eq. simpl.
      rewrite lookup_insert_ne by congruence.
      destruct (nm !! cur); [reflexivity | apply lookup_empty].
    + rewrite lookup_insert_ne by congruence. reflexivity.
Qed.

(** X16: templateUpdateChan always returns a channel, and registers it
    under the fingerprint of the tips and the second it is given.  It
    returns the channel that is registered there when there is one, and
    changes nothing then: the clients that wait for the same template
    share one channel.  Otherwise it returns a new channel.  The other
    keys of the notify map, the rest of the work state and the closed
    channels are untouched, and a second call with the same arguments
    returns the same channel and changes nothing. *)
Theorem templateUpdateChan_registers (tips : list Hash) (ts : Z) (m : Machine) :
  let cur := JoinHashesStrings tips "" in
  exists c m1,
    templateUpdateChan tips ts m = (m1, Ok c)
    /\ signalAt (notifyMap (state m1)) cur ts = Some c
    /\ (forall fp ts', (fp, ts') <> (cur, ts) ->
          signalAt (notifyMap (state m1)) fp ts' = signalAt (notifyMap (state m)) fp ts')
    /\ state m1 = setNotifyMap (fun _ => notifyMap (state m1)) (state m)
    /\ closed m1 = closed m
    /\ match signalAt (notifyMap (state m)) cur ts with
       | Some c' => c = c' /\ m1 = m
       | None => c = nextChan m /\ nextChan m1 = Pos.succ (nextChan m)
       end
    /\ templateUpdateChan tips ts m1 = (m1, Ok c).
Proof.
  intros cur. subst cur.
  destruct (templateUpdateChan_signalAt tips ts m)
    as (c & m1 & Hrun & Hat & Hother & Hstate & Hclosed & _ & _ & Hnew).
  exists c, m1. repeat (split; [assumption|]).
  destruct (templateUpdateChan_signalAt tips ts m1) as (c2 & m2 & Hrun2 & _ & _ & _ & _ & _ & _ & Hnew2).
  rewrite Hat in Hnew2. destruct Hnew2 as [-> ->]. exact Hrun2.
Qed.

(** X17: the channel templateUpdateChan returns in a reachable machine is
    open: a long poller never waits on a channel that has been closed. *)
Theorem templateUpdateChan_signal_open (tips : list Hash) (ts : Z) (m m1 : Machine)
    (c : chan) :
  reachable m ->
  templateUpdateChan tips ts m = (m1, Ok c) ->
  c ∉ closed m1.
Proof.
  intros Hreach Hrun.
  pose proof (templateUpdateChan_signalsInv tips ts m (reachable_signalsInv m Hreach)) as Hinv.
  unfold hoare in Hinv. rewrite Hrun in Hinv. destruct Hinv as [(Hopen & _) _].
  destruct (templateUpdateChan_signalAt tips ts m) as (c' & m1' & Hrun' & Hat & _).
  rewrite Hrun in Hrun'. injection Hrun' as <- <-.
  unfold signalAt in Hat.
  destruct (notifyMap (state m1) !! JoinHashesStrings tips "") as [inner|] eqn:Hfp;
    [|discriminate].
  eapply Hopen; [exact Hfp | exact Hat].
Qed.
End Subscribe.

Section Wake.
Context `{Wire}.
Variable env : Env.
Hypothesis range_ok : rangeOrder_ok env.

(** X18: a channel templateUpdateChan has returned for the tips [tips] and
    the second [ts] is closed by the next notifyLongPollers exactly when
    the fingerprint of the tips it notifies for is another one, or when
    it has a time of last update that is not the zero time and whose
    second is after [ts]; otherwise the channel stays registered. *)
Theorem notifyLongPollers_wakes (tips tips' : list Hash) (ts : Z) (t : Time)
    (m m1 : Machine) (c : chan) :
  signalsWf m ->
  templateUpdateChan tips ts m = (m1, Ok c) ->
  exists m2,
    notifyLongPollers env tips' t m1 = (m2, Ok tt)
    /\ (c ∈ closed m2 <->
        JoinHashesStrings tips' "" <> JoinHashesStrings tips ""
        \/ (IsZero t = false /\ ts < UnixSeconds t))
    /\ (c ∉ closed m2 -> signalAt (notifyMap (state m2)) (JoinHashesStrings tips "") ts = Some c).
Proof.
  intros Hwf Hrun.
  pose proof (templateUpdateChan_signalsWf tips ts m Hwf) as Hwf1.
  unfold hoare in Hwf1. rewrite Hrun in Hwf1. destruct Hwf1 as (Hopen & Hdist & _).
  destruct (templateUpdateChan_signalAt tips ts m) as (c' & m1' & Hrun' & Hat & _).
  rewrite Hrun in Hrun'. injection Hrun' as <- <-.
  set (cur := JoinHashesStrings tips "") in *.
  set (cur' := JoinHashesStrings tips' "").
  unfold signalAt in Hat.
  destruct (notifyMap (state m1) !! cur) as [inner|] eqn:Hfp; [|discriminate].
  simpl in Hat.
  destruct (notifyLongPollers_run env range_ok tips' t m1 Hopen Hdist)
    as (cl & rt & Hrun2 & Hcl).
  fold cur' in Hrun2, Hcl.
  eexists. split; [exact Hrun2|]. simpl closed. simpl notifyMap.
  assert (Hfired : fired (notifyMap (state m1)) cur' t c
                   <-> cur' <> cur \/ (IsZero t = false /\ ts < UnixSeconds t)).
  { split.
    - intros [(fp & i2 & ts2 & Hne & Hfp2 & Hts2)|[Hzero (i2 & ts2 & Hfp2 & Hts2 & Hlt)]].
      + destruct (Hdist cur inner ts fp i2 ts2 c) as [Heq _]; auto. left. congruence.
      + destruct (decide (cur' = cur)) as [Heq|Hne]; [|left; exact Hne].
        rewrite Heq in Hfp2.
        destruct (Hdist cur inner ts cur i2 ts2 c) as [_ ->]; auto.
    - intros Hcase. destruct (decide (cur' = cur)) as [Heq|Hne].
      + destruct Hcase as [?|[Hzero Hlt]]; [contradiction|].
        right. split; [exact Hzero|]. exists inner, ts. rewrite Heq. auto.
      + left. exists cur, inner, ts. auto. }
  split.
  - rewrite Hcl, Hfired. split; [|tauto].
    intros [Hin|?]; [|assumption]. exfalso. eapply Hopen; eassumption.
  - intros Hnot.
    destruct (registered_fired_or_left cur' t (notifyMap (state m1)) c) as [Hf|Hl].
    { exists cur, inner, ts. auto. }
    { exfalso. apply Hnot, Hcl. auto. }
    destruct Hl as (fp & inner' & ts' & Hfp' & Hts').
    destruct (pollersLeft_registered _ _ _ _ _ _ _ Hfp' Hts') as (-> & (i2 & Hi2 & Hc2) & _).
    destruct (Hdist cur inner ts cur' i2 ts' c) as [<- <-]; auto.
    unfold signalAt. rewrite Hfp'. exact Hts'.
Qed.

(** X19: notifyLongPollers is idempotent on a registry whose signals are
    well formed: run again with the same tips and time, it closes no
    channel and leaves the notify map as it is. *)
Theorem notifyLongPollers_idempotent (tips : list Hash) (t : Time) (m m1 : Machine) :
  signalsWf m ->
  notifyLongPollers env tips t m = (m1, Ok tt) ->
  exists m2,
    notifyLongPollers env tips t m1 = (m2, Ok tt)
    /\ state m2 = state m1 /\ closed m2 = closed m1 /\ nextChan m2 = nextChan m1.
Proof.
  intros Hwf Hrun.
  pose proof (notifyLongPollers_signalsWf env range_ok tips t m Hwf) as Hwf1.
  unfold hoare in Hwf1. rewrite Hrun in Hwf1.
  destruct Hwf as (Hopen & Hdist & _).
  destruct (notifyLongPollers_run env range_ok tips t m Hopen Hdist)
    as (cl & rt & Hrun1 & Hcl).
  rewrite Hrun in Hrun1. injection Hrun1 as ->.
  destruct Hwf1 as (Hopen1 & Hdist1 & _).
  destruct (notifyLongPollers_run env range_ok tips t _ Hopen1 Hdist1)
    as (cl2 & rt2 & Hrun2 & Hcl2).
  eexists. split; [exact Hrun2|]. simpl in *.
  set (cur := JoinHashesStrings tips "") in *.
  rewrite pollersLeft_idempotent. split; [reflexivity|]. split; [|reflexivity].
  apply set_eq. intros c. rewrite Hcl2. split; [|auto].
  intros [Hin|Hfired]; [exact Hin|]. exfalso.
  destruct Hfired as [(fp & i2 & ts2 & Hne & Hfp2 & Hts2)|[Hzero (i2 & ts2 & Hfp2 & Hts2 & Hlt)]].
  - destruct (pollersLeft_registered _ _ _ _ _ _ _ Hfp2 Hts2) as (Heq & _). contradiction.
  - destruct (pollersLeft_registered _ _ _ _ _ _ _ Hfp2 Hts2) as (_ & _ & Hle).
    specialize (Hle Hzero). lia.
Qed.

(** X20: NotifyBlockAdded, on a registry whose signals are well formed,
    closes every channel registered under a fingerprint other than the one
    of the new tips and removes these fingerprints; the rest of the work
    state is untouched. *)
Theorem NotifyBlockAdded_wakes (tips : list Hash) (m : Machine) :
  signalsWf m ->
  let cur := JoinHashesStrings tips "" in
  exists m',
    NotifyBlockAdded env tips m = (m', Ok tt)
    /\ state m' = setNotifyMap (fun _ => notifyMap (state m')) (state m)
    /\ (forall fp, fp <> cur -> notifyMap (state m') !! fp = None)
    /\ (forall c, staleSignal (notifyMap (state m)) cur c -> c ∈ closed m')
    /\ (forall c, c ∈ closed m' -> c ∈ closed m \/ registered (notifyMap (state m)) c).
Proof.
  intros (Hopen & Hdist & _) cur.
  unfold NotifyBlockAdded. rewrite run_bind. unfold get at 1. cbv beta iota.
  destruct (notifyLongPollers_run env range_ok tips (lastTxUpdate (state m)) m Hopen Hdist)
    as (cl & rt & Hrun & Hcl).
  fold cur in Hrun, Hcl.
  eexists. split; [exact Hrun|]. simpl.
  split; [reflexivity|]. split; [|split].
  - intros fp Hne. rewrite pollersLeft_lookup, decide_False by exact Hne. reflexivity.
  - intros c Hc. apply Hcl. right. left. exact Hc.
  - intros c [Hin|Hf%fired_registered]%Hcl; auto.
Qed.

(** X21: NotifyMempoolTx returns, on a registry whose signals are well
    formed, and the channels it closes are those notifyLongPollers fires
    for the tips of the state and the time of the update, and only when a
    template was generated and more than gbtRegenerateSeconds seconds
    have passed since. *)
Theorem NotifyMempoolTx_fires (lastUpdated : Time) (m : Machine) :
  signalsWf m ->
  exists m',
    NotifyMempoolTx env lastUpdated m = (m', Ok tt)
    /\ forall c, c ∈ closed m' <->
         c ∈ closed m
         \/ exists tips,
              tipHashes (state m) = Some tips
              /\ IsZero (lastGenerated (state m)) = false
              /\ lastGenerated (state m) + gbtRegenerateSeconds * Second
                 < clock env (clockTicks m)
              /\ fired (notifyMap (state m)) (JoinHashesStrings tips "") lastUpdated c.
Proof.
  intros Hwf.
  unfold NotifyMempoolTx. rewrite run_bind. unfold get at 1. cbv beta iota.
  destruct (tipHashes (state m)) as [tips|] eqn:Htips.
  2:{ exists m. rewrite run_ret. split; [reflexivity|]. intros c. split; [auto|].
      intros [?|(tips & ? & _)]; [assumption | discriminate]. }
  destruct (IsZero (lastGenerated (state m))) eqn:Hzero.
  { exists m. rewrite run_ret. split; [reflexivity|]. intros c. split; [auto|].
    intros [?|(tips' & _ & ? & _)]; [assumption | discriminate]. }
  rewrite run_bind, mstime_Now_run. unfold After, Add.
  destruct (Z.ltb_spec (lastGenerated (state m) + Second * gbtRegenerateSeconds)
              (clock env (clockTicks m))) as [Hlate|Hearly].
  - assert (Hwf1 : signalsWf (tick 1 m))
      by (eapply signalsWf_onRegistry; [| | |exact Hwf]; reflexivity).
    destruct Hwf1 as (Hopen & Hdist & _).
    destruct (notifyLongPollers_run env range_ok tips lastUpdated _ Hopen Hdist)
      as (cl & rt & Hrun & Hcl).
    eexists. split; [exact Hrun|]. intros c. simpl closed. rewrite Hcl. simpl.
    split.
    + intros [?|Hf]; [auto|]. right. exists tips. repeat split; auto; lia.
    + intros [?|(tips' & [= <-] & _ & _ & Hf)]; auto.
  - exists (tick 1 m). rewrite run_ret. split; [reflexivity|]. intros c. simpl.
    split; [auto|]. intros [?|(tips' & _ & _ & Hlt & _)]; [assumption | lia].
Qed.
End Wake.

(** ** The template cache, continued *)

Section CacheFrame.
Context `{Wire}.
Variable env : Env.
Variable P : Machine -> Prop.
Hypothesis P_frame : onCache P.

Lemma hoare_cache_range {A} (l : list A) E : hoare P (range env l) P E.
Proof. intros m Hm. eapply P_frame; [|exact Hm]. reflexivity. Qed.

Lemma hoare_cache_close c E : hoare P (close c) P E.
Proof.
  intros m Hm. unfold close. destruct (decide (c ∈ closed m)); [exact I|].
  eapply P_frame; [|exact Hm]. reflexivity.
Qed.

Lemma hoare_cache_notify f E : hoare P (modify (setNotifyMap f)) P E.
Proof. intros m Hm. eapply P_frame; [|exact Hm]. reflexivity. Qed.

(** notifyLongPollers writes the notify map only, and returns no error. *)
Lemma notifyLongPollers_cache tips t E : hoare P (notifyLongPollers env tips t) P E.
Proof.
  unfold notifyLongPollers. set (cur := JoinHashesStrings tips "").
  eapply hoare_bind; [apply hoare_get | intros st].
  eapply hoare_bind; [apply hoare_cache_range | intros entries].
  eapply hoare_bind.
  { apply hoare_forM_. intros [hashesStr channels].
    destruct (negb (hashesStr =? cur)%string); [|apply hoare_ret].
    eapply hoare_bind; [apply hoare_cache_range | intros cs].
    eapply hoare_bind; [|intros _; apply hoare_cache_notify].
    apply hoare_forM_. intros [? c]. apply hoare_cache_close. }
  intros _. destruct (IsZero t); [apply hoare_ret|].
  eapply hoare_bind; [apply hoare_get | intros st'].
  destruct (notifyMap st' !! cur) as [channels|]; [|apply hoare_ret].
  eapply hoare_bind; [apply hoare_cache_range | intros cs].
  eapply hoare_bind.
  { apply hoare_forM_. intros [lastGen c].
    destruct (lastGen <? UnixSeconds t); [|apply hoare_ret].
    eapply hoare_bind; [apply hoare_cache_close | intros _; apply hoare_cache_notify]. }
  intros _. eapply hoare_bind; [apply hoare_get | intros st''].
  cbv zeta. destruct (_ =? 0); [apply hoare_cache_notify | apply hoare_ret].
Qed.

Lemma templateUpdateChan_cache tips ts E : hoare P (templateUpdateChan tips ts) P E.
Proof.
  intros m Hm.
  pose proof (templateUpdateChan_run tips ts m) as Hrun. cbv zeta in Hrun. rewrite Hrun.
  destruct (_ ≫= _); [exact Hm|]. eapply P_frame; [|exact Hm]. reflexivity.
Qed.
End CacheFrame.

Section CacheMore.
Context `{Wire}.
Variable env : Env.

(** The condition of updateBlockTemplate reads the clock at most once and
    writes nothing; when it is false the state has a template for the tips
    and the pay address asked for. *)
Lemma needsNewTemplate_inv st tips payAddr mempool m m1 r :
  needsNewTemplate env st tips payAddr mempool m = (m1, r) ->
  (exists n, m1 = tick n m)
  /\ match r with
     | Ok b =>
         b = false ->
         exists t a, template st = Some t /\ tipHashes st = Some tips
                     /\ payAddress st = Some a
                     /\ AddressString a = AddressString payAddr
     | Fail _ => False
     | Panic _ => True
     end.
Proof.
  unfold needsNewTemplate.
  assert (Hnone : exists n, m = tick n m) by (exists 0%nat; rewrite tick_0; reflexivity).
  destruct (template st) as [t|]; [|rewrite run_ret; intros [= <- <-]; split; [exact Hnone | discriminate]].
  destruct (tipHashes st) as [stateTips|];
    [|rewrite run_ret; intros [= <- <-]; split; [exact Hnone | discriminate]].
  unfold AreEqual.
  destruct (decide (stateTips = tips)) as [->|Htips].
  2:{ rewrite bool_decide_eq_false_2 by exact Htips. cbn [negb]. rewrite run_ret.
      intros [= <- <-]. split; [exact Hnone | discriminate]. }
  rewrite bool_decide_eq_true_2 by reflexivity. cbn [negb].
  rewrite run_bind.
  destruct (payAddress st) as [a|]; simpl Address_String;
    [rewrite run_ret | intros [= <- <-]; split; [exact Hnone | exact I]].
  destruct (String.eqb_spec (AddressString a) (AddressString payAddr)) as [Haddr|Haddr];
    cbn [negb]; [|rewrite run_ret; intros [= <- <-]; split; [exact Hnone | discriminate]].
  destruct (bool_decide _).
  - rewrite run_bind, mstime_Now_run, run_ret. intros [= <- <-].
    split; [eauto|]. intros _. eauto 10.
  - rewrite run_ret. intros [= <- <-]. split; [exact Hnone|]. intros _. eauto 10.
Qed.

(** How regenerateTemplate ends. *)
Lemma regenerateTemplate_inv payAddr tips mempool m m' r :
  regenerateTemplate env payAddr tips mempool m = (m', r) ->
  match r with
  | Ok _ =>
      exists extraNonce blkTemplate,
        random_Uint64 env = inr extraNonce
        /\ NewBlockTemplate env payAddr extraNonce = inr blkTemplate
        /\ cacheOf (state m')
           = cacheOf (commitTemplate blkTemplate (clock env (clockTicks m)) mempool tips
                        (NextBlockMinimumTime env) payAddr (state m))
  | Fail e =>
      m' = setState (setTipHashes None) m
      /\ ((exists err, random_Uint64 env = inl err
             /\ e = RPCError ErrRPCInternal ("Failed to randomize extra nonce: " +:+ Error err))
          \/ (exists extraNonce err,
                random_Uint64 env = inr extraNonce
                /\ NewBlockTemplate env payAddr extraNonce = inl err
                /\ e = RPCError ErrRPCInternal
                         ("Failed to create new block template: " +:+ Error err)))
  | Panic _ => True
  end.
Proof.
  unfold regenerateTemplate. rewrite run_bind. unfold modify at 1. cbv beta iota.
  rewrite run_bind.
  destruct (random_Uint64 env) as [err|extraNonce] eqn:Hrandom.
  { intros [= <- <-]. split; [reflexivity|]. left. eauto. }
  rewrite run_ret, run_bind.
  destruct (NewBlockTemplate env payAddr extraNonce) as [err|blk] eqn:Hnew.
  { intros [= <- <-]. split; [reflexivity|]. right. eauto. }
  rewrite run_ret, run_bind, mstime_Now_run, run_bind. unfold modify at 1. cbv beta iota.
  set (m1 := setState _ (tick 1 (setState (setTipHashes None) m))).
  intros Hrun.
  pose proof (notifyLongPollers_cache env
                (fun x => cacheOf (state x) = cacheOf (state m1))
                ltac:(intros x y Hxy Hx; congruence) tips mempool (fun _ => False)
                m1 eq_refl) as Hnotify.
  rewrite Hrun in Hnotify. destruct r as [[]|e|msg]; [|contradiction|exact I].
  exists extraNonce, blk. split; [first [reflexivity | assumption]|].
  split; [first [reflexivity | assumption]|].
  rewrite Hnotify. reflexivity.
Qed.

(** How updateBlockTemplate ends: with a new template committed, with
    the cached template refreshed, or with the error of the random source
    or of the generator and the tips of the state reset. *)
Lemma updateBlockTemplate_inv payAddr m m' r :
  updateBlockTemplate env payAddr m = (m', r) ->
  let mempool := if IsZero (LastUpdated env) then clock env (clockTicks m)
                 else LastUpdated env in
  exists n,
    match r with
    | Ok _ =>
        (exists extraNonce blkTemplate,
           random_Uint64 env = inr extraNonce
           /\ NewBlockTemplate env payAddr extraNonce = inr blkTemplate
           /\ cacheOf (state m')
              = cacheOf (commitTemplate blkTemplate (clock env (n + clockTicks m)) mempool
                           (TipHashes env) (NextBlockMinimumTime env) payAddr (state m)))
        \/ (exists t a,
              template (state m) = Some t
              /\ tipHashes (state m) = Some (TipHashes env)
              /\ payAddress (state m) = Some a
              /\ AddressString a = AddressString payAddr
              /\ m' = setState (setTemplate
                        (Some (setBlock (setNonce 0 (UpdateBlockTime env (Block t))) t)))
                        (tick n m))
    | Fail e =>
        m' = setState (setTipHashes None) (tick n m)
        /\ ((exists err, random_Uint64 env = inl err
               /\ e = RPCError ErrRPCInternal
                        ("Failed to randomize extra nonce: " +:+ Error err))
            \/ (exists extraNonce err,
                  random_Uint64 env = inr extraNonce
                  /\ NewBlockTemplate env payAddr extraNonce = inl err
                  /\ e = RPCError ErrRPCInternal
                           ("Failed to create new block template: " +:+ Error err)))
    | Panic _ => True
    end.
Proof.
  intros Hrun mempool. unfold updateBlockTemplate in Hrun.
  rewrite run_bind in Hrun.
  assert (Hfirst : exists n0,
            (if IsZero (LastUpdated env) then mstime_Now env else mret (LastUpdated env)) m
            = (tick n0 m, Ok mempool)).
  { subst mempool. destruct (IsZero (LastUpdated env)).
    - exists 1%nat. apply mstime_Now_run.
    - exists 0%nat. rewrite tick_0. reflexivity. }
  destruct Hfirst as (n0 & Hfirst). rewrite Hfirst in Hrun.
  rewrite run_bind in Hrun. unfold get at 1 in Hrun. cbv beta iota in Hrun.
  rewrite run_bind in Hrun.
  destruct (needsNewTemplate env _ _ _ _ _) as [m1 [b|e'|msg]] eqn:Hneeds.
  - apply needsNewTemplate_inv in Hneeds as [[n1 ->] Hb]. rewrite tick_tick in Hrun.
    exists (n1 + n0)%nat. destruct b.
    + apply regenerateTemplate_inv in Hrun. destruct r as [[]|e|msg]; [|exact Hrun|exact I].
      left. exact Hrun.
    + destruct (Hb eq_refl) as (t & a & Ht & Htips & Haddr & Hsame).
      simpl in Ht, Htips, Haddr.
      unfold refreshTemplate in Hrun.
      change (template (state (tick n0 m))) with (template (state m)) in Hrun.
      rewrite Ht in Hrun. unfold modify in Hrun. injection Hrun as <- <-.
      right. exists t, a. auto 10.
  - apply needsNewTemplate_inv in Hneeds as [_ []].
  - injection Hrun as <- <-. exists 0%nat. exact I.
Qed.

(** X22: when updateBlockTemplate returns without an error, the state
    holds a template for the tips of the DAG and for the pay address of
    the call.  Either the template is a new one that NewBlockTemplate
    returned for this address, committed with the time of the last update
    and the minimum time of the DAG; or it is the cached one, with the
    time of its block updated and its nonce 0, and nothing else of the
    machine has changed but the clock. *)
Theorem updateBlockTemplate_post (payAddr : Address) (m m' : Machine) :
  updateBlockTemplate env payAddr m = (m', Ok tt) ->
  (exists t a, template (state m') = Some t
     /\ tipHashes (state m') = Some (TipHashes env)
     /\ payAddress (state m') = Some a
     /\ AddressString a = AddressString payAddr)
  /\ ((exists extraNonce blkTemplate,
         random_Uint64 env = inr extraNonce
         /\ NewBlockTemplate env payAddr extraNonce = inr blkTemplate
         /\ template (state m') = Some blkTemplate
         /\ payAddress (state m') = Some payAddr
         /\ minTimestamp (state m') = NextBlockMinimumTime env
         /\ lastTxUpdate (state m')
            = (if IsZero (LastUpdated env) then clock env (clockTicks m)
               else LastUpdated env))
      \/ (exists t n,
            template (state m) = Some t
            /\ m' = setState (setTemplate
                      (Some (setBlock (setNonce 0 (UpdateBlockTime env (Block t))) t)))
                      (tick n m))).
Proof.
  intros Hrun. apply updateBlockTemplate_inv in Hrun as [n Hrun]. cbv zeta in Hrun.
  destruct Hrun as [(extraNonce & blk & Hrandom & Hnew & Hcache)
                   |(t & a & Ht & Htips & Haddr & Hsame & ->)].
  - assert (Hfields : template (state m') = Some blk
                      /\ tipHashes (state m') = Some (TipHashes env)
                      /\ payAddress (state m') = Some payAddr
                      /\ minTimestamp (state m') = NextBlockMinimumTime env
                      /\ lastTxUpdate (state m')
                         = (if IsZero (LastUpdated env) then clock env (clockTicks m)
                            else LastUpdated env)).
    { change (template (state m')) with (template (cacheOf (state m'))).
      change (tipHashes (state m')) with (tipHashes (cacheOf (state m'))).
      change (payAddress (state m')) with (payAddress (cacheOf (state m'))).
      change (minTimestamp (state m')) with (minTimestamp (cacheOf (state m'))).
      change (lastTxUpdate (state m')) with (lastTxUpdate (cacheOf (state m'))).
      rewrite Hcache. repeat split. }
    destruct Hfields as (Ht & Htips & Haddr & Hmin & Hlast).
    split; [exists blk, payAddr; auto|].
    left. exists extraNonce, blk. auto 10.
  - split; [simpl; eauto 10|]. right. exists t, n. auto.
Qed.

End CacheMore.

Section CacheRetry.
Context `{Wire}.

(** X23: when updateBlockTemplate returns an error, the error is an
    internal RPC error with the text of the random source or of the
    template generator, no channel was closed, and the state is the one
    before the call with its tips reset to nil: the next call that returns
    without an error has built a new template. *)
Theorem updateBlockTemplate_failure (env : Env) (payAddr : Address) (m m' : Machine)
    (e : handlerError) :
  updateBlockTemplate env payAddr m = (m', Fail e) ->
  (exists msg, e = RPCError ErrRPCInternal msg)
  /\ state m' = setTipHashes None (state m)
  /\ closed m' = closed m /\ nextChan m' = nextChan m
  /\ forall env2 payAddr2 m2,
       updateBlockTemplate env2 payAddr2 m' = (m2, Ok tt) ->
       exists extraNonce blkTemplate,
         NewBlockTemplate env2 payAddr2 extraNonce = inr blkTemplate
         /\ template (state m2) = Some blkTemplate.
Proof.
  intros Hrun. apply updateBlockTemplate_inv in Hrun as [n [-> Herr]].
  split; [destruct Herr as [(err & _ & ->)|(k & err & _ & _ & ->)]; eauto|].
  split; [reflexivity|]. split; [reflexivity|]. split; [reflexivity|].
  intros env2 payAddr2 m2 Hnext.
  apply updateBlockTemplate_inv in Hnext as [n2 Hnext]. cbv zeta in Hnext.
  destruct Hnext as [(extraNonce & blk & _ & Hnew & Hcache)|(t & a & _ & Htips & _)];
    [|discriminate].
  exists extraNonce, blk. split; [exact Hnew|].
  change (template (state m2)) with (template (cacheOf (state m2))).
  rewrite Hcache. reflexivity.
Qed.
End CacheRetry.

Section Regenerate.
Context `{Wire}.
Variable env : Env.
Hypothesis range_ok : rangeOrder_ok env.

(** regenerateTemplate on a registry whose signals are open and distinct,
    when the random source and the generator return: the machine it
    leaves. *)
Lemma regenerateTemplate_run payAddr tips mempool m extraNonce blkTemplate :
  signalsOpen m ->
  signalsDistinct (notifyMap (state m)) ->
  random_Uint64 env = inr extraNonce ->
  NewBlockTemplate env payAddr extraNonce = inr blkTemplate ->
  let cur := JoinHashesStrings tips "" in
  let nm := notifyMap (state m) in
  exists cl rt,
    regenerateTemplate env payAddr tips mempool m
    = ({| state := setNotifyMap (fun _ => pollersLeft cur mempool nm)
                     (commitTemplate blkTemplate (clock env (clockTicks m)) mempool tips
                        (NextBlockMinimumTime env) payAddr (state m));
          closed := cl; nextChan := nextChan m; clockTicks := S (clockTicks m);
          rangeTicks := rt |}, Ok tt)
    /\ forall c, c ∈ cl <-> c ∈ closed m \/ fired nm cur mempool c.
Proof.
  intros Hopen Hdist Hrandom Hnew cur nm.
  unfold regenerateTemplate. rewrite run_bind. unfold modify at 1. cbv beta iota.
  rewrite run_bind, Hrandom, run_ret, run_bind, Hnew, run_ret.
  rewrite run_bind, mstime_Now_run, run_bind. unfold modify at 1. cbv beta iota.
  set (m1 := setState _ (tick 1 (setState (setTipHashes None) m))).
  destruct (notifyLongPollers_run env range_ok tips mempool m1) as (cl & rt & Hrun & Hcl);
    [exact Hopen | exact Hdist |].
  exists cl, rt. split; [|exact Hcl]. rewrite Hrun. reflexivity.
Qed.

(** X24: updateBlockTemplate when a new template is due, on a machine whose
    signals are well formed and whose cache has a pay address with its
    template, when the random source and the generator return.  The call
    returns; the state holds the template of the generator, the tips of
    the DAG, the pay address, the time of the last update and a reading
    of the clock as the time of generation; and the long pollers are
    notified for these tips and this time of update: the channels closed
    are those notifyLongPollers fires, which leave the notify map. *)
Theorem updateBlockTemplate_regenerates (payAddr : Address) (m : Machine)
    (extraNonce : Z) (blkTemplate : BlockTemplate) :
  signalsWf m ->
  (template (state m) <> None -> payAddress (state m) <> None) ->
  let m0 := if IsZero (LastUpdated env) then tick 1 m else m in
  let mempool := if IsZero (LastUpdated env) then clock env (clockTicks m)
                 else LastUpdated env in
  let cur := JoinHashesStrings (TipHashes env) "" in
  regenerationDue (state m) (TipHashes env) payAddr mempool (clock env (clockTicks m0)) ->
  random_Uint64 env = inr extraNonce ->
  NewBlockTemplate env payAddr extraNonce = inr blkTemplate ->
  exists m',
    updateBlockTemplate env payAddr m = (m', Ok tt)
    /\ template (state m') = Some blkTemplate
    /\ tipHashes (state m') = Some (TipHashes env)
    /\ payAddress (state m') = Some payAddr
    /\ lastTxUpdate (state m') = mempool
    /\ minTimestamp (state m') = NextBlockMinimumTime env
    /\ (exists n, lastGenerated (state m') = clock env (n + clockTicks m))
    /\ notifyMap (state m') = pollersLeft cur mempool (notifyMap (state m))
    /\ nextChan m' = nextChan m
    /\ forall c, c ∈ closed m' <->
         c ∈ closed m \/ fired (notifyMap (state m)) cur mempool c.
Proof.
  intros (Hopen & Hdist & _) Hwf m0 mempool cur Hdue Hrandom Hnew.
  destruct (updateBlockTemplate_cases env payAddr m Hwf) as (n & Hregen & _).
  fold m0 mempool in Hregen. rewrite (Hregen Hdue).
  destruct (regenerateTemplate_run payAddr (TipHashes env) mempool (tick n m)
              extraNonce blkTemplate Hopen Hdist Hrandom Hnew) as (cl & rt & Hrun & Hcl).
  eexists. split; [exact Hrun|]. simpl.
  repeat (split; [reflexivity|]). split; [exists n; reflexivity|].
  repeat (split; [reflexivity|]). exact Hcl.
Qed.

(** X25: updateBlockTemplate when no new template is due: the call returns,
    the cached template has the time of its block updated and its nonce
    set to 0, and nothing else of the machine changes but the clock; no
    long poller is notified. *)
Theorem updateBlockTemplate_refreshes (payAddr : Address) (m : Machine) :
  (template (state m) <> None -> payAddress (state m) <> None) ->
  let m0 := if IsZero (LastUpdated env) then tick 1 m else m in
  let mempool := if IsZero (LastUpdated env) then clock env (clockTicks m)
                 else LastUpdated env in
  ~ regenerationDue (state m) (TipHashes env) payAddr mempool (clock env (clockTicks m0)) ->
  exists t n,
    template (state m) = Some t
    /\ updateBlockTemplate env payAddr m
       = (setState (setTemplate
            (Some (setBlock (setNonce 0 (UpdateBlockTime env (Block t))) t)))
            (tick n m), Ok tt).
Proof.
  intros Hwf m0 mempool Hnot.
  destruct (updateBlockTemplate_cases env payAddr m Hwf) as (n & _ & Hrefresh).
  fold m0 mempool in Hrefresh. rewrite (Hrefresh Hnot).
  destruct (template (state m)) as [t|] eqn:Ht.
  - exists t, n. split; reflexivity.
  - exfalso. apply Hnot. left. exact Ht.
Qed.
End Regenerate.

(** ** The invariant of the reachable machines *)

Section KeepsParts.
Context `{Wire}.
Variable env : Env.
Variable Inv : Machine -> Prop.
Hypothesis Inv_memory : onMemory Inv.
Hypothesis Inv_update : forall payAddr, keeps Inv (updateBlockTemplate env payAddr).
Hypothesis Inv_notify : forall tips t, keeps Inv (notifyLongPollers env tips t).
Hypothesis Inv_subscribe : forall tips ts, keeps Inv (templateUpdateChan tips ts).

Lemma parts_mstime_Now : keeps Inv (mstime_Now env).
Proof. intros m Hm. eapply Inv_memory; [| | |exact Hm]; reflexivity. Qed.

Lemma parts_blockTemplateResult : keeps Inv (blockTemplateResult env).
Proof.
  intros m Hm. destruct (blockTemplateResult_frame env m) as (Hst & Hcl & Hnext & _).
  destruct (blockTemplateResult env m) as [m' [r|e|msg]]; [| |exact I];
    eapply Inv_memory; eassumption.
Qed.

Lemma parts_returned (c : M value) : keeps Inv c -> keeps Inv (returned c).
Proof.
  intros Hc m Hm. specialize (Hc m Hm). unfold returned.
  destruct (c m) as [m1 [a|err|msg]]; exact Hc.
Qed.

Lemma parts_ret {A} (a : A) : keeps Inv (mret a).
Proof. apply hoare_ret. Qed.

Lemma parts_bind {A B} (c : M A) (k : A -> M B) :
  keeps Inv c -> (forall a, keeps Inv (k a)) -> keeps Inv (c ≫= k).
Proof. apply hoare_bind. Qed.

Lemma parts_fail {A} err : keeps Inv (fail err : M A).
Proof. apply hoare_fail. Qed.

Lemma parts_panic {A} msg : keeps Inv (panic msg : M A).
Proof. apply hoare_panic. Qed.

Lemma parts_get : keeps Inv get.
Proof. apply hoare_get. Qed.

Ltac parts_step :=
  first
    [ apply parts_ret | apply parts_fail | apply parts_panic | apply parts_get
    | apply parts_mstime_Now | apply Inv_update | apply Inv_notify | apply Inv_subscribe
    | apply parts_blockTemplateResult
    | apply parts_returned
    | apply parts_bind; [|intros ?]
    | match goal with
      | |- keeps _ (if ?b then _ else _) => destruct b
      | |- keeps _ (match ?x with _ => _ end) => destruct x
      end ].

Lemma parts_blockTemplateOrLongPollChan longPollID payAddr :
  keeps Inv (blockTemplateOrLongPollChan env longPollID payAddr).
Proof. unfold blockTemplateOrLongPollChan. repeat parts_step. Qed.

Lemma parts_handleGetBlockTemplateLongPoll longPollID payAddr :
  keeps Inv (handleGetBlockTemplateLongPoll env longPollID payAddr).
Proof.
  intros m Hm.
  pose proof (parts_blockTemplateOrLongPollChan longPollID payAddr m Hm) as Hc.
  unfold handleGetBlockTemplateLongPoll.
  destruct (blockTemplateOrLongPollChan env longPollID payAddr m)
    as [m1 [[[result|] c]|err|msg]]; exact Hc.
Qed.

Lemma parts_handleGetBlockTemplateLongPoll_wake payAddr w :
  keeps Inv (handleGetBlockTemplateLongPoll_wake env payAddr w).
Proof. unfold handleGetBlockTemplateLongPoll_wake. repeat parts_step. Qed.

Lemma parts_handleGetBlockTemplate cmd : keeps Inv (handleGetBlockTemplate env cmd).
Proof.
  unfold handleGetBlockTemplate, handleGetBlockTemplateRequest.
  repeat first [apply parts_handleGetBlockTemplateLongPoll | parts_step].
Qed.

Lemma parts_NotifyBlockAdded tips : keeps Inv (NotifyBlockAdded env tips).
Proof. unfold NotifyBlockAdded. repeat parts_step. Qed.

Lemma parts_NotifyMempoolTx lastUpdated : keeps Inv (NotifyMempoolTx env lastUpdated).
Proof. unfold NotifyMempoolTx. repeat parts_step. Qed.

Lemma parts_steps c m m' : Inv m -> steps env c m = Some m' -> Inv m'.
Proof.
  intros Hm. unfold steps, outcome.
  destruct c as [cmd|payAddr w|tips|lastUpdated|tips ts|tips t].
  - pose proof (parts_handleGetBlockTemplate cmd m Hm) as Hc.
    destruct (handleGetBlockTemplate env cmd m) as [m1 [a|err|msg]];
      intros [= <-]; exact Hc.
  - pose proof (parts_handleGetBlockTemplateLongPoll_wake payAddr w m Hm) as Hc.
    destruct (handleGetBlockTemplateLongPoll_wake env payAddr w m) as [m1 [a|err|msg]];
      intros [= <-]; exact Hc.
  - pose proof (parts_NotifyBlockAdded tips m Hm) as Hc.
    destruct (NotifyBlockAdded env tips m) as [m1 [a|err|msg]];
      intros [= <-]; exact Hc.
  - pose proof (parts_NotifyMempoolTx lastUpdated m Hm) as Hc.
    destruct (NotifyMempoolTx env lastUpdated m) as [m1 [a|err|msg]];
      intros [= <-]; exact Hc.
  - pose proof (Inv_subscribe tips ts m Hm) as Hc.
    destruct (templateUpdateChan tips ts m) as [m1 [a|err|msg]];
      intros [= <-]; exact Hc.
  - pose proof (Inv_notify tips t m Hm) as Hc.
    destruct (notifyLongPollers env tips t m) as [m1 [a|err|msg]];
      intros [= <-]; exact Hc.
Qed.
End KeepsParts.

Section MachineWf.
Context `{Wire}.

Lemma keeps_conj {A} (P Q : Machine -> Prop) (c : M A) :
  keeps P c -> keeps Q c -> keeps (fun m => P m /\ Q m) c.
Proof.
  intros HP HQ m [Hp Hq]. specialize (HP m Hp). specialize (HQ m Hq).
  unfold hoare in *. destruct (c m) as [m' [a|e|msg]]; auto.
Qed.

Lemma cacheWf_onCache : onCache (fun m => cacheWf (state m)).
Proof.
  intros m m' Heq. unfold cacheWf.
  change (tipHashes (state m')) with (tipHashes (cacheOf (state m'))).
  change (template (state m')) with (template (cacheOf (state m'))).
  change (payAddress (state m')) with (payAddress (cacheOf (state m'))).
  rewrite Heq. auto.
Qed.

Lemma updateBlockTemplate_cacheWf env payAddr :
  keeps (fun m => cacheWf (state m)) (updateBlockTemplate env payAddr).
Proof.
  intros m [Htips Haddr]. unfold hoare.
  destruct (updateBlockTemplate env payAddr m) as [m' r] eqn:Hrun.
  apply updateBlockTemplate_inv in Hrun as [n Hrun]. cbv zeta in Hrun.
  destruct r as [[]|e|msg]; [| |exact I].
  - destruct Hrun as [(extraNonce & blk & _ & _ & Hcache)|(t & a & Ht & Ht' & Ha & _ & ->)].
    + eapply (cacheWf_onCache
                {| state := commitTemplate blk _ _ _ _ payAddr (state m);
                   closed := closed m; nextChan := nextChan m;
                   clockTicks := clockTicks m; rangeTicks := rangeTicks m |});
        [exact Hcache|].
      split; discriminate.
    + split; simpl; [discriminate | rewrite Ha; discriminate].
  - destruct Hrun as [-> _]. split; simpl; [congruence | exact Haddr].
Qed.

Lemma machineWf_onMemory : onMemory machineWf.
Proof.
  intros m m' Hst Hcl Hnext [Hsig Hcache]. split.
  - eapply signalsInv_onRegistry; [| | |exact Hsig]; congruence.
  - rewrite Hst. exact Hcache.
Qed.

Lemma reachable_machineWf m : reachable m -> machineWf m.
Proof.
  induction 1 as [|env c m m' Hrange Hreach IH Hstep].
  - split.
    + split.
      * unfold signalsWf, signalsOpen, signalsDistinct. simpl.
        repeat split; intros *; rewrite ?lookup_empty; discriminate.
      * intros c Hc. simpl in Hc. lia.
    + split; simpl; congruence.
  - eapply (parts_steps env machineWf); [| | | |exact IH|exact Hstep].
    + apply machineWf_onMemory.
    + intros payAddr. apply keeps_conj; [|apply updateBlockTemplate_cacheWf].
      apply (updateBlockTemplate_keeps env signalsInv).
      * apply signalsInv_onRegistry.
      * intros tips t. apply notifyLongPollers_signalsInv, Hrange.
    + intros tips t. apply keeps_conj; [apply notifyLongPollers_signalsInv, Hrange|].
      apply (notifyLongPollers_cache env (fun m => cacheWf (state m)) cacheWf_onCache).
    + intros tips ts. apply keeps_conj; [apply templateUpdateChan_signalsInv|].
      apply (templateUpdateChan_cache (fun m => cacheWf (state m)) cacheWf_onCache).
Qed.

(** X26: the template cache of every reachable machine.  A state that has
    tips has a template, and a state that has a template has a pay
    address: updateBlockTemplate commits the three together and resets
    the tips alone. *)
Theorem reachable_cache_wellformed (m : Machine) :
  reachable m ->
  (tipHashes (state m) <> None -> template (state m) <> None)
  /\ (template (state m) <> None -> payAddress (state m) <> None).
Proof. intros [_ Hcache]%reachable_machineWf. exact Hcache. Qed.

(** X27: updateBlockTemplate does not panic on a reachable machine: it
    returns, with no error or with an internal RPC error, and the
    machine it leaves has well-formed signals and a well-formed cache.
    The pay address of the state is never nil where its String method is
    called, the template is never nil where it is refreshed, and no
    channel is closed twice. *)
Theorem updateBlockTemplate_returns (env : Env) (payAddr : Address) (m : Machine) :
  rangeOrder_ok env ->
  reachable m ->
  exists m' r,
    updateBlockTemplate env payAddr m = (m', r)
    /\ (r = Ok tt \/ exists msg, r = Fail (RPCError ErrRPCInternal msg))
    /\ signalsWf m' /\ noLostSignal m' /\ cacheWf (state m').
Proof.
  intros Hrange [[Hwf Hlost] [Htips Haddr]]%reachable_machineWf.
  assert (Hkeeps : keeps machineWf (updateBlockTemplate env payAddr)).
  { apply keeps_conj; [|apply updateBlockTemplate_cacheWf].
    apply (updateBlockTemplate_keeps env signalsInv).
    - apply signalsInv_onRegistry.
    - intros tips t. apply notifyLongPollers_signalsInv, Hrange. }
  specialize (Hkeeps m (conj (conj Hwf Hlost) (conj Htips Haddr))). unfold hoare in Hkeeps.
  destruct (updateBlockTemplate_cases env payAddr m Haddr) as (n & Hregen & Hrefresh).
  cbv zeta in Hregen, Hrefresh.
  destruct (needsNewTemplate_run env (state m) (TipHashes env) payAddr
              (if IsZero (LastUpdated env) then clock env (clockTicks m) else LastUpdated env)
              (if IsZero (LastUpdated env) then tick 1 m else m) Haddr)
    as (k & b & _ & Hb).
  destruct b.
  - rewrite (Hregen (proj1 Hb eq_refl)) in Hkeeps |- *.
    destruct (random_Uint64 env) as [err|extraNonce] eqn:Hrandom.
    { unfold regenerateTemplate in Hkeeps |- *. rewrite run_bind in Hkeeps |- *.
      unfold modify at 1 in Hkeeps. unfold modify at 1. cbv beta iota in Hkeeps |- *.
      rewrite run_bind, Hrandom in Hkeeps |- *.
      eexists _, _. split; [reflexivity|]. split; [right; eauto|].
      destruct Hkeeps as [[? ?] ?]. auto. }
    destruct (NewBlockTemplate env payAddr extraNonce) as [err|blk] eqn:Hnew.
    { unfold regenerateTemplate in Hkeeps |- *. rewrite run_bind in Hkeeps |- *.
      unfold modify at 1 in Hkeeps. unfold modify at 1. cbv beta iota in Hkeeps |- *.
      rewrite run_bind, Hrandom, run_ret, run_bind, Hnew in Hkeeps |- *.
      eexists _, _. split; [reflexivity|]. split; [right; eauto|].
      destruct Hkeeps as [[? ?] ?]. auto. }
    destruct Hwf as (Hopen & Hdist & _).
    destruct (regenerateTemplate_run env Hrange payAddr (TipHashes env)
                (if IsZero (LastUpdated env) then clock env (clockTicks m)
                 else LastUpdated env)
                (tick n m) extraNonce blk Hopen Hdist Hrandom Hnew)
      as (cl & rt & Hrun & _).
    rewrite Hrun in Hkeeps |- *.
    eexists _, _. split; [reflexivity|]. split; [left; reflexivity|].
    destruct Hkeeps as [[? ?] ?]. auto.
  - assert (Hnot : ~ regenerationDue (state m) (TipHashes env) payAddr
                     (if IsZero (LastUpdated env) then clock env (clockTicks m)
                      else LastUpdated env)
                     (clock env (clockTicks (if IsZero (LastUpdated env) then tick 1 m else m))))
      by (intros Hdue; apply Hb in Hdue; discriminate).
    rewrite (Hrefresh Hnot) in Hkeeps |- *.
    destruct (template (state m)) as [t|] eqn:Ht;
      [|exfalso; apply Hnot; left; exact Ht].
    unfold refreshTemplate, modify in Hkeeps |- *.
    eexists _, _. split; [reflexivity|]. split; [left; reflexivity|].
    destruct Hkeeps as [[? ?] ?]. auto.
Qed.
End MachineWf.

(** ** The handlers *)

Section HandlersMore.
Context `{Wire}.
Variable env : Env.

Lemma updateBlockTemplate_Ok_template payAddr m m1 :
  updateBlockTemplate env payAddr m = (m1, Ok tt) -> exists t, template (state m1) = Some t.
Proof.
  intros Hrun. apply updateBlockTemplate_inv in Hrun as [n Hrun]. cbv zeta in Hrun.
  destruct Hrun as [(extraNonce & blk & _ & _ & Hcache)|(t & a & _ & _ & _ & _ & ->)].
  - exists blk. change (template (state m1)) with (template (cacheOf (state m1))).
    rewrite Hcache. reflexivity.
  - eexists. reflexivity.
Qed.

(** X28: a long-poll request whose ID decodes, after the step that updates
    the template.  When the hashes of the ID are the parents of the
    current template and its number is the second of the generation of
    the template, the handler waits, on the channel templateUpdateChan
    registers for these hashes and this second.  Otherwise it answers at
    once with what blockTemplateResult returns for the current
    template. *)
Theorem longPoll_waits_on_current_template (longPollID : string) (payAddr : Address)
    (m m1 : Machine) (hs : list Hash) (n : Z) :
  updateBlockTemplate env payAddr m = (m1, Ok tt) ->
  decodeLongPollID longPollID = inr (hs, n) ->
  exists t,
    template (state m1) = Some t
    /\ (ParentHashes (Header (Block t)) = hs
        /\ n = UnixSeconds (lastGenerated (state m1)) ->
        exists c m2,
          templateUpdateChan hs n m1 = (m2, Ok c)
          /\ handleGetBlockTemplateLongPoll env longPollID payAddr m
             = (m2, Ok (Waiting (Some c) payAddr))
          /\ signalAt (notifyMap (state m2)) (JoinHashesStrings hs "") n = Some c)
    /\ (~ (ParentHashes (Header (Block t)) = hs
           /\ n = UnixSeconds (lastGenerated (state m1))) ->
        handleGetBlockTemplateLongPoll env longPollID payAddr m
        = repliedWith (blockTemplateResult env m1)).
Proof.
  intros Hupd Hdec.
  destruct (updateBlockTemplate_Ok_template payAddr m m1 Hupd) as [t Ht].
  exists t. split; [exact Ht|].
  assert (Hrun : blockTemplateOrLongPollChan env longPollID payAddr m
                 = if negb (bool_decide (ParentHashes (Header (Block t)) = hs))
                      || negb (n =? UnixSeconds (lastGenerated (state m1)))
                   then (result ← blockTemplateResult env; mret (Some result, None)) m1
                   else (longPollChan ← templateUpdateChan hs n;
                         mret (None, Some longPollChan)) m1).
  { unfold blockTemplateOrLongPollChan.
    rewrite run_bind, Hupd, Hdec, run_bind. unfold get at 1. cbv beta iota. rewrite Ht.
    unfold AreEqual. cbv zeta. destruct (_ || _); reflexivity. }
  unfold handleGetBlockTemplateLongPoll. rewrite Hrun. clear Hrun. split.
  - intros [Hparents Hsec].
    rewrite bool_decide_eq_true_2 by exact Hparents.
    rewrite (proj2 (Z.eqb_eq _ _) Hsec). cbn [negb orb].
    destruct (templateUpdateChan_signalAt hs n m1) as (c & m2 & Hrun & Hat & _).
    exists c, m2. rewrite run_bind, Hrun, run_ret. auto.
  - intros Hnot.
    assert (Hcond : negb (bool_decide (ParentHashes (Header (Block t)) = hs))
                    || negb (n =? UnixSeconds (lastGenerated (state m1))) = true).
    { destruct (decide (ParentHashes (Header (Block t)) = hs)) as [Heq|Hne].
      - rewrite bool_decide_eq_true_2 by exact Heq. cbn [negb orb].
        destruct (Z.eqb_spec n (UnixSeconds (lastGenerated (state m1)))); [tauto | reflexivity].
      - rewrite bool_decide_eq_false_2 by exact Hne. reflexivity. }
    rewrite Hcond, run_bind. unfold repliedWith.
    destruct (blockTemplateResult env m1) as [m2 [r|e|msg]]; reflexivity.
Qed.

(** X29: the exits of handleGetBlockTemplate before it reads the work
    state.  A mode other than template and proposal is refused with the
    RPC error of an invalid parameter.  A template request to a node that
    has no peer, outside of the regression test and simulation networks,
    is refused with the RPC error of a client that is not connected, be
    its request nil.  A template request whose pay address does not decode
    returns the error of the decoder.  Each leaves the machine as it was.
    A command without a request, on a node that passes the test of its
    peers, panics: the request is dereferenced for its pay address. *)
Theorem handleGetBlockTemplate_early_exits (m : Machine) :
  (forall request,
      Mode request <> "" -> Mode request <> "template" -> Mode request <> "proposal" ->
      handleGetBlockTemplate env {| Request := Some request |} m
      = (m, Ok (Replied (VNil, Some (RPCError ErrRPCInvalidParameter "Invalid mode")))))
  /\ (forall cmd,
        RegressionTest env = false -> Simnet env = false -> ConnectedCount env = 0 ->
        (forall request, Request cmd = Some request ->
           Mode request = "" \/ Mode request = "template") ->
        handleGetBlockTemplate env cmd m
        = (m, Ok (Replied (VNil, Some (RPCError ErrRPCClientNotConnected
                                         "Kaspa is not connected")))))
  /\ (forall request err,
        RegressionTest env = true \/ Simnet env = true \/ ConnectedCount env <> 0 ->
        Mode request = "" \/ Mode request = "template" ->
        DecodeAddress env (PayAddress request) = inl err ->
        handleGetBlockTemplate env {| Request := Some request |} m
        = (m, Ok (Replied (VNil, Some (propagated err)))))
  /\ (RegressionTest env = true \/ Simnet env = true \/ ConnectedCount env <> 0 ->
      handleGetBlockTemplate env {| Request := None |} m = (m, Panic nilPointer)).
Proof.
  assert (Hconnected : RegressionTest env = true \/ Simnet env = true \/ ConnectedCount env <> 0 ->
            negb (RegressionTest env || Simnet env) && (ConnectedCount env =? 0) = false).
  { intros [->|[->|Hne]]; [reflexivity | rewrite orb_true_r; reflexivity|].
    rewrite (proj2 (Z.eqb_neq _ _) Hne). apply andb_false_r. }
  split; [|split; [|split]].
  - intros request H1 H2 H3. unfold handleGetBlockTemplate. cbv zeta. cbn [Request].
    rewrite (proj2 (String.eqb_neq _ _) H1). cbn [negb].
    rewrite (proj2 (String.eqb_neq _ _) H2), (proj2 (String.eqb_neq _ _) H3). reflexivity.
  - intros cmd Hreg Hsim Hcount Hmode. unfold handleGetBlockTemplate.
    assert (Htemplate : (match Request cmd with
                         | Some r => if negb (Mode r =? "")%string then Mode r else "template"
                         | None => "template"
                         end =? "template")%string = true).
    { destruct (Request cmd) as [request|]; [|reflexivity].
      destruct (Hmode request eq_refl) as [->| ->]; reflexivity. }
    cbv zeta. rewrite Htemplate. unfold handleGetBlockTemplateRequest.
    rewrite Hreg, Hsim, Hcount. reflexivity.
  - intros request err Hconn Hmode Haddr. unfold handleGetBlockTemplate.
    cbv zeta. cbn [Request].
    assert (Htemplate : ((if negb (Mode request =? "")%string then Mode request
                          else "template") =? "template")%string = true)
      by (destruct Hmode as [->| ->]; reflexivity).
    rewrite Htemplate. unfold handleGetBlockTemplateRequest.
    rewrite (Hconnected Hconn), Haddr. reflexivity.
  - intros Hconn. unfold handleGetBlockTemplate. cbv zeta. cbn [Request].
    change (("template" =? "template")%string) with true. cbv iota.
    unfold handleGetBlockTemplateRequest. rewrite (Hconnected Hconn). reflexivity.
Qed.
End HandlersMore.

(** ** The properties on the sample network *)

Module Witness.
Import Sample.

Lemma inOrder_ok mempool now check : rangeOrder_ok (node mempool now inOrder check).
Proof. intros n A l. reflexivity. Qed.

(** C1 at an input: the ID minted for the tip [hashA], the address
    [addr] and the time [t0] is rejected by the decoder. *)
Example decodeLongPollID_minted :
  mintedID = hashA +:+ "-kaspa:qqtesttesttest-1600000000"
  /\ decodeLongPollID mintedID
     = inl (errorString "decodeLongPollID: invalid number of fields").
Proof. split; vm_compute; reflexivity. Qed.

Lemma blockTemplateResult_emits_coinbase_witness :
  match blockTemplateResult soon cached with
  | (_, Ok r) => map ID (ResultTransactions r) = ["c0"; "a1"]
  | _ => False
  end.
Proof.
  assert (Hok : isOk (blockTemplateResult soon cached) = true) by (vm_compute; reflexivity).
  destruct (blockTemplateResult soon cached) as [m' [r|err|msg]] eqn:Hrun;
    [|discriminate Hok|discriminate Hok].
  exact (proj1 (blockTemplateResult_emits_coinbase soon (inOrder_ok _ _ _) cached m' r
                  (blockTemplate [hashA] t0 [coinbase; tx1]) eq_refl Hrun)).
Defined.

Lemma noSelfSpend_sample : noSelfSpend [coinbase; tx1; tx2; tx3].
Proof.
  intros tx txIn' Htx Hin.
  repeat (apply elem_of_cons in Htx as [->|Htx]); [..|inversion Htx];
    simpl in Hin;
    repeat (apply elem_of_cons in Hin as [->|Hin]); try (inversion Hin; fail);
    discriminate.
Qed.

(** C3 as stated fails: with inputs that spend [tx1] and [tx2], the
    field Depends of [tx3] lists their indices in the order in which the
    range statement of this run visits the keys of dependsMap, here 2
    before 1. *)
Lemma depends_not_sorted :
  rangeOrder_ok soon
  /\ dependsOf (blockTemplateResult soon cached4) = Some [[]; []; []; [2; 1]]
  /\ ~ Sorted Z.le [2; 1].
Proof.
  split; [apply inOrder_ok|]. split; [vm_compute; reflexivity|].
  intros Hsorted. apply Sorted_inv in Hsorted as [_ Hhd]. apply HdRel_inv in Hhd. lia.
Qed.

Lemma depends_sound_witness :
  match blockTemplateResult soon cached4 with
  | (_, Ok r) => forall rtx, ResultTransactions r !! 3%nat = Some rtx ->
                   NoDup (Depends rtx) /\ forall d, d ∈ Depends rtx -> 0 <= d < 3
  | _ => False
  end.
Proof.
  assert (Hok : isOk (blockTemplateResult soon cached4) = true) by (vm_compute; reflexivity).
  destruct (blockTemplateResult soon cached4) as [m' [r|err|msg]] eqn:Hrun;
    [|discriminate Hok|discriminate Hok].
  intros rtx Hrtx.
  destruct (depends_sound soon (inOrder_ok _ _ _) cached4 m' r
              (blockTemplate [hashA] t0 [coinbase; tx1; tx2; tx3])
              eq_refl noSelfSpend_sample Hrun 3%nat rtx Hrtx) as [Hnodup Hdeps].
  split; [exact Hnodup|]. intros d Hd. apply Hdeps. exact Hd.
Defined.

Lemma updateBlockTemplate_refreshes_at_60s_witness :
  lastTxUpdate (state cached) <> LastUpdated at60s
  /\ clock at60s 0 - lastGenerated (state cached) = 60 * Second
  /\ lastGenerated (state (updateBlockTemplate at60s addr cached).1) = t0
  /\ (Transactions ∘ Block <$> template (state (updateBlockTemplate at60s addr cached).1))
     = Some [coinbase; tx1].
Proof.
  assert (Hdiff : lastTxUpdate (state cached) <> LastUpdated at60s) by discriminate.
  assert (Hnow : clock at60s (clockTicks cached) - lastGenerated (state cached)
                 = gbtRegenerateSeconds * Second) by reflexivity.
  pose proof (updateBlockTemplate_refreshes_at_60s at60s addr addr cached
                (blockTemplate [hashA] t0 [coinbase; tx1])
                eq_refl eq_refl eq_refl eq_refl eq_refl Hdiff Hnow) as Hrun.
  split; [exact Hdiff|]. split; [exact Hnow|].
  rewrite Hrun. split; reflexivity.
Defined.

Ltac lookup_cases :=
  repeat match goal with
    | H : <[_ := _]> _ !! _ = Some _ |- _ =>
        apply lookup_insert_Some in H as [[? ?]|[? H]]; subst
    | H : {[_ := _]} !! _ = Some _ |- _ =>
        apply lookup_singleton_Some in H as [? ?]; subst
    end.

Lemma waiting_open : signalsOpen waiting.
Proof. intros fp inner ts c _ _. simpl. apply not_elem_of_empty. Qed.

Lemma registry_distinct : signalsDistinct registry.
Proof.
  intros fp1 inner1 ts1 fp2 inner2 ts2 c H1 Hc1 H2 Hc2. unfold registry in H1, H2.
  lookup_cases; lookup_cases; try discriminate; auto.
Qed.

Lemma notifyLongPollers_fires_witness :
  exists m',
    notifyLongPollers soon [hashA] (t0 + 5) waiting = (m', Ok tt)
    /\ notifyMap (state m') !! hashB = None
    /\ notifyMap (state m') !! hashA = Some {[1600000000 := 2%positive]}
    /\ forall c, c ∈ closed m' <-> c = 1%positive \/ c = 3%positive.
Proof.
  destruct (notifyLongPollers_fires soon (inOrder_ok _ _ _) [hashA] (t0 + 5) waiting
              waiting_open registry_distinct)
    as (m' & Hrun & _ & _ & Hother & _ & _ & Hcur).
  exists m'. split; [exact Hrun|].
  split; [apply Hother; discriminate|].
  destruct (Hcur eq_refl) as [Hmap Hclosed]. split.
  - etransitivity; [exact Hmap | reflexivity].
  - intros c. rewrite (Hclosed c). clear Hrun Hother Hcur Hmap Hclosed.
    change (@JoinHashesStrings hashes [hashA] "") with hashA.
    change (UnixSeconds (t0 + 5)) with 1600000000.
    change (notifyMap (state waiting)) with registry.
    change (closed waiting) with (∅ : gset chan).
    unfold staleSignal, oldSignal, registry. split.
    + intros [Hc|[(fp & inner & ts & Hne & Hfp & Hts)|(inner & ts & Hfp & Hts & Hlt)]].
      * apply elem_of_empty in Hc. contradiction.
      * apply lookup_insert_Some in Hfp as [[Heq _]|[_ Hfp]]; [congruence|].
        apply lookup_singleton_Some in Hfp as [_ <-].
        apply lookup_singleton_Some in Hts as [_ <-]. right. reflexivity.
      * apply lookup_insert_Some in Hfp as [[_ <-]|[Hne _]]; [|congruence].
        apply lookup_insert_Some in Hts as [[_ <-]|[_ Hts]]; [left; reflexivity|].
        apply lookup_singleton_Some in Hts as [<- _]. lia.
    + intros [->| ->].
      * right; right. exists (<[1599999000 := 1%positive]> {[1600000000 := 2%positive]}),
          1599999000.
        split; [apply lookup_insert_eq|]. split; [apply lookup_insert_eq | lia].
      * right; left. exists hashB, {[1599999000 := 3%positive]}, 1599999000.
        split; [discriminate|]. split.
        -- rewrite lookup_insert_ne by discriminate. apply lookup_singleton_eq.
        -- apply lookup_singleton_eq.
Defined.


Lemma dagErrToGBTErrString_total_witness :
  dagErrToGBTErrString (RuleError ErrHighHash "block hash is too high") = "high-hash"
  /\ dagErrToGBTErrString
       (withMessage "checkConnectBlock" (RuleError ErrDuplicateBlock "already have block"))
     = "duplicate"
  /\ dagErrToGBTErrString (RuleError (ErrCodeOther 0) "unknown rule") = "rejected: unknown rule"
  /\ dagErrToGBTErrString (errorString "database is closed") = "rejected: database is closed".
Proof.
  split; [|split; [|split]].
  - refine (proj1 (proj1 (dagErrToGBTErrString_total _) ErrHighHash _ "high-hash"
                     (isRuleError_here _ _) _)).
    unfold gbtRejectionTable. simpl. tauto.
  - refine (proj1 (proj1 (dagErrToGBTErrString_total _) ErrDuplicateBlock _ "duplicate"
                     (isRuleError_wrapped _ _ _ _ (isRuleError_here _ _)) _)).
    unfold gbtRejectionTable. simpl. tauto.
  - refine (proj1 (proj1 (proj2 (dagErrToGBTErrString_total _)) (ErrCodeOther 0) _
                     (isRuleError_here _ _) _)).
    intros s Hin. unfold gbtRejectionTable in Hin. simpl in Hin.
    repeat (destruct Hin as [Hin|Hin]; [discriminate Hin|]). exact Hin.
  - exact (proj1 (proj1 (proj2 (proj2 (dagErrToGBTErrString_total _)))
                    (notRuleError_plain _))).
Defined.

Lemma proposal_empty_data_witness :
  exists msg,
    handleGetBlockTemplate soon {| Request := Some (proposal "") |} cached
    = (cached, Ok (Replied (VBool false, Some (RPCError ErrRPCType msg)))).
Proof.
  destruct (proposal_empty_data soon (proposal "") eq_refl eq_refl) as [_ [msg Hrun]].
  exists msg. apply Hrun.
Defined.

Lemma longPoll_undecodable_returns_template_witness :
  match handleGetBlockTemplateLongPoll soon mintedID addr cached with
  | (_, Ok (Replied (VResult r, None))) => ResultLongPollID r = mintedID
  | _ => False
  end.
Proof.
  rewrite (proj1 (longPoll_undecodable_returns_template soon mintedID addr
                    (errorString "decodeLongPollID: invalid number of fields") cached
                    eq_refl)).
  vm_compute. reflexivity.
Defined.

Lemma notifyMap_no_empty_entry_witness :
  notifyMap (state subscribed) = {[hashA := {[1600000000 := 1%positive]}]}
  /\ noEmptyEntry (notifyMap (state subscribed)).
Proof.
  split; [reflexivity|].
  apply notifyMap_no_empty_entry.
  apply (reachable_step soon (@callSubscribe hashes wire [hashA] 1600000000) newMachine);
    [apply inOrder_ok | apply reachable_new | reflexivity].
Defined.

Lemma newMachine_wf : signalsWf newMachine.
Proof.
  unfold signalsWf, signalsOpen, signalsDistinct. simpl.
  repeat split; intros *; rewrite ?lookup_empty; discriminate.
Qed.

Lemma waiting_wf : signalsWf waiting.
Proof.
  split; [exact waiting_open|]. split; [exact registry_distinct|]. split.
  - intros fp inner ts c Hfp Hc. change (notifyMap (state waiting)) with registry in Hfp.
    unfold registry in Hfp. change (nextChan waiting) with 4%positive.
    lookup_cases; lookup_cases; lia.
  - intros c Hc. apply elem_of_empty in Hc. contradiction.
Qed.

Lemma txids_distinct : NoDup (map TxID [coinbase; tx1; tx2; tx3]).
Proof. apply (bool_decide_unpack _). vm_compute. exact I. Qed.

Lemma decodeLongPollID_time_not_negative_witness :
  decodeLongPollID legacyID = inr ([zeros 64; hashA], 1600000000)
  /\ 0 <= 1600000000 <= int64_max.
Proof.
  assert (Hdec : decodeLongPollID legacyID = inr ([zeros 64; hashA], 1600000000))
    by (vm_compute; reflexivity).
  split; [exact Hdec|].
  exact (decodeLongPollID_time_not_negative legacyID _ _ Hdec).
Defined.

Lemma encodeLongPollID_time_field_witness :
  exists fields,
    strings_Split mintedID "-" = (fields ++ ["1600000000"])%list
    /\ strconv_ParseInt "1600000000" = inr 1600000000.
Proof.
  destruct (@encodeLongPollID_time_field hashes wire [hashA] (Some addr) t0)
    as (fields & Hsplit & _ & Hparse).
  { vm_compute. split; discriminate. }
  exists fields. split; [exact Hsplit | exact Hparse].
Defined.

Lemma decodeLongPollID_splits_hashes_witness :
  decodeLongPollID legacyID = inr ([zeros 64; hashA], 1600000000)
  /\ length [zeros 64; hashA] = (2 * length [hashA])%nat.
Proof.
  assert (Hdec : decodeLongPollID legacyID = inr ([zeros 64; hashA], 1600000000))
    by (vm_compute; reflexivity).
  split; [exact Hdec|].
  refine (proj2 (@decodeLongPollID_splits_hashes hashes [hashA] [zeros 64; hashA]
                   1600000000 1600000000 _ _ Hdec)).
  - intros h Hh. apply elem_of_cons in Hh as [->|Hh]; [reflexivity | inversion Hh].
  - vm_compute. split; discriminate.
Defined.

Lemma blockTemplateResult_errors_witness :
  match blockTemplateResult late cached with
  | (_, Fail (RPCError code _)) => code = ErrRPCOutOfRange
  | _ => False
  end.
Proof.
  assert (Hfail : failed (blockTemplateResult late cached) = true)
    by (vm_compute; reflexivity).
  destruct (blockTemplateResult late cached) as [m' [r|e|msg]] eqn:Hrun;
    [discriminate Hfail| |discriminate Hfail].
  destruct (blockTemplateResult_errors late cached m' e Hrun)
    as (t & Ht & [(_ & _ & msg & ->)|(Hok & _)]); [reflexivity|].
  exfalso. injection Ht as <-. cbv in Hok. apply Hok. reflexivity.
Defined.

Lemma blockTemplateResult_reply_witness :
  match blockTemplateResult soon cached with
  | (_, Ok r) => CurTime r <= MaxTime r /\ ResultLongPollID r = mintedID
  | _ => False
  end.
Proof.
  assert (Hok : isOk (blockTemplateResult soon cached) = true) by (vm_compute; reflexivity).
  destruct (blockTemplateResult soon cached) as [m' [r|err|msg]] eqn:Hrun;
    [|discriminate Hok|discriminate Hok].
  destruct (blockTemplateResult_reply soon cached m' r Hrun)
    as (t & _ & _ & _ & _ & Hle & _ & _ & Hid & _).
  split; [exact Hle | exact Hid].
Defined.

Lemma reply_transaction_data_witness :
  match blockTemplateResult soon cached with
  | (_, Ok r) => forall rtx, ResultTransactions r !! 1%nat = Some rtx ->
                   hex_DecodeString (TxData rtx) = Some [x01] /\ ID rtx = "a1"
  | _ => False
  end.
Proof.
  assert (Hok : isOk (blockTemplateResult soon cached) = true) by (vm_compute; reflexivity).
  destruct (blockTemplateResult soon cached) as [m' [r|err|msg]] eqn:Hrun;
    [|discriminate Hok|discriminate Hok].
  intros rtx Hrtx.
  destruct (reply_transaction_data soon cached m' r (blockTemplate [hashA] t0 [coinbase; tx1])
              eq_refl Hrun 1%nat rtx Hrtx) as (tx & txBuf & Hat & Hser & Hhex & Hid & _).
  injection Hat as <-. injection Hser as <-. split; [exact Hhex | exact Hid].
Defined.

Lemma depends_exact_witness :
  match blockTemplateResult soon cached4 with
  | (_, Ok r) => forall rtx, ResultTransactions r !! 3%nat = Some rtx ->
                   1 ∈ Depends rtx /\ 2 ∈ Depends rtx /\ 0 ∉ Depends rtx
  | _ => False
  end.
Proof.
  assert (Hok : isOk (blockTemplateResult soon cached4) = true) by (vm_compute; reflexivity).
  destruct (blockTemplateResult soon cached4) as [m' [r|err|msg]] eqn:Hrun;
    [|discriminate Hok|discriminate Hok].
  intros rtx Hrtx.
  pose proof (depends_exact soon (inOrder_ok _ _ _) cached4 m' r
                (blockTemplate [hashA] t0 [coinbase; tx1; tx2; tx3])
                eq_refl txids_distinct noSelfSpend_sample Hrun 3%nat rtx tx3 Hrtx eq_refl)
    as Hdeps.
  split; [|split].
  - apply Hdeps. exists 1%nat, tx1, (txIn "a1").
    repeat split; [lia | left].
  - apply Hdeps. exists 2%nat, tx2, (txIn "a2").
    repeat split; [lia | right; left].
  - intros (k & txk & txIn' & Hk & _ & Hat & Hin & Hprev)%Hdeps.
    assert (k = 0%nat) as -> by lia. injection Hat as <-.
    simpl in Hin.
    repeat (apply elem_of_cons in Hin as [->|Hin]); try (inversion Hin; fail);
      discriminate Hprev.
Defined.

Lemma reply_longPollID_never_waits_witness :
  match blockTemplateResult soon cached with
  | (_, Ok r) =>
      handleGetBlockTemplateLongPoll soon (ResultLongPollID r) addr cached
      = currentTemplate soon addr cached
  | _ => False
  end.
Proof.
  assert (Hok : isOk (blockTemplateResult soon cached) = true) by (vm_compute; reflexivity).
  destruct (blockTemplateResult soon cached) as [m' [r|err|msg]] eqn:Hrun;
    [|discriminate Hok|discriminate Hok].
  exact (proj1 (reply_longPollID_never_waits soon cached m' r soon addr cached Hrun)).
Defined.

Lemma proposal_odd_length_padded_witness :
  handleGetBlockTemplateProposal highHash (proposal "0")
  = handleGetBlockTemplateProposal highHash (proposal "00").
Proof. apply (proposal_odd_length_padded highHash (proposal "0")). reflexivity. Defined.

Lemma registered_signals_open_and_distinct_witness :
  reachable subscribed
  /\ registered (notifyMap (state subscribed)) 1%positive
  /\ (1%positive ∉ closed subscribed) /\ (1 < nextChan subscribed)%positive.
Proof.
  assert (Hreach : reachable subscribed).
  { apply (reachable_step soon (@callSubscribe hashes wire [hashA] 1600000000) newMachine);
      [apply inOrder_ok | apply reachable_new | reflexivity]. }
  assert (Hat : signalAt (notifyMap (state subscribed)) hashA 1600000000 = Some 1%positive)
    by (vm_compute; reflexivity).
  assert (Hreg : registered (notifyMap (state subscribed)) 1%positive).
  { unfold signalAt in Hat.
    destruct (notifyMap (state subscribed) !! hashA) as [inner|] eqn:Hfp; [|discriminate].
    exists hashA, inner, 1600000000. split; [exact Hfp | exact Hat]. }
  split; [exact Hreach|]. split; [exact Hreg|].
  exact (proj1 (registered_signals_open_and_distinct subscribed Hreach) 1%positive Hreg).
Defined.

Lemma no_signal_lost_witness :
  (1 < nextChan subscribed)%positive
  <-> 1%positive ∈ closed subscribed \/ registered (notifyMap (state subscribed)) 1%positive.
Proof.
  refine (proj1 (no_signal_lost subscribed 1%positive _)).
  apply (reachable_step soon (@callSubscribe hashes wire [hashA] 1600000000) newMachine);
    [apply inOrder_ok | apply reachable_new | reflexivity].
Defined.

Lemma templateUpdateChan_signal_open_witness :
  templateUpdateChan [hashA] 1600000000 newMachine = (subscribed, Ok 1%positive)
  /\ 1%positive ∉ closed subscribed.
Proof.
  split; [reflexivity|].
  exact (@templateUpdateChan_signal_open hashes wire [hashA] 1600000000 newMachine subscribed 1%positive
           reachable_new eq_refl).
Defined.

Lemma notifyLongPollers_wakes_witness :
  exists m2,
    notifyLongPollers soon [hashB] t0 subscribed = (m2, Ok tt) /\ 1%positive ∈ closed m2.
Proof.
  destruct (notifyLongPollers_wakes soon (inOrder_ok _ _ _) [hashA] [hashB] 1600000000 t0
              newMachine subscribed 1%positive newMachine_wf eq_refl)
    as (m2 & Hrun & Hclosed & _).
  exists m2. split; [exact Hrun|]. apply Hclosed. left. discriminate.
Defined.

Lemma notifyLongPollers_idempotent_witness :
  match notifyLongPollers soon [hashA] (t0 + 5) waiting with
  | (m1, Ok _) =>
      exists m2, notifyLongPollers soon [hashA] (t0 + 5) m1 = (m2, Ok tt)
                 /\ closed m2 = closed m1
  | _ => False
  end.
Proof.
  assert (Hok : isOk (notifyLongPollers soon [hashA] (t0 + 5) waiting) = true)
    by (vm_compute; reflexivity).
  destruct (notifyLongPollers soon [hashA] (t0 + 5) waiting) as [m1 [[]|err|msg]] eqn:Hrun;
    [|discriminate Hok|discriminate Hok].
  destruct (notifyLongPollers_idempotent soon (inOrder_ok _ _ _) [hashA] (t0 + 5) waiting m1
              waiting_wf Hrun) as (m2 & Hrun2 & _ & Hclosed & _).
  exists m2. split; [exact Hrun2 | exact Hclosed].
Defined.

Lemma hashB_stale : staleSignal registry hashA 3%positive.
Proof.
  exists hashB, {[1599999000 := 3%positive]}, 1599999000.
  split; [discriminate|]. split.
  - unfold registry. rewrite lookup_insert_ne by discriminate. apply lookup_singleton_eq.
  - apply lookup_singleton_eq.
Qed.

Lemma NotifyBlockAdded_wakes_witness :
  exists m',
    NotifyBlockAdded soon [hashA] waiting = (m', Ok tt)
    /\ notifyMap (state m') !! hashB = None
    /\ 3%positive ∈ closed m'.
Proof.
  destruct (NotifyBlockAdded_wakes soon (inOrder_ok _ _ _) [hashA] waiting waiting_wf)
    as (m' & Hrun & _ & Hother & Hstale & _).
  exists m'. split; [exact Hrun|]. split.
  - apply Hother. discriminate.
  - apply Hstale. exact hashB_stale.
Defined.

Lemma NotifyMempoolTx_fires_witness :
  exists m',
    NotifyMempoolTx later (t0 + 5) waiting = (m', Ok tt) /\ 3%positive ∈ closed m'.
Proof.
  destruct (NotifyMempoolTx_fires later (inOrder_ok _ _ _) (t0 + 5) waiting waiting_wf)
    as (m' & Hrun & Hclosed).
  exists m'. split; [exact Hrun|]. apply Hclosed. right. exists [hashA].
  split; [reflexivity|]. split; [reflexivity|]. split; [reflexivity|].
  left. exact hashB_stale.
Defined.

Lemma updateBlockTemplate_post_witness :
  match updateBlockTemplate soon addr cached with
  | (m', Ok _) => tipHashes (state m') = Some [hashA]
  | _ => False
  end.
Proof.
  assert (Hok : isOk (updateBlockTemplate soon addr cached) = true)
    by (vm_compute; reflexivity).
  destruct (updateBlockTemplate soon addr cached) as [m' [[]|err|msg]] eqn:Hrun;
    [|discriminate Hok|discriminate Hok].
  destruct (updateBlockTemplate_post soon addr cached m' Hrun)
    as [(t & a & _ & Htips & _) _].
  exact Htips.
Defined.

Lemma updateBlockTemplate_failure_witness :
  match updateBlockTemplate broken addr newMachine with
  | (m', Fail (RPCError code _)) =>
      code = ErrRPCInternal /\ state m' = setTipHashes None (state newMachine)
  | _ => False
  end.
Proof.
  assert (Hfail : failed (updateBlockTemplate broken addr newMachine) = true)
    by (vm_compute; reflexivity).
  destruct (updateBlockTemplate broken addr newMachine) as [m' [r|e|msg]] eqn:Hrun;
    [discriminate Hfail| |discriminate Hfail].
  destruct (updateBlockTemplate_failure broken addr newMachine m' e Hrun)
    as ([text ->] & Hstate & _).
  split; [reflexivity | exact Hstate].
Defined.

Lemma updateBlockTemplate_regenerates_witness :
  exists m',
    updateBlockTemplate soon addr newMachine = (m', Ok tt)
    /\ template (state m') = Some (blockTemplate [hashA] (t0 + 1000) [coinbase; tx1; tx2; tx3])
    /\ tipHashes (state m') = Some [hashA]
    /\ payAddress (state m') = Some addr.
Proof.
  destruct (updateBlockTemplate_regenerates soon (inOrder_ok _ _ _) addr newMachine 42
              (blockTemplate [hashA] (t0 + 1000) [coinbase; tx1; tx2; tx3]) newMachine_wf)
    as (m' & Hrun & Ht & Htips & Haddr & _).
  - intros Hsome. exfalso. apply Hsome. reflexivity.
  - left. reflexivity.
  - reflexivity.
  - reflexivity.
  - exists m'. split; [exact Hrun|]. split; [exact Ht|]. split; [exact Htips | exact Haddr].
Defined.

Lemma updateBlockTemplate_refreshes_witness :
  exists t n,
    template (state cached) = Some t
    /\ updateBlockTemplate soon addr cached
       = (setState (setTemplate
            (Some (setBlock (setNonce 0 (UpdateBlockTime soon (Block t))) t)))
            (tick n cached), Ok tt).
Proof.
  apply (updateBlockTemplate_refreshes soon addr cached).
  - intros _. discriminate.
  - intros [Hnone|[Hnone|[Hne|[Hne|[Hne _]]]]];
      [discriminate Hnone | discriminate Hnone | | |]; apply Hne; reflexivity.
Defined.

Lemma reachable_cache_wellformed_witness :
  reachable served
  /\ tipHashes (state served) <> None
  /\ template (state served) <> None
  /\ payAddress (state served) <> None.
Proof.
  assert (Hok : isOk (handleGetBlockTemplate soon {| Request := Some (request "template") |}
                        newMachine) = true)
    by (vm_compute; reflexivity).
  assert (Hreach : reachable served).
  { apply (reachable_step soon (callRequest {| Request := Some (request "template") |})
             newMachine); [apply inOrder_ok | apply reachable_new |].
    unfold steps, served.
    destruct (handleGetBlockTemplate soon {| Request := Some (request "template") |}
                newMachine) as [m' [r|e|msg]];
      [reflexivity | discriminate Hok | discriminate Hok]. }
  assert (Hset : match tipHashes (state served) with Some _ => true | None => false end
                 = true)
    by (vm_compute; reflexivity).
  assert (Htips : tipHashes (state served) <> None).
  { intros Hnone. rewrite Hnone in Hset. discriminate Hset. }
  destruct (reachable_cache_wellformed served Hreach) as [Htemplate Haddress].
  split; [exact Hreach|]. split; [exact Htips|].
  split; [exact (Htemplate Htips) | exact (Haddress (Htemplate Htips))].
Defined.

Lemma updateBlockTemplate_returns_witness :
  exists m' r,
    updateBlockTemplate soon addr newMachine = (m', r)
    /\ (r = Ok tt \/ exists msg, r = Fail (RPCError ErrRPCInternal msg)).
Proof.
  destruct (updateBlockTemplate_returns soon addr newMachine (inOrder_ok _ _ _) reachable_new)
    as (m' & r & Hrun & Hr & _).
  exists m', r. split; [exact Hrun | exact Hr].
Defined.

Lemma longPoll_waits_on_current_template_witness :
  decodeLongPollID currentID = inr ([hashA], 1600000000)
  /\ exists c m2,
       handleGetBlockTemplateLongPoll soon currentID addr cached
       = (m2, Ok (Waiting (Some c) addr)).
Proof.
  assert (Hdec : decodeLongPollID currentID = inr ([hashA], 1600000000))
    by (vm_compute; reflexivity).
  assert (Hok : isOk (updateBlockTemplate soon addr cached) = true)
    by (vm_compute; reflexivity).
  assert (Hupd : updateBlockTemplate soon addr cached = (refreshed, Ok tt)).
  { unfold refreshed.
    destruct (updateBlockTemplate soon addr cached) as [m1 [[]|e|msg]];
      [reflexivity|discriminate Hok|discriminate Hok]. }
  assert (Hsame : match template (state refreshed) with
                  | Some t => bool_decide (ParentHashes (Header (Block t)) = [hashA])
                              && (1600000000 =? UnixSeconds (lastGenerated (state refreshed)))
                  | None => false
                  end = true)
    by (vm_compute; reflexivity).
  split; [exact Hdec|].
  destruct (longPoll_waits_on_current_template soon currentID addr cached refreshed
              [hashA] 1600000000 Hupd Hdec) as (t & Ht & Hwaits & _).
  rewrite Ht in Hsame. apply andb_prop in Hsame. destruct Hsame as [Hph Hsec].
  apply bool_decide_eq_true in Hph. apply Z.eqb_eq in Hsec.
  destruct (Hwaits (conj Hph Hsec)) as (c & m2 & _ & Hrun & _).
  exists c, m2. exact Hrun.
Defined.

Lemma handleGetBlockTemplate_early_exits_witness :
  handleGetBlockTemplate soon {| Request := Some (request "submit") |} cached
  = (cached, Ok (Replied (VNil, Some (RPCError ErrRPCInvalidParameter "Invalid mode"))))
  /\ handleGetBlockTemplate offline {| Request := None |} cached
     = (cached, Ok (Replied (VNil, Some (RPCError ErrRPCClientNotConnected
                                           "Kaspa is not connected"))))
  /\ handleGetBlockTemplate strict {| Request := Some (request "template") |} cached
     = (cached, Ok (Replied (VNil, Some (propagated
                      (errorString "decoded address is of unknown format")))))
  /\ handleGetBlockTemplate soon {| Request := None |} cached = (cached, Panic nilPointer).
Proof.
  split; [|split; [|split]].
  - apply (proj1 (handleGetBlockTemplate_early_exits soon cached)); discriminate.
  - apply (proj1 (proj2 (handleGetBlockTemplate_early_exits offline cached)));
      [reflexivity|reflexivity|reflexivity|discriminate].
  - apply (proj1 (proj2 (proj2 (handleGetBlockTemplate_early_exits strict cached)))).
    + right. right. discriminate.
    + right. reflexivity.
    + reflexivity.
  - apply (proj2 (proj2 (proj2 (handleGetBlockTemplate_early_exits soon cached)))).
    right. right. discriminate.
Defined.
End Witness.
